(** * The synchronizer of the notes application, as a state-and-error monad

    This development embeds the [Synchronizer] class (the three-phase
    UPLOAD / DELETE_REMOTE / DELTA protocol, [apiCall], [cancel],
    [maxResourceSize], ...) in Rocq.  The class orchestrates a collection of
    collaborators (file API, item store, lock handler, migration handler,
    item uploader, download queue) whose code lives elsewhere; they are taken
    as a record of functions over an abstract external state [Ext].  Every
    completed collaborator call, every dispatched action and every logger
    line is recorded, in order, in a trace, so that theorems can speak about
    what a run did. *)

From Stdlib Require Import ZArith List Bool String Ascii Lia.
From stdpp Require Import base strings pretty list.

Import ListNotations.
Local Open Scope string_scope.
Local Open Scope Z_scope.
Local Open Scope list_scope.

(** ** Data model *)

(** [BaseModel.TYPE_*]: the item variants.  [TYPE_UNKNOWN] stands for any
    type number this client does not know. *)
Inductive ModelType :=
| TYPE_NOTE | TYPE_FOLDER | TYPE_RESOURCE | TYPE_TAG | TYPE_NOTE_TAG
| TYPE_REVISION | TYPE_MASTER_KEY | TYPE_UNKNOWN.

Definition ModelType_eqb (a b : ModelType) : bool :=
  match a, b with
  | TYPE_NOTE, TYPE_NOTE | TYPE_FOLDER, TYPE_FOLDER
  | TYPE_RESOURCE, TYPE_RESOURCE | TYPE_TAG, TYPE_TAG
  | TYPE_NOTE_TAG, TYPE_NOTE_TAG | TYPE_REVISION, TYPE_REVISION
  | TYPE_MASTER_KEY, TYPE_MASTER_KEY | TYPE_UNKNOWN, TYPE_UNKNOWN => true
  | _, _ => false
  end.

(** An item as the synchronizer sees it.  [sync_time] is the column joined
    in by [itemsThatNeedSync]; numbers that JavaScript leaves undefined are
    0 here, which is what the code's truthiness tests treat them as. *)
Record Item := mkItem {
  id : string;
  type_ : ModelType;
  title : string;
  updated_time : Z;
  created_time : Z;
  user_updated_time : Z;
  user_created_time : Z;
  encryption_applied : bool;
  sync_time : Z;
  size : Z;
  share_id : string
}.

Definition set_user_updated_time (v : Z) (i : Item) : Item :=
  mkItem (id i) (type_ i) (title i) (updated_time i) (created_time i) v
         (user_created_time i) (encryption_applied i) (sync_time i) (size i)
         (share_id i).

Definition set_user_created_time (v : Z) (i : Item) : Item :=
  mkItem (id i) (type_ i) (title i) (updated_time i) (created_time i)
         (user_updated_time i) v (encryption_applied i) (sync_time i) (size i)
         (share_id i).

(** [interface RemoteItem]; an absent [id] is the empty string. *)
Record RemoteItem := mkRemoteItem {
  rid : string;
  path : string;
  rtype_ : option ModelType;
  isDeleted : bool;
  rupdated_time : Z;
  jop_updated_time : option Z
}.

(** The delta continuation.  Only the two caches that [start] strips before
    persisting are visible; the rest is the opaque [token]. *)
Record DeltaContext := mkDeltaContext {
  token : string;
  statsCache : option (list string);
  statIdsCache : option (list string)
}.

(** [options.context] / [outputContext]: the [delta] property and whatever
    else the caller keeps in the object. *)
Record SyncContext := mkSyncContext {
  delta : option DeltaContext;
  other : list (string * string)
}.

Record Options := mkOptions {
  onProgress : bool;
  context : option SyncContext;
  syncSteps : option (list string);
  throwOnError : bool;
  saveContextHandler : bool
}.

(** Errors: [code], [message], [type] and [details] are the properties the
    synchronizer reads.  An absent [code] or [type] is the empty string. *)
Record JError := mkError {
  code : string;
  message : string;
  etype : string;
  details : option string
}.

Definition JoplinError (msg c : string) : JError := mkError c msg "" None.
Definition Error (msg : string) : JError := mkError "" msg "" None.

Inductive Res (A : Type) :=
| Ok (a : A)
| Throw (e : JError).
Arguments Ok {A} a.
Arguments Throw {A} e.

Definition isOk {A} (r : Res A) : bool :=
  match r with Ok _ => true | Throw _ => false end.

Inductive LockType := LockSync | LockExclusive.

Record Lock := mkLock {
  lock_type : LockType;
  lock_clientType : string;
  lock_clientId : string
}.

Inductive FetchStatus :=
| FETCH_STATUS_IDLE | FETCH_STATUS_STARTED | FETCH_STATUS_DONE | FETCH_STATUS_ERROR.

Definition FetchStatus_eqb (a b : FetchStatus) : bool :=
  match a, b with
  | FETCH_STATUS_IDLE, FETCH_STATUS_IDLE
  | FETCH_STATUS_STARTED, FETCH_STATUS_STARTED
  | FETCH_STATUS_DONE, FETCH_STATUS_DONE
  | FETCH_STATUS_ERROR, FETCH_STATUS_ERROR => true
  | _, _ => false
  end.

Record NeedSync := mkNeedSync {
  ns_items : list Item;
  ns_hasMore : bool;
  neverSyncedItemIds : list string
}.

Record DeletedItem := mkDeletedItem {
  item_id : string;
  item_type : ModelType
}.

Record ListResult := mkListResult {
  lr_items : list RemoteItem;
  lr_context : DeltaContext;
  lr_hasMore : bool
}.

Record UploadPath := mkUploadPath {
  up_path : string;
  up_resource : Item
}.

Record TaskResult := mkTaskResult {
  task_result : option string;
  task_error : option JError
}.

Record SyncTargetInfo := mkSyncTargetInfo {
  version : Z
}.

(** [maxResourceSize()] returns a number or [Infinity]. *)
Inductive SizeLimit :=
| Bytes (n : Z)
| Infinity.

(** [a >= limit] on JavaScript numbers. *)
Definition size_ge (a : Z) (l : SizeLimit) : bool :=
  match l with
  | Bytes n => n <=? a
  | Infinity => false
  end.

(** ** The progress report *)

Inductive ReportEntry :=
| ReportError (e : JError)
| ReportMessage (m : string).

(** [progressReport_]: the per-action counters in the order in which the
    properties were created, and the named properties.  The object [{}] that
    [start] leaves behind is the empty report. *)
Record Report := mkReport {
  counters : list (string * Z);
  rstate : option string;
  startTime : option Z;
  completedTime : option Z;
  errors : list ReportEntry
}.

Definition emptyReport : Report := mkReport [] None None None [].

(** [report[action]], and [report[action] = v] on the counters. *)
Fixpoint counter (action : string) (l : list (string * Z)) : option Z :=
  match l with
  | [] => None
  | (k, v) :: rest => if String.eqb k action then Some v else counter action rest
  end.

Fixpoint set_counter (action : string) (v : Z) (l : list (string * Z))
    : list (string * Z) :=
  match l with
  | [] => [(action, v)]
  | (k, x) :: rest =>
      if String.eqb k action then (k, v) :: rest
      else (k, x) :: set_counter action v rest
  end.

(** ** Trace

    What a run does to the outside is recorded in order: the collaborator
    calls with their labels, and the calls that only notify (the logger, the
    store's [dispatch], [eventManager.emit], the [onProgress] callback and
    the [saveContextHandler]).  The notifying calls are recorded as events
    and return normally. *)

Inductive Action :=
| SYNC_STARTED
| SYNC_REPORT_UPDATE (report : Report)
| SYNC_HAS_DISABLED_SYNC_ITEMS
| SYNC_GOT_ENCRYPTED_ITEM
| SYNC_CREATED_OR_UPDATED_RESOURCE (rid : string)
| SYNC_COMPLETED (isFullSync : bool).

Inductive LogLevel := LDebug | LInfo | LWarn | LError.

(** The collaborator calls the synchronizer makes, with their arguments. *)
Inductive Call :=
| c_api_initialize
| c_api_setTempDirName (name : string)
| c_api_stat (p : string)
| c_api_get (p : string)
| c_api_put (p : string) (localPath : string) (shareId : string)
| c_api_delete (p : string)
| c_api_delta (ctx : option DeltaContext) (wipeOutFailSafe : bool)
| c_hasActiveLock (t : LockType) (who : option (string * string))
| c_acquireLock (t : LockType) (appType clientId : string)
| c_releaseLock (t : LockType) (appType clientId : string)
| c_startAutoLockRefresh (l : Lock)
| c_stopAutoLockRefresh (l : Lock)
| c_checkCanSync
| c_upgrade (v : Z)
| c_Setting_setValue (key value : string)
| c_count (cls : ModelType)
| c_indexNoteResources
| c_updateAllShareIds
| c_itemsThatNeedSync (target : Z)
| c_preUploadItems (items : list Item)
| c_serializeAndUploadItem (cls : ModelType) (p : string) (local : Item)
| c_unserialize (content : string)
| c_saveSyncDisabled (cls : ModelType) (target : Z) (item : Item)
                     (reason : string) (remoteLocation : bool)
| c_saveSyncTime (cls : ModelType) (target : Z) (item : Item) (time : Z)
| c_save (cls : ModelType) (item : Item) (isNew : bool) (oldItem : option Item)
         (syncTime : Z)
| c_delete (cls : ModelType) (itemId : string) (trackDeleted : bool)
| c_Resource_localState (resourceId : string)
| c_fullPathForSyncUpload (local : Item)
| c_createConflictResourceNote (local : Item)
| c_setLocalState (resourceId : string) (s : FetchStatus)
| c_ResourceLocalState_save (resourceId : string) (s : FetchStatus)
| c_createConflictNote (local : Item)
| c_deletedItems (target : Z)
| c_remoteDeletedItem (target : Z) (itemId : string)
| c_loadItemsByIds (ids : list string)
| c_deleteOrphanSyncItems
| c_Folder_noteIds (folderId : string)
| c_markNotesAsConflict (folderId : string)
| c_Folder_delete (folderId : string)
| c_queue_stop
| c_queue_new
| c_queue_push (key : string)
| c_queue_waitForResult (key : string)
| c_enableEncryption (masterKey : Item)
| c_loadMasterKeysFromSettings
| c_shareService_maintenance.

Inductive Event :=
| EvCall (c : Call) (returned : bool)
| EvDispatch (a : Action)
| EvEmit (name : string) (withErrors : option bool)
| EvOnProgress (r : Report)
| EvLogger (level : LogLevel) (line : string)
| EvSaveContext (d : DeltaContext).

(** What can happen while an [await] has the run suspended: the user calls
    [cancel()], or the lock handler's refresh timer fails and runs the
    callback given to [startAutoLockRefresh]. *)
Inductive Interrupt :=
| UserCancel
| LockRefreshFailed (e : JError).

(** ** Collaborators

    Everything [start] calls but does not define.  A call takes the external
    state and returns a value or throws, and the new external state; pure
    helpers and constants are plain functions.  [pending] hands over the
    interrupts that arrived while the run was suspended. *)
Set Implicit Arguments.

Record Collab (Ext : Type) := mkCollab {
  (* file API *)
  syncTargetId : Z;
  supportsAccurateTimestamp : bool;
  supportsMultiPut : bool;
  api_initialize : Ext -> Res unit * Ext;
  api_setTempDirName : string -> Ext -> Res unit * Ext;
  api_stat : string -> Ext -> Res (option RemoteItem) * Ext;
  api_get : string -> Ext -> Res (option string) * Ext;
  api_put : string -> string -> string -> Ext -> Res unit * Ext;
  api_delete : string -> Ext -> Res unit * Ext;
  api_delta : option DeltaContext -> bool -> Ext -> Res ListResult * Ext;
  api_lastRequests : Ext -> list (string * string * string);
  (* lock and migration handlers *)
  hasActiveLock : LockType -> option (string * string) -> Ext -> Res bool * Ext;
  acquireLock : LockType -> string -> string -> Ext -> Res Lock * Ext;
  releaseLock : LockType -> string -> string -> Ext -> Res unit * Ext;
  startAutoLockRefresh : Lock -> Ext -> Res unit * Ext;
  stopAutoLockRefresh : Lock -> Ext -> Res unit * Ext;
  checkCanSync : Ext -> Res SyncTargetInfo * Ext;
  upgrade : Z -> Ext -> Res unit * Ext;
  (* settings, clock, shim *)
  Setting_syncVersion : Ext -> Z;
  Setting_wipeOutFailSafe : Ext -> bool;
  Setting_setValue : string -> string -> Ext -> Res unit * Ext;
  SYNC_UPGRADE_STATE_SHOULD_DO : string;
  unixMs : Ext -> Z;
  isTestingEnv : bool;
  fetchRequestCanBeRetried : JError -> bool;
  (* constants and pure helpers of the models *)
  Dirnames_Resources : string;
  Dirnames_Temp : string;
  systemPath : string -> string;
  pathToId : string -> string;
  isSystemPath : string -> bool;
  modelTypeToClassName : ModelType -> string;
  ItemClass_filter : ModelType -> Item -> Item;
  mustHandleConflict : Item -> Item -> bool;
  (* item store *)
  ItemClass_count : ModelType -> Ext -> Res Z * Ext;
  updateAllShareIds : Ext -> Res unit * Ext;
  itemsThatNeedSync : Z -> Ext -> Res NeedSync * Ext;
  unserialize : string -> Ext -> Res Item * Ext;
  saveSyncDisabled : ModelType -> Z -> Item -> string -> bool -> Ext -> Res unit * Ext;
  saveSyncTime : ModelType -> Z -> Item -> Z -> Ext -> Res unit * Ext;
  ItemClass_save : ModelType -> Item -> bool -> option Item -> Z -> Ext -> Res unit * Ext;
  ItemClass_delete : ModelType -> string -> bool -> Ext -> Res unit * Ext;
  Resource_localState : string -> Ext -> Res FetchStatus * Ext;
  fullPathForSyncUpload : Item -> Ext -> Res UploadPath * Ext;
  createConflictResourceNote : Item -> Ext -> Res unit * Ext;
  setLocalState : string -> FetchStatus -> Ext -> Res unit * Ext;
  ResourceLocalState_save : string -> FetchStatus -> Ext -> Res unit * Ext;
  createConflictNote : Item -> Ext -> Res unit * Ext;
  deletedItems : Z -> Ext -> Res (list DeletedItem) * Ext;
  remoteDeletedItem : Z -> string -> Ext -> Res unit * Ext;
  loadItemsByIds : list string -> Ext -> Res (list Item) * Ext;
  deleteOrphanSyncItems : Ext -> Res unit * Ext;
  Folder_noteIds : string -> Ext -> Res (list string) * Ext;
  markNotesAsConflict : string -> Ext -> Res unit * Ext;
  Folder_delete : string -> Ext -> Res unit * Ext;
  (* item uploader *)
  preUploadItems : list Item -> Ext -> Res unit * Ext;
  serializeAndUploadItem : ModelType -> string -> Item -> Ext -> Res unit * Ext;
  (* download queue *)
  queue_stop : Ext -> Res unit * Ext;
  queue_new : Ext -> Res unit * Ext;
  queue_push : string -> Ext -> Res unit * Ext;
  queue_waitForResult : string -> Ext -> Res TaskResult * Ext;
  (* services *)
  indexNoteResources : Ext -> Res unit * Ext;
  enableEncryption : Item -> Ext -> Res unit * Ext;
  loadMasterKeysFromSettings : Ext -> Res unit * Ext;
  shareService_maintenance : Ext -> Res unit * Ext;
  (* interrupts delivered at a suspension point *)
  pending : Ext -> list Interrupt * Ext
}.

Unset Implicit Arguments.

(** ** The synchronizer object and the frame of [start] *)

(** The fields of the class.  A service or queue field holds [true] when it
    is set, [onProgress_] when it is a caller's callback rather than the
    empty function. *)
Record Synchronizer := mkSynchronizer {
  appType_ : string;
  clientId_ : string;
  maxResourceSize_ : option Z;
  testingHooks_ : list string;
  encryptionService_ : bool;
  resourceService_ : bool;
  shareService_ : bool;
  state_ : string;
  cancelling_ : bool;
  syncTargetIsLocked_ : bool;
  downloadQueue_ : bool;
  onProgress_ : bool;
  progressReport_ : Report
}.

(** [constructor(db, api, appType)] with the field initialisers. *)
Definition newSynchronizer (appType clientId : string) : Synchronizer :=
  mkSynchronizer appType clientId None [] false false false
                 "idle" false false false false emptyReport.

(** The local variables of [start] that are assigned inside the [try] block
    or inside a loop and read after it. *)
Record Frame := mkFrame {
  syncLock : option Lock;
  errorToThrow : option JError;
  outputContext : SyncContext;
  hasAutoEnabledEncryption : bool;
  donePaths : list string;
  deltaContext : option DeltaContext;
  newDeltaContext : option DeltaContext;
  localFoldersToDelete : list Item;
  hasCancelled : bool
}.

Definition newFrame : Frame :=
  mkFrame None None (mkSyncContext None []) false [] None None [] false.

Definition set_state_ (v : string) (s : Synchronizer) : Synchronizer :=
  mkSynchronizer (appType_ s) (clientId_ s) (maxResourceSize_ s)
    (testingHooks_ s) (encryptionService_ s) (resourceService_ s)
    (shareService_ s) v (cancelling_ s) (syncTargetIsLocked_ s)
    (downloadQueue_ s) (onProgress_ s) (progressReport_ s).

Definition set_cancelling_ (v : bool) (s : Synchronizer) : Synchronizer :=
  mkSynchronizer (appType_ s) (clientId_ s) (maxResourceSize_ s)
    (testingHooks_ s) (encryptionService_ s) (resourceService_ s)
    (shareService_ s) (state_ s) v (syncTargetIsLocked_ s)
    (downloadQueue_ s) (onProgress_ s) (progressReport_ s).

Definition set_syncTargetIsLocked_ (v : bool) (s : Synchronizer) : Synchronizer :=
  mkSynchronizer (appType_ s) (clientId_ s) (maxResourceSize_ s)
    (testingHooks_ s) (encryptionService_ s) (resourceService_ s)
    (shareService_ s) (state_ s) (cancelling_ s) v
    (downloadQueue_ s) (onProgress_ s) (progressReport_ s).

Definition set_downloadQueue_ (v : bool) (s : Synchronizer) : Synchronizer :=
  mkSynchronizer (appType_ s) (clientId_ s) (maxResourceSize_ s)
    (testingHooks_ s) (encryptionService_ s) (resourceService_ s)
    (shareService_ s) (state_ s) (cancelling_ s) (syncTargetIsLocked_ s)
    v (onProgress_ s) (progressReport_ s).

Definition set_onProgress_ (v : bool) (s : Synchronizer) : Synchronizer :=
  mkSynchronizer (appType_ s) (clientId_ s) (maxResourceSize_ s)
    (testingHooks_ s) (encryptionService_ s) (resourceService_ s)
    (shareService_ s) (state_ s) (cancelling_ s) (syncTargetIsLocked_ s)
    (downloadQueue_ s) v (progressReport_ s).

Definition set_progressReport_ (v : Report) (s : Synchronizer) : Synchronizer :=
  mkSynchronizer (appType_ s) (clientId_ s) (maxResourceSize_ s)
    (testingHooks_ s) (encryptionService_ s) (resourceService_ s)
    (shareService_ s) (state_ s) (cancelling_ s) (syncTargetIsLocked_ s)
    (downloadQueue_ s) (onProgress_ s) v.

Definition set_syncLock (v : option Lock) (f : Frame) : Frame :=
  mkFrame v (errorToThrow f) (outputContext f) (hasAutoEnabledEncryption f)
    (donePaths f) (deltaContext f) (newDeltaContext f)
    (localFoldersToDelete f) (hasCancelled f).

Definition set_errorToThrow (v : option JError) (f : Frame) : Frame :=
  mkFrame (syncLock f) v (outputContext f) (hasAutoEnabledEncryption f)
    (donePaths f) (deltaContext f) (newDeltaContext f)
    (localFoldersToDelete f) (hasCancelled f).

Definition set_outputContext (v : SyncContext) (f : Frame) : Frame :=
  mkFrame (syncLock f) (errorToThrow f) v (hasAutoEnabledEncryption f)
    (donePaths f) (deltaContext f) (newDeltaContext f)
    (localFoldersToDelete f) (hasCancelled f).

Definition set_hasAutoEnabledEncryption (v : bool) (f : Frame) : Frame :=
  mkFrame (syncLock f) (errorToThrow f) (outputContext f) v
    (donePaths f) (deltaContext f) (newDeltaContext f)
    (localFoldersToDelete f) (hasCancelled f).

Definition set_donePaths (v : list string) (f : Frame) : Frame :=
  mkFrame (syncLock f) (errorToThrow f) (outputContext f)
    (hasAutoEnabledEncryption f) v (deltaContext f) (newDeltaContext f)
    (localFoldersToDelete f) (hasCancelled f).

Definition set_deltaContext (v : option DeltaContext) (f : Frame) : Frame :=
  mkFrame (syncLock f) (errorToThrow f) (outputContext f)
    (hasAutoEnabledEncryption f) (donePaths f) v (newDeltaContext f)
    (localFoldersToDelete f) (hasCancelled f).

Definition set_newDeltaContext (v : option DeltaContext) (f : Frame) : Frame :=
  mkFrame (syncLock f) (errorToThrow f) (outputContext f)
    (hasAutoEnabledEncryption f) (donePaths f) (deltaContext f) v
    (localFoldersToDelete f) (hasCancelled f).

Definition set_localFoldersToDelete (v : list Item) (f : Frame) : Frame :=
  mkFrame (syncLock f) (errorToThrow f) (outputContext f)
    (hasAutoEnabledEncryption f) (donePaths f) (deltaContext f)
    (newDeltaContext f) v (hasCancelled f).

Definition set_hasCancelled (v : bool) (f : Frame) : Frame :=
  mkFrame (syncLock f) (errorToThrow f) (outputContext f)
    (hasAutoEnabledEncryption f) (donePaths f) (deltaContext f)
    (newDeltaContext f) (localFoldersToDelete f) v.

(** ** Small JavaScript helpers *)

(** [haystack.includes(needle)] on strings. *)
Fixpoint includes (needle haystack : string) : bool :=
  String.prefix needle haystack ||
  match haystack with
  | EmptyString => false
  | String _ rest => includes needle rest
  end.

(** [array.indexOf(x) >= 0] and [array.includes(x)] on arrays of strings. *)
Definition has (x : string) (l : list string) : bool :=
  existsb (String.eqb x) l.

(** The double quote character, as a string. *)
Definition dquote : string := String (Ascii.ascii_of_nat 34) EmptyString.

(** Truthiness of a string. *)
Definition truthy (s : string) : bool := negb (String.eqb s "").

(** [array.find(l => l.id === x)]. *)
Definition findById (x : string) (l : list Item) : option Item :=
  List.find (fun i => String.eqb (id i) x) l.

(** [isCannotSyncError(error)], for an error that was thrown: an object
    with a message, so the test of [!error] is not taken. *)
Definition isCannotSyncError (error : JError) : bool :=
  if has (code error) ["rejectedByTarget"; "fileNotFound"] then true
  else if String.eqb (etype error) "request-timeout"
          || includes "network timeout" (message error) then true
  else false.

(** [Synchronizer.verboseMode], a static field that is [true]. *)
Definition verboseMode : bool := true.

(** The conflict variant for an item of the upload loop. *)
Definition getConflictType (conflictedItem : Item) : string :=
  if ModelType_eqb (type_ conflictedItem) TYPE_NOTE then "noteConflict"
  else if ModelType_eqb (type_ conflictedItem) TYPE_RESOURCE then "resourceConflict"
  else "itemConflict".

(** Modelled from the spec: [BaseItem.itemClass], which is not part of the
    sources; it returns the model class of an item and raises
    [unknownItemType] for a type this client does not know. *)
Definition itemClass (t : ModelType) : Res ModelType :=
  match t with
  | TYPE_UNKNOWN => Throw (JoplinError "Unknown type" "unknownItemType")
  | _ => Ok t
  end.

(** [isFullSync(steps)]. *)
Definition isFullSync (steps : list string) : bool :=
  has "update_remote" steps && has "delete_remote" steps && has "delta" steps.

(** [reportHasErrors(report)]. *)
Definition reportHasErrors (report : Report) : bool :=
  match errors report with [] => false | _ => true end.

(** An argument of [_(format, ...args)]. *)
Inductive FormatArg :=
| ArgNumber (n : Z)
| ArgString (s : string).

(** [report[action]] read as a number: a counter that does not exist is
    falsy, like 0. *)
Definition counted (action : string) (report : Report) : Z :=
  match counter action (counters report) with Some n => n | None => 0 end.

(** Truthiness of [report.completedTime]. *)
Definition truthyTime (t : option Z) : bool :=
  match t with Some t => negb (t =? 0) | None => false end.

(** [reportToLines(report)], each line as the format and the arguments that
    are given to [_].  [time.formatMsToLocal] and the [toString] of an error
    object are the caller's; the duration is [Math.round] of the difference
    of the two times over 1000, which is [NaN] without a start time. *)
Definition reportLines (formatMsToLocal : Z -> string)
    (errorToString : JError -> string) (report : Report)
    : list (string * list FormatArg) :=
  let line (action format : string) :=
    if counted action report =? 0 then []
    else [(format, [ArgNumber (counted action report)])] in
  line "createLocal" "Created local items: %d."
  ++ line "updateLocal" "Updated local items: %d."
  ++ line "createRemote" "Created remote items: %d."
  ++ line "updateRemote" "Updated remote items: %d."
  ++ line "deleteLocal" "Deleted local items: %d."
  ++ line "deleteRemote" "Deleted remote items: %d."
  ++ (if negb (counted "fetchingTotal" report =? 0)
         && negb (counted "fetchingProcessed" report =? 0)
      then [("Fetched items: %d/%d.",
             [ArgNumber (counted "fetchingProcessed" report);
              ArgNumber (counted "fetchingTotal" report)])]
      else [])
  ++ (if negb (counted "cancelling" report =? 0)
         && negb (truthyTime (completedTime report))
      then [("Cancelling...", [])]
      else [])
  ++ match completedTime report with
     | Some completed =>
         if completed =? 0 then []
         else [("Completed: %s (%s)",
                [ArgString (formatMsToLocal completed);
                 ArgString (match startTime report with
                            | Some started =>
                                pretty ((completed - started + 500) / 1000)
                            | None => "NaN"
                            end +:+ "s")])]
     | None => []
     end
  ++ (if reportHasErrors report
      then [("Last error: %s",
             [ArgString
                (String.substring 0 500
                   match List.last (errors report) (ReportMessage "") with
                   | ReportError e => errorToString e
                   | ReportMessage m => m
                   end)])]
      else []).

(** [reportToLines(report)], with [translate] for [_]. *)
Definition reportToLines (translate : string -> list FormatArg -> string)
    (formatMsToLocal : Z -> string) (errorToString : JError -> string)
    (report : Report) : list string :=
  map (fun l => translate (fst l) (snd l))
      (reportLines formatMsToLocal errorToString report).

(** ** The monad of a run *)

Section Sync.

Context {Ext : Type}.

(** The synchronizer object, the frame of the running [start], the lock
    whose refresh callback is registered with the lock handler, the external
    state and the trace. *)
Record World := mkWorld {
  self : Synchronizer;
  frame : Frame;
  refresh : option Lock;
  ext : Ext;
  trace : list Event
}.

Definition on_self (f : Synchronizer -> Synchronizer) (w : World) : World :=
  mkWorld (f (self w)) (frame w) (refresh w) (ext w) (trace w).

Definition on_frame (f : Frame -> Frame) (w : World) : World :=
  mkWorld (self w) (f (frame w)) (refresh w) (ext w) (trace w).

Definition set_refresh (v : option Lock) (w : World) : World :=
  mkWorld (self w) (frame w) v (ext w) (trace w).

Definition set_ext (v : Ext) (w : World) : World :=
  mkWorld (self w) (frame w) (refresh w) v (trace w).

Definition record (ev : Event) (w : World) : World :=
  mkWorld (self w) (frame w) (refresh w) (ext w) (trace w ++ [ev]).

(** A computation returns a value or throws, in a new world; [None] is a
    [while (true)] loop that is still running when the fuel is used up. *)
Definition M (A : Type) : Type := World -> option (Res A * World).

Definition ret {A} (a : A) : M A := fun w => Some (Ok a, w).

Definition throw {A} (e : JError) : M A := fun w => Some (Throw e, w).

Definition bind {A B} (m : M A) (k : A -> M B) : M B := fun w =>
  match m w with
  | None => None
  | Some (Ok a, w') => k a w'
  | Some (Throw e, w') => Some (Throw e, w')
  end.

(** [try { m }] with the outcome as a value. *)
Definition attempt {A} (m : M A) : M (Res A) := fun w =>
  match m w with
  | None => None
  | Some (r, w') => Some (Ok r, w')
  end.

Definition of_res {A} (r : Res A) : M A :=
  match r with Ok a => ret a | Throw e => throw e end.

Definition gets {A} (f : World -> A) : M A := fun w => Some (Ok (f w), w).

Definition modify (f : World -> World) : M unit := fun w => Some (Ok tt, f w).

End Sync.

Arguments World : clear implicits.
Arguments M : clear implicits.

Declare Scope sync_scope.
Delimit Scope sync_scope with sync.
Notation "'let*' x ':=' m 'in' k" := (bind m (fun x => k))
  (at level 10, x pattern, m at level 100, k at level 200) : sync_scope.
Notation "m ';;' k" := (bind m (fun _ => k))
  (at level 100, k at level 200, right associativity) : sync_scope.
Notation "'try' m 'catch' e '=>' h" :=
  (bind (attempt m) (fun r => match r with Ok a => ret a | Throw e => h end))
  (at level 10, m at level 100, e name, h at level 200) : sync_scope.
Local Open Scope sync_scope.

(** ** The synchronizer *)

Section Synchronizer.

Context {Ext : Type} (C : Collab Ext).

Local Abbreviation World := (World Ext).
Local Abbreviation M := (M Ext).

(** [logger.info(...)] and friends. *)
Definition logger (level : LogLevel) (line : string) : M unit :=
  modify (record (EvLogger level line)).

(** [this.dispatch(action)]. *)
Definition dispatch (a : Action) : M unit :=
  modify (record (EvDispatch a)).

(** [this.state()], [this.cancelling()]. *)
Definition state (w : World) : string := state_ (self w).
Definition cancelling (w : World) : bool := cancelling_ (self w).

(** [maxResourceSize()]. *)
Definition maxResourceSize (s : Synchronizer) : SizeLimit :=
  match maxResourceSize_ s with
  | Some n => Bytes n
  | None =>
      if String.eqb (appType_ s) "mobile" then Bytes (100 * 1000 * 1000)
      else Infinity
  end.

(** The line [logSyncOperation] writes to the log. *)
Definition syncOperationLine (action : string) (local : option Item)
    (remote : option RemoteItem) (message : string) : string :=
  let type := match local with
              | Some l => Some (type_ l)
              | None => match remote with Some r => rtype_ r | None => None end
              end in
  String.concat ": "
    (["Sync"; action]
     ++ (if truthy message then [message] else [])
     ++ match type with Some t => [modelTypeToClassName C t] | None => [] end
     ++ match local with
        | Some l => ["(Local " +:+ id l +:+ ")"]
        | None => []
        end
     ++ match remote with
        | Some r => ["(Remote " +:+ (if truthy (rid r) then rid r else path r) +:+ ")"]
        | None => []
        end).

(** [logSyncOperation]: the log line, the counter of the action, the
    [onProgress_] callback and the dispatch of a copy of the report.  It has
    no [await], so it is a function on worlds.  [action] is one of the
    action names that the synchronizer passes, none of which is a property
    that the report has of its own ([state], [startTime], [completedTime],
    [errors]): the counters are kept apart from these.  The callback is the
    caller's; it is recorded as an event and taken to return. *)
Definition logSyncOperation (action : string) (local : option Item)
    (remote : option RemoteItem) (message : string) (actionCount : Z)
    (w : World) : World :=
  let w1 := record (EvLogger (if verboseMode then LInfo else LDebug)
                      (syncOperationLine action local remote message)) w in
  let r := progressReport_ (self w1) in
  let n := match counter action (counters r) with Some n => n | None => 0 end in
  let r' := mkReport (set_counter action (n + actionCount) (counters r))
                     (Some (state w1)) (startTime r) (completedTime r)
                     (errors r) in
  let w2 := on_self (set_progressReport_ r') w1 in
  let w3 := if onProgress_ (self w2) then record (EvOnProgress r') w2 else w2 in
  record (EvDispatch (SYNC_REPORT_UPDATE r')) w3.

(** A synchronous collaborator call: it runs on the external state and is
    recorded with whether it returned. *)
Definition callSync {A} (c : Call) (f : Ext -> Res A * Ext) : M A := fun w =>
  let '(r, e) := f (ext w) in
  Some (r, record (EvCall c (isOk r)) (set_ext e w)).

(** The part of [cancel()] that runs before its promise is returned. *)
Definition cancel (w : World) : World :=
  if cancelling w || String.eqb (state w) "idle" then w
  else
    let w1 := if downloadQueue_ (self w)
              then let '(r, e) := queue_stop C (ext w) in
                   record (EvCall c_queue_stop (isOk r)) (set_ext e w)
              else w in
    let w2 := logSyncOperation "cancelling" None None "" 1 w1 in
    on_self (set_cancelling_ true) w2.

(** The callback [start] gives to [startAutoLockRefresh]; the lock handler
    runs it only while the refresh of a lock is registered. *)
Definition onLockRefreshError (error : JError) (w : World) : World :=
  let w1 := record (EvLogger LWarn
              ("Could not refresh lock - cancelling sync. Error was: "
               +:+ message error)) w in
  cancel (on_self (set_syncTargetIsLocked_ true) w1).

Definition interrupt (w : World) (i : Interrupt) : World :=
  match i with
  | UserCancel => cancel w
  | LockRefreshFailed e =>
      match refresh w with
      | Some _ => onLockRefreshError e w
      | None => w
      end
  end.

(** What happens to the synchronizer while an [await] has it suspended. *)
Definition resume (w : World) : World :=
  let '(arrived, e) := pending C (ext w) in
  fold_left interrupt arrived (set_ext e w).

(** [await f(...)]: the call, then the interrupts that arrived meanwhile. *)
Definition call {A} (c : Call) (f : Ext -> Res A * Ext) : M A := fun w =>
  let '(r, e) := f (ext w) in
  Some (r, resume (record (EvCall c (isOk r)) (set_ext e w))).

(** [lockErrorStatus_()]. *)
Definition lockErrorStatus_ : M string :=
  let* hasActiveExclusiveLock :=
    call (c_hasActiveLock LockExclusive None) (hasActiveLock C LockExclusive None) in
  if hasActiveExclusiveLock : bool then ret "hasExclusiveLock"
  else
    let* who := gets (fun w => (appType_ (self w), clientId_ (self w))) in
    let* hasActiveSyncLock :=
      call (c_hasActiveLock LockSync (Some who)) (hasActiveLock C LockSync (Some who)) in
    if hasActiveSyncLock : bool then ret "" else ret "syncLockGone".

(** [apiCall(fnName, ...args)]: [c] and [f] are the method of the file API
    that [fnName] selects, applied to the arguments. *)
Definition apiCall {A} (c : Call) (f : Ext -> Res A * Ext) : M A :=
  let* locked := gets (fun w => syncTargetIsLocked_ (self w)) in
  if locked : bool
  then throw (JoplinError "Sync target is locked - aborting API call" "lockError")
  else
    try call c f catch error =>
      let* lockStatus := lockErrorStatus_ in
      if truthy lockStatus
      then throw (JoplinError ("Sync target lock error: " +:+ lockStatus
                               +:+ ". Original error was: " +:+ message error)
                              "lockError")
      else throw error.

(** [handleCannotSyncItem], the closure of [start]. *)
Definition handleCannotSyncItem (ItemClass : ModelType) (target : Z)
    (item : Item) (cannotSyncReason : string) (remoteLocation : bool) : M unit :=
  call (c_saveSyncDisabled ItemClass target item cannotSyncReason remoteLocation)
       (saveSyncDisabled C ItemClass target item cannotSyncReason remoteLocation);;
  dispatch SYNC_HAS_DISABLED_SYNC_ITEMS.

(** [resourceRemotePath], the closure of [start]. *)
Definition resourceRemotePath (resourceId : string) : string :=
  Dirnames_Resources C +:+ "/" +:+ resourceId.

(** [this.progressReport_.errors.push(e)]. *)
Definition pushError (e : ReportEntry) : M unit :=
  modify (on_self (fun s =>
    let r := progressReport_ s in
    set_progressReport_
      (mkReport (counters r) (rstate r) (startTime r) (completedTime r)
                (errors r ++ [e])) s)).

(** [time.unixMs()]. *)
Definition now : M Z := gets (fun w => unixMs C (ext w)).

(** [ItemClass.save(item, { autoTimestamp: false, changeSource: SOURCE_SYNC,
    nextQueries: updateSyncTimeQueries(syncTargetId, item, time) ... })]. *)
Definition saveFromSync (ItemClass : ModelType) (item : Item) (isNew : bool)
    (oldItem : option Item) (time : Z) : M unit :=
  call (c_save ItemClass item isNew oldItem time)
       (ItemClass_save C ItemClass item isNew oldItem time).

(** *** 1. UPLOAD *)

(** [completeItemProcessing], the closure of the upload step. *)
Definition completeItemProcessing (path : string) : M unit :=
  modify (on_frame (fun f => set_donePaths (donePaths f ++ [path]) f)).

Definition is_ (action : option string) (name : string) : bool :=
  match action with
  | Some a => String.eqb a name
  | None => false
  end.

(** The choice of the action for a local item, from [if (!remote)] to the
    end of its [else].  [None] is the [continue] taken when the target
    rejects the download; otherwise the action, the reason and
    [remoteContent]. *)
Definition decideUploadAction (local : Item) (path : string)
    (remote : option RemoteItem) : M (option (string * string * option Item)) :=
  match remote with
  | None =>
      if sync_time local =? 0
      then ret (Some ("createRemote",
                      "remote does not exist, and local is new and has never been synced",
                      None))
      else ret (Some (getConflictType local,
                      "remote has been deleted, but local has changes", None))
  | Some _ =>
      let* fetched := attempt (apiCall (c_api_get path) (api_get C path)) in
      match fetched with
      | Throw error =>
          if String.eqb (code error) "rejectedByTarget"
          then
            pushError (ReportError error);;
            logger LWarn ("Rejected by target: " +:+ path +:+ ": " +:+ message error);;
            completeItemProcessing path;;
            ret None
          else throw error
      | Ok fetchedContent =>
          match fetchedContent with
          | None | Some "" =>
              throw (Error ("Got metadata for path but could not fetch content: "
                            +:+ path))
          | Some serialized =>
              let* remoteContent :=
                call (c_unserialize serialized) (unserialize C serialized) in
              if updated_time remoteContent >? sync_time local
              then ret (Some (getConflictType local,
                              "both remote and local have changes",
                              Some remoteContent))
              else ret (Some ("updateRemote", "local has changes",
                              Some remoteContent))
          end
      end
  end.

(** The block guarded by [local.type_ == TYPE_RESOURCE && (action ==
    'createRemote' || action === 'updateRemote')]: it returns the action
    (possibly cleared) and [local] (possibly replaced by the resource that
    [fullPathForSyncUpload] returns). *)
Definition uploadResourceBlob (ItemClass : ModelType) (path : string)
    (local : Item) (action : string) : M (option string * Item) :=
  let target := syncTargetId C in
  let* localState :=
    call (c_Resource_localState (id local)) (Resource_localState C (id local)) in
  if negb (FetchStatus_eqb localState FETCH_STATUS_DONE)
  then
    logger LInfo ("Need to upload a resource, but blob is not present: " +:+ path);;
    handleCannotSyncItem ItemClass target local
      "Trying to upload resource, but only metadata is present." false;;
    ret (None, local)
  else
    let onError (local : Item) (error : JError) : M (option string * Item) :=
      if isCannotSyncError error
      then handleCannotSyncItem ItemClass target local (message error) false;;
           ret (None, local)
      else throw error in
    let remoteContentPath := resourceRemotePath (id local) in
    let* located :=
      attempt (call (c_fullPathForSyncUpload local) (fullPathForSyncUpload C local)) in
    match located with
    | Throw error => onError local error
    | Ok result =>
        let resource := up_resource result in
        let local := resource in
        let localResourceContentPath := up_path result in
        (if 10 * 1000 * 1000 <=? size resource
         then logger LWarn ("Uploading a large resource (resourceId: " +:+ id local
                            +:+ ", size:" +:+ pretty (size resource)
                            +:+ " bytes) which may tie up the sync process.")
         else ret tt);;
        let* sent :=
          attempt (apiCall (c_api_put remoteContentPath localResourceContentPath
                                        (share_id resource))
                             (api_put C remoteContentPath localResourceContentPath
                                      (share_id resource))) in
        match sent with
        | Throw error => onError local error
        | Ok _ => ret (Some action, local)
        end
    end.

(** The [try] block of the metadata upload, with its testing hook. *)
Definition tryUploadItem (ItemClass : ModelType) (path : string)
    (local : Item) : M unit :=
  let* hooks := gets (fun w => testingHooks_ (self w)) in
  if has "notesRejectedByTarget" hooks && ModelType_eqb (type_ local) TYPE_NOTE
  then throw (JoplinError "Testing rejectedByTarget" "rejectedByTarget")
  else call (c_serializeAndUploadItem ItemClass path local)
            (serializeAndUploadItem C ItemClass path local).

(** The block guarded by [action == 'createRemote' || action ==
    'updateRemote']: the metadata upload and the sync time. *)
Definition uploadItemMetadata (ItemClass : ModelType) (path : string)
    (local : Item) : M unit :=
  let target := syncTargetId C in
  let* uploaded := attempt (tryUploadItem ItemClass path local) in
  let* canSync :=
    match uploaded with
    | Ok _ => ret true
    | Throw error =>
        if String.eqb (code error) "rejectedByTarget"
        then handleCannotSyncItem ItemClass target local (message error) false;;
             ret false
        else throw error
    end in
  if canSync : bool
  then call (c_saveSyncTime ItemClass target local (updated_time local))
            (saveSyncTime C ItemClass target local (updated_time local))
  else ret tt.

(** Reading a property of [null] raises a [TypeError]. *)
Definition TypeError (what : string) : JError :=
  Error ("TypeError: Cannot read properties of null (reading '" +:+ what +:+ "')").

(** [local = remoteContent; ... await ItemClass.save(local, ...)], or the
    deletion of the local item when the remote one is gone; [gotEncrypted]
    is set where the code also dispatches [SYNC_GOT_ENCRYPTED_ITEM]. *)
Definition takeRemoteVersion (ItemClass : ModelType) (local : Item)
    (remote : option RemoteItem) (remoteContent : option Item)
    (gotEncrypted : bool) : M unit :=
  match remote with
  | Some _ =>
      match remoteContent with
      | None => throw (TypeError "id")
      | Some local =>
          let* time := now in
          saveFromSync ItemClass local false None time;;
          if gotEncrypted && encryption_applied local
          then dispatch SYNC_GOT_ENCRYPTED_ITEM
          else ret tt
      end
  | None =>
      call (c_delete ItemClass (id local) true) (ItemClass_delete C ItemClass (id local) true)
  end.

(** What an iteration does with the action it chose, from the test of
    [local.type_ == BaseModel.TYPE_RESOURCE] to [completeItemProcessing]. *)
Definition applyUploadAction (ItemClass : ModelType) (path : string)
    (local : Item) (remote : option RemoteItem) (remoteContent : option Item)
    (action : string) : M unit :=
  let* (action, local) :=
    if ModelType_eqb (type_ local) TYPE_RESOURCE
       && (String.eqb action "createRemote" || String.eqb action "updateRemote")
    then uploadResourceBlob ItemClass path local action
    else ret (Some action, local) in
  (if is_ action "createRemote" || is_ action "updateRemote"
   then uploadItemMetadata ItemClass path local
   else if is_ action "itemConflict"
   then takeRemoteVersion ItemClass local remote remoteContent false
   else if is_ action "noteConflict"
   then
     let mustHandle :=
       match remoteContent with
       | Some rc => mustHandleConflict C local rc
       | None => true
       end in
     if mustHandle
     then call (c_createConflictNote local) (createConflictNote C local)
     else ret tt
   else if is_ action "resourceConflict"
   then
     call (c_createConflictResourceNote local) (createConflictResourceNote C local);;
     match remote with
     | Some _ => call (c_setLocalState (id local) FETCH_STATUS_IDLE)
                      (setLocalState C (id local) FETCH_STATUS_IDLE)
     | None => ret tt
     end
   else ret tt);;
  (if is_ action "noteConflict" || is_ action "resourceConflict"
   then takeRemoteVersion ItemClass local remote remoteContent true
   else ret tt);;
  completeItemProcessing path.

(** One iteration of [for (let i = 0; i < locals.length; i++)], after the
    test of [cancelling()]. *)
Definition uploadItem (result : NeedSync) (local : Item) : M unit :=
  let* ItemClass := of_res (itemClass (type_ local)) in
  let path := systemPath C (id local) in
  let* done := gets (fun w => donePaths (frame w)) in
  if has path done
  then throw (JoplinError
                ("Processing a path that has already been done: " +:+ path
                 +:+ ". sync_time was not updated? Remote item has an updated_time in the future?")
                "processingPathTwice")
  else
    let* remote :=
      if has (id local) (neverSyncedItemIds result) then ret None
      else apiCall (c_api_stat path) (api_stat C path) in
    let* decision := decideUploadAction local path remote in
    match decision with
    | None => ret tt
    | Some (action, reason, remoteContent) =>
        modify (logSyncOperation action (Some local) remote reason 1);;
        applyUploadAction ItemClass path local remote remoteContent action
    end.

(** The [for] loop over [locals]. *)
Fixpoint uploadItems (result : NeedSync) (locals : list Item) : M unit :=
  match locals with
  | [] => ret tt
  | local :: rest =>
      let* stop := gets cancelling in
      if stop : bool then ret tt
      else uploadItem result local;; uploadItems result rest
  end.

(** The [while (true)] loop of the upload step. *)
Fixpoint uploadLoop (fuel : nat) : M unit :=
  match fuel with
  | O => fun _ => None
  | S fuel =>
      let* stop := gets cancelling in
      if stop : bool then ret tt
      else
        let* result :=
          call (c_itemsThatNeedSync (syncTargetId C)) (itemsThatNeedSync C (syncTargetId C)) in
        let locals := ns_items result in
        let neverSynced :=
          List.filter (fun it => has (id it) (neverSyncedItemIds result)) (ns_items result) in
        call (c_preUploadItems neverSynced) (preUploadItems C neverSynced);;
        uploadItems result locals;;
        if negb (ns_hasMore result) then ret tt else uploadLoop fuel
  end.

(** The body of [if (syncSteps.indexOf('update_remote') >= 0)]. *)
Definition uploadStep (fuel : nat) : M unit :=
  modify (on_frame (set_donePaths []));;
  uploadLoop fuel.

(** *** 2. DELETE_REMOTE *)

(** The [for] loop over [deletedItems]. *)
Fixpoint deleteRemoteItems (items : list DeletedItem) : M unit :=
  match items with
  | [] => ret tt
  | item :: rest =>
      let* stop := gets cancelling in
      if stop : bool then ret tt
      else
        let path := systemPath C (item_id item) in
        modify (logSyncOperation "deleteRemote" None
                  (Some (mkRemoteItem (item_id item) "" None false 0 None))
                  "local has been deleted" 1);;
        apiCall (c_api_delete path) (api_delete C path);;
        (if ModelType_eqb (item_type item) TYPE_RESOURCE
         then
           let remoteContentPath := resourceRemotePath (item_id item) in
           apiCall (c_api_delete remoteContentPath) (api_delete C remoteContentPath)
         else ret tt);;
        call (c_remoteDeletedItem (syncTargetId C) (item_id item))
             (remoteDeletedItem C (syncTargetId C) (item_id item));;
        deleteRemoteItems rest
  end.

(** The body of [if (syncSteps.indexOf('delete_remote') >= 0)]. *)
Definition deleteRemoteStep : M unit :=
  let* deleted :=
    call (c_deletedItems (syncTargetId C)) (deletedItems C (syncTargetId C)) in
  deleteRemoteItems deleted.

(** *** 3. DELTA *)

(** The first [for] loop over a page: what to download is queued. *)
Fixpoint enqueueDownloads (locals : list Item) (remotes : list RemoteItem) : M unit :=
  match remotes with
  | [] => ret tt
  | remote :: rest =>
      let* stop := gets cancelling in
      if stop : bool then ret tt
      else
        let needsToDownload :=
          if supportsAccurateTimestamp C
          then match findById (pathToId C (path remote)) locals with
               | Some local =>
                   match jop_updated_time remote with
                   | Some t => negb (updated_time local =? t)
                   | None => true
                   end
               | None => true
               end
          else true in
        (if needsToDownload
         then callSync (c_queue_push (path remote)) (queue_push C (path remote))
         else ret tt);;
        enqueueDownloads locals rest
  end.

(** [loadContent], the closure of the second loop. *)
Definition loadContent (path : string) : M (option Item) :=
  let* task := call (c_queue_waitForResult path) (queue_waitForResult C path) in
  match task_error task with
  | Some error => throw error
  | None =>
      match task_result task with
      | None | Some "" => ret None
      | Some serialized =>
          let* item := call (c_unserialize serialized) (unserialize C serialized) in
          ret (Some item)
      end
  end.

(** What the [try] block of the second loop leaves in [action], [reason],
    [local], [ItemClass] and [content]. *)
Record DeltaDecision := mkDeltaDecision {
  dd_action : option string;
  dd_reason : string;
  dd_local : option Item;
  dd_ItemClass : option ModelType;
  dd_content : option Item
}.

(** The [try] block of the second loop. *)
Definition decideDeltaAction (remote : RemoteItem) (local : option Item)
    : M DeltaDecision :=
  match local with
  | None =>
      if negb (isDeleted remote)
      then
        let* content := loadContent (path remote) in
        let* ItemClass :=
          match content with
          | Some c => let* cls := of_res (itemClass (type_ c)) in ret (Some cls)
          | None => ret None
          end in
        ret (mkDeltaDecision (Some "createLocal") "remote exists but local does not"
                             None ItemClass content)
      else ret (mkDeltaDecision None "" None None None)
  | Some local =>
      let* ItemClass := of_res (itemClass (type_ local)) in
      let local := ItemClass_filter C ItemClass local in
      if isDeleted remote
      then ret (mkDeltaDecision (Some "deleteLocal") "remote has been deleted"
                                (Some local) (Some ItemClass) None)
      else if supportsAccurateTimestamp C
              && match jop_updated_time remote with
                 | Some t => t =? updated_time local
                 | None => false
                 end
      then ret (mkDeltaDecision None "" (Some local) (Some ItemClass) None)
      else
        let* content := loadContent (path remote) in
        match content with
        | Some c =>
            if updated_time c >? updated_time local
            then ret (mkDeltaDecision (Some "updateLocal")
                        "remote is more recent than local"
                        (Some local) (Some ItemClass) content)
            else ret (mkDeltaDecision None "" (Some local) (Some ItemClass) content)
        | None => ret (mkDeltaDecision None "" (Some local) (Some ItemClass) None)
        end
  end.

Definition sizeLimitToString (l : SizeLimit) : string :=
  match l with
  | Bytes n => pretty n
  | Infinity => "Infinity"
  end.

(** [if (!content.user_updated_time) ...] and [if (!content.user_created_time)
    ...]: the two user times default to the item's times. *)
Definition withUserTimes (content : Item) : Item :=
  let content := if user_updated_time content =? 0
                 then set_user_updated_time (updated_time content) content
                 else content in
  if user_created_time content =? 0
  then set_user_created_time (created_time content) content
  else content.

(** The reason given for a resource that is over the size limit. *)
Definition oversizeReason (content : Item) (limit : SizeLimit) : string :=
  "File " +:+ dquote +:+ title content +:+ dquote +:+ " is larger than allowed "
  +:+ sizeLimitToString limit
  +:+ " bytes. Beyond this limit, the mobile app would crash.".

(** The block guarded by [action == 'createLocal' || action ==
    'updateLocal'], after the test of [content === null]. *)
Definition saveRemoteContent (masterKeysBefore : Z) (action : string)
    (ItemClass : ModelType) (local : option Item) (content : Item) : M unit :=
  let content := withUserTimes (ItemClass_filter C ItemClass content) in
  let* time := now in
  let isNew := String.eqb action "createLocal" in
  let oldItem := if String.eqb action "updateLocal" then local else None in
  let creatingOrUpdatingResource :=
    ModelType_eqb (type_ content) TYPE_RESOURCE
    && (String.eqb action "createLocal" || String.eqb action "updateLocal") in
  let* limit := gets (fun w => maxResourceSize (self w)) in
  if creatingOrUpdatingResource && size_ge (size content) limit
  then
    handleCannotSyncItem ItemClass (syncTargetId C) content
      (oversizeReason content limit) true
  else
    (if creatingOrUpdatingResource
     then call (c_ResourceLocalState_save (id content) FETCH_STATUS_IDLE)
               (ResourceLocalState_save C (id content) FETCH_STATUS_IDLE)
     else ret tt);;
    saveFromSync ItemClass content isNew oldItem time;;
    (if creatingOrUpdatingResource
     then dispatch (SYNC_CREATED_OR_UPDATED_RESOURCE (id content))
     else ret tt);;
    let* enabled := gets (fun w => hasAutoEnabledEncryption (frame w)) in
    (if negb enabled && ModelType_eqb (type_ content) TYPE_MASTER_KEY
        && (masterKeysBefore =? 0)
     then
       modify (on_frame (set_hasAutoEnabledEncryption true));;
       logger LInfo "One master key was downloaded and none was previously available: automatically enabling encryption";;
       logger LInfo ("Using master key:  " +:+ id content);;
       let* service := gets (fun w => encryptionService_ (self w)) in
       (if service : bool
        then call (c_enableEncryption content) (enableEncryption C content);;
             call c_loadMasterKeysFromSettings (loadMasterKeysFromSettings C)
        else throw (TypeError "enableEncryption"));;
       logger LInfo "Encryption has been enabled with downloaded master key as active key. However, note that no password was initially supplied. It will need to be provided by user."
     else ret tt);;
    if encryption_applied content
    then dispatch SYNC_GOT_ENCRYPTED_ITEM
    else ret tt.

(** One iteration of the second [for] loop, after the test of
    [cancelling()] and of the [cancelDeltaLoop2] hook. *)
Definition processRemote (masterKeysBefore : Z) (locals : list Item)
    (remote : RemoteItem) : M unit :=
  modify (logSyncOperation "fetchingProcessed" None None "Processing fetched item" 1);;
  if negb (isSystemPath C (path remote)) then ret tt
  else
    let path := path remote in
    let remoteId := pathToId C path in
    let local := findById remoteId locals in
    let* decided := attempt (decideDeltaAction remote local) in
    match decided with
    | Throw error =>
        if String.eqb (code error) "rejectedByTarget"
        then
          pushError (ReportError error);;
          logger LWarn ("Rejected by target: " +:+ path +:+ ": " +:+ message error)
        else
          throw (mkError (code error)
                         ("On file " +:+ path +:+ ": " +:+ message error)
                         (etype error) (details error))
    | Ok d =>
        let* hooks := gets (fun w => testingHooks_ (self w)) in
        let action :=
          if has "skipRevisions" hooks
             && match dd_content d with
                | Some c => ModelType_eqb (type_ c) TYPE_REVISION
                | None => false
                end
          then None else dd_action d in
        match action with
        | None => ret tt
        | Some action =>
            modify (logSyncOperation action (dd_local d) (Some remote) (dd_reason d) 1);;
            if String.eqb action "createLocal" || String.eqb action "updateLocal"
            then
              match dd_content d with
              | None =>
                  logger LWarn ("Remote has been deleted between now and the delta() call? In that case it will be handled during the next sync: " +:+ path)
              | Some content =>
                  match dd_ItemClass d with
                  | None => throw (TypeError "filter")
                  | Some ItemClass =>
                      saveRemoteContent masterKeysBefore action ItemClass (dd_local d) content
                  end
              end
            else if String.eqb action "deleteLocal"
            then
              match dd_local d with
              | None => throw (TypeError "type_")
              | Some local =>
                  if ModelType_eqb (type_ local) TYPE_FOLDER
                  then modify (on_frame (fun f =>
                         set_localFoldersToDelete (localFoldersToDelete f ++ [local]) f))
                  else
                    let* ItemClass := of_res (itemClass (type_ local)) in
                    call (c_delete ItemClass (id local) false)
                         (ItemClass_delete C ItemClass (id local) false)
              end
            else ret tt
        end
    end.

(** The second [for] loop over a page. *)
Fixpoint processRemotes (masterKeysBefore : Z) (locals : list Item)
    (remotes : list RemoteItem) : M unit :=
  match remotes with
  | [] => ret tt
  | remote :: rest =>
      let* stop := gets (fun w => cancelling w
                                  || has "cancelDeltaLoop2" (testingHooks_ (self w))) in
      if stop : bool
      then modify (on_frame (set_hasCancelled true))
      else processRemote masterKeysBefore locals remote;;
           processRemotes masterKeysBefore locals rest
  end.

(** [Object.assign({}, context)] without [statsCache] and [statIdsCache]. *)
Definition withoutCaches (d : DeltaContext) : DeltaContext :=
  mkDeltaContext (token d) None None.

(** What follows the two loops in an iteration of [while (true)]: [true]
    when the iteration ends in [break]. *)
Definition recordPage (options : Options) (listResult : ListResult) : M bool :=
  let* cancelled := gets (fun w => hasCancelled (frame w)) in
  if cancelled : bool then ret false
  else
    (if saveContextHandler options
     then modify (record (EvSaveContext (withoutCaches (lr_context listResult))))
     else ret tt);;
    if negb (lr_hasMore listResult)
    then modify (on_frame (set_newDeltaContext (Some (lr_context listResult))));;
         ret true
    else modify (on_frame (set_deltaContext (Some (lr_context listResult))));;
         ret false.

(** A page of the delta, from the result of [delta()] on. *)
Definition processPage (options : Options) (masterKeysBefore : Z)
    (listResult : ListResult) : M bool :=
  let remotes := lr_items listResult in
  modify (logSyncOperation "fetchingTotal" None None
            "Fetching delta items from sync target" (Z.of_nat (length remotes)));;
  let remoteIds := map (fun r => pathToId C (path r)) remotes in
  let* locals := call (c_loadItemsByIds remoteIds) (loadItemsByIds C remoteIds) in
  enqueueDownloads locals remotes;;
  processRemotes masterKeysBefore locals remotes;;
  recordPage options listResult.

(** The [while (true)] loop of the delta step. *)
Fixpoint deltaLoop (options : Options) (masterKeysBefore : Z) (fuel : nat) : M unit :=
  match fuel with
  | O => fun _ => None
  | S fuel =>
      let* stop := gets (fun w => cancelling w || hasCancelled (frame w)) in
      if stop : bool then ret tt
      else
        let* context := gets (fun w => deltaContext (frame w)) in
        let* wipeOutFailSafe := gets (fun w => Setting_wipeOutFailSafe C (ext w)) in
        let* listResult :=
          apiCall (c_api_delta context wipeOutFailSafe)
                  (api_delta C context wipeOutFailSafe) in
        let* stop := processPage options masterKeysBefore listResult in
        if stop : bool then ret tt else deltaLoop options masterKeysBefore fuel
  end.

(** The [for] loop over [localFoldersToDelete]. *)
Fixpoint deleteLocalFolders (folders : list Item) : M unit :=
  match folders with
  | [] => ret tt
  | item :: rest =>
      let* noteIds := call (c_Folder_noteIds (id item)) (Folder_noteIds C (id item)) in
      (match noteIds with
       | [] => ret tt
       | _ => call (c_markNotesAsConflict (id item)) (markNotesAsConflict C (id item))
       end);;
      call (c_Folder_delete (id item)) (Folder_delete C (id item));;
      deleteLocalFolders rest
  end.

(** The body of [if (syncSteps.indexOf('delta') >= 0)]. *)
Definition deltaStep (options : Options) (lastContext : SyncContext)
    (masterKeysBefore : Z) (fuel : nat) : M unit :=
  modify (on_frame (fun f =>
    set_hasCancelled false
      (set_localFoldersToDelete []
         (set_newDeltaContext None (set_deltaContext (delta lastContext) f)))));;
  deltaLoop options masterKeysBefore fuel;;
  modify (on_frame (fun f =>
    set_outputContext
      (mkSyncContext
         (match newDeltaContext f with
          | Some d => Some d
          | None => delta lastContext
          end)
         (other (outputContext f))) f));;
  let* stop := gets cancelling in
  (if stop : bool then ret tt
   else let* folders := gets (fun w => localFoldersToDelete (frame w)) in
        deleteLocalFolders folders);;
  let* stop := gets cancelling in
  if stop : bool then ret tt
  else call c_deleteOrphanSyncItems (deleteOrphanSyncItems C).

(** *** The body of the [try] block *)

(** From [api().initialize()] to the end of the inner [try]: the target is
    initialised, checked and, when new, set up. *)
Definition prepareTarget : M unit :=
  call c_api_initialize (api_initialize C);;
  callSync (c_api_setTempDirName (Dirnames_Temp C))
           (api_setTempDirName C (Dirnames_Temp C));;
  try
    (let* syncTargetInfo := call c_checkCanSync (checkCanSync C) in
     logger LInfo ("Sync target info: " +:+ pretty (version syncTargetInfo));;
     if version syncTargetInfo =? 0
     then
       logger LInfo "Sync target is new - setting it up...";;
       let* syncVersion := gets (fun w => Setting_syncVersion C (ext w)) in
       call (c_upgrade syncVersion) (upgrade C syncVersion)
     else ret tt)
  catch error =>
    (if String.eqb (code error) "outdatedSyncTarget"
     then callSync (c_Setting_setValue "sync.upgradeState" (SYNC_UPGRADE_STATE_SHOULD_DO C))
                   (Setting_setValue C "sync.upgradeState" (SYNC_UPGRADE_STATE_SHOULD_DO C))
     else ret tt);;
    throw error.

(** The three steps, from the comment [1. UPLOAD] to the end of the [try]
    block. *)
Definition runSteps (options : Options) (lastContext : SyncContext)
    (syncSteps : list string) (masterKeysBefore : Z) (fuel : nat) : M unit :=
  (if has "update_remote" syncSteps then uploadStep fuel else ret tt);;
  (if has "delete_remote" syncSteps then deleteRemoteStep else ret tt);;
  let* queue := gets (fun w => downloadQueue_ (self w)) in
  (if queue : bool then call c_queue_stop (queue_stop C) else ret tt);;
  callSync c_queue_new (queue_new C);;
  modify (on_self (set_downloadQueue_ true));;
  if has "delta" syncSteps
  then deltaStep options lastContext masterKeysBefore fuel
  else ret tt.

Definition syncBody (options : Options) (lastContext : SyncContext)
    (syncSteps : list string) (masterKeysBefore : Z) (fuel : nat) : M unit :=
  prepareTarget;;
  let* appType := gets (fun w => appType_ (self w)) in
  let* clientId := gets (fun w => clientId_ (self w)) in
  let* lock := call (c_acquireLock LockSync appType clientId)
                    (acquireLock C LockSync appType clientId) in
  modify (on_frame (set_syncLock (Some lock)));;
  callSync (c_startAutoLockRefresh lock) (startAutoLockRefresh C lock);;
  modify (set_refresh (Some lock));;
  runSteps options lastContext syncSteps masterKeysBefore fuel.

(** A [for] loop that writes one logger line per element. *)
Definition logLines (level : LogLevel) (lines : list string) : M unit :=
  modify (fun w => fold_left (fun w line => record (EvLogger level line) w) lines w).

(** [logLastRequests()]; a request is its time, already formatted, its
    request line and its response line. *)
Definition logLastRequests : M unit :=
  let* lastRequests := gets (fun w => api_lastRequests C (ext w)) in
  logLines LInfo
    (flat_map (fun r => let '(timestamp, request, response) := r in
                        ["Req " +:+ timestamp +:+ ": " +:+ request;
                         "Res " +:+ timestamp +:+ ": " +:+ response])
              lastRequests).

(** The [catch] block of [start]. *)
Definition onSyncError (throwOnError : bool) (error : JError) : M unit :=
  if throwOnError
  then modify (on_frame (set_errorToThrow (Some error)))
  else if has (code error)
              ["cannotEncryptEncrypted"; "noActiveMasterKey"; "processingPathTwice";
               "failSafe"; "lockError"; "outdatedSyncTarget"]
  then
    logger LInfo (message error);;
    if String.eqb (code error) "failSafe" || String.eqb (code error) "lockError"
    then
      (if negb (isTestingEnv C) then pushError (ReportMessage (message error))
       else ret tt);;
      logLastRequests
    else ret tt
  else if String.eqb (code error) "unknownItemType"
  then
    pushError (ReportMessage
      "Unknown item type downloaded - please upgrade Joplin to the latest version");;
    logger LError (message error)
  else
    logger LError (message error);;
    (match details error with
     | Some d => logger LError ("Details: " +:+ d)
     | None => ret tt
     end);;
    if negb (fetchRequestCanBeRetried C error)
    then pushError (ReportError error);; logLastRequests
    else ret tt.

Definition entryToString (e : ReportEntry) : string :=
  match e with
  | ReportError e => message e
  | ReportMessage m => m
  end.

(** [logSyncSummary(report)]. *)
Definition logSyncSummary (report : Report) : M unit :=
  logger LInfo "Operations completed: ";;
  logLines LInfo
    (flat_map (fun kv => let '(n, v) := kv in
                         if String.eqb n "starting" || String.eqb n "finished" then []
                         else [n +:+ ": " +:+ (if v =? 0 then "-" else pretty v)])
              (counters report));;
  let* folderCount := call (c_count TYPE_FOLDER) (ItemClass_count C TYPE_FOLDER) in
  let* noteCount := call (c_count TYPE_NOTE) (ItemClass_count C TYPE_NOTE) in
  let* resourceCount := call (c_count TYPE_RESOURCE) (ItemClass_count C TYPE_RESOURCE) in
  logger LInfo ("Total folders: " +:+ pretty folderCount);;
  logger LInfo ("Total notes: " +:+ pretty noteCount);;
  logger LInfo ("Total resources: " +:+ pretty resourceCount);;
  if reportHasErrors report
  then
    logger LWarn "There was some errors:";;
    logLines LWarn (map entryToString (errors report))
  else ret tt.

(** The block [if (syncLock) { ... }] after the [catch] block. *)
Definition releaseSyncLock : M unit :=
  let* syncLock := gets (fun w => syncLock (frame w)) in
  match syncLock with
  | Some lock =>
      callSync (c_stopAutoLockRefresh lock) (stopAutoLockRefresh C lock);;
      modify (set_refresh None);;
      let* appType := gets (fun w => appType_ (self w)) in
      let* clientId := gets (fun w => clientId_ (self w)) in
      call (c_releaseLock LockSync appType clientId)
           (releaseLock C LockSync appType clientId)
  | None => ret tt
  end.

(** From [this.syncTargetIsLocked_ = false] to [this.progressReport_ = {}]. *)
Definition closeReport (synchronizationId : string) : M unit :=
  modify (on_self (set_syncTargetIsLocked_ false));;
  let* stop := gets cancelling in
  (if stop : bool
   then logger LInfo "Synchronisation was cancelled.";;
        modify (on_self (set_cancelling_ false))
   else ret tt);;
  let* share := gets (fun w => shareService_ (self w)) in
  (if share : bool
   then try call c_shareService_maintenance (shareService_maintenance C)
        catch error =>
          logger LError ("Could not run share service maintenance: " +:+ message error)
   else ret tt);;
  let* time := now in
  modify (on_self (fun s =>
    let r := progressReport_ s in
    set_progressReport_
      (mkReport (counters r) (rstate r) (startTime r) (Some time) (errors r)) s));;
  modify (logSyncOperation "finished" None None
            ("Synchronisation finished [" +:+ synchronizationId +:+ "]") 1);;
  let* report := gets (fun w => progressReport_ (self w)) in
  logSyncSummary report;;
  let* report := gets (fun w => progressReport_ (self w)) in
  modify (record (EvEmit "syncComplete" (Some (reportHasErrors report))));;
  modify (on_self (set_onProgress_ false));;
  modify (on_self (set_progressReport_ emptyReport)).

(** What [start] does after the [catch] block. *)
Definition finishSync (syncSteps : list string) (synchronizationId : string)
    : M SyncContext :=
  releaseSyncLock;;
  closeReport synchronizationId;;
  dispatch (SYNC_COMPLETED (isFullSync syncSteps));;
  modify (on_self (set_state_ "idle"));;
  let* errorToThrow := gets (fun w => errorToThrow (frame w)) in
  match errorToThrow with
  | Some e => throw e
  | None => gets (fun w => outputContext (frame w))
  end.

Definition boolToString (b : bool) : string := if b then "true" else "false".

(** What [start] does between the test of the state and the [try] block. *)
Definition beginSync (options : Options) : M (SyncContext * Z * string) :=
  modify (on_self (set_state_ "in_progress"));;
  modify (on_self (set_onProgress_ (onProgress options)));;
  modify (on_self (set_progressReport_ emptyReport));;
  let lastContext := match context options with
                     | Some c => c
                     | None => mkSyncContext None []
                     end in
  modify (on_self (set_syncTargetIsLocked_ false));;
  modify (on_self (set_cancelling_ false));;
  let* masterKeysBefore :=
    call (c_count TYPE_MASTER_KEY) (ItemClass_count C TYPE_MASTER_KEY) in
  let* time := now in
  let synchronizationId := pretty time in
  modify (on_frame (fun _ => set_outputContext lastContext newFrame));;
  let* time := now in
  modify (on_self (fun s =>
    let r := progressReport_ s in
    set_progressReport_
      (mkReport (counters r) (rstate r) (Some time) (completedTime r) (errors r)) s));;
  dispatch SYNC_STARTED;;
  modify (record (EvEmit "syncStart" None));;
  modify (logSyncOperation "starting" None None
            ("Starting synchronisation to target " +:+ pretty (syncTargetId C)
             +:+ "... supportsAccurateTimestamp = "
             +:+ boolToString (supportsAccurateTimestamp C)
             +:+ "; supportsMultiPut = " +:+ boolToString (supportsMultiPut C)
             +:+ " [" +:+ synchronizationId +:+ "]") 1);;
  let* indexer := gets (fun w => resourceService_ (self w)) in
  (try
     (if indexer : bool
      then logger LInfo "Indexing resources...";;
           call c_indexNoteResources (indexNoteResources C)
      else ret tt)
   catch error => logger LError ("Error indexing resources: " +:+ message error));;
  call c_updateAllShareIds (updateAllShareIds C);;
  ret (lastContext, masterKeysBefore, synchronizationId).

Definition defaultSyncSteps : list string :=
  ["update_remote"; "delete_remote"; "delta"].

(** [start(options)]. *)
Definition start (options : Options) (fuel : nat) : M SyncContext :=
  let* current := gets state in
  if negb (String.eqb current "idle")
  then throw (mkError "alreadyStarted"
                ("Synchronisation is already in progress. State: " +:+ current)
                "" None)
  else
    let syncSteps := match syncSteps options with
                     | Some steps => steps
                     | None => defaultSyncSteps
                     end in
    let* (lastContext, masterKeysBefore, synchronizationId) := beginSync options in
    (try syncBody options lastContext syncSteps masterKeysBefore fuel
     catch error => onSyncError (throwOnError options) error);;
    finishSync syncSteps synchronizationId.

End Synchronizer.

(** * The plugin settings API and the build script of the server image

    Two small programs of the repository that work on strings: the class
    [JoplinSettings], which keeps the settings of a plugin in a namespace of
    their own, and the script that derives the version and the tags of the
    server image from a git tag.  A string is the sequence of its
    characters. *)

Module JsString.

(** [haystack.indexOf(needle)]: the index of the first occurrence of
    [needle], or -1. *)
Fixpoint indexOf (needle haystack : string) : Z :=
  if String.prefix needle haystack then 0
  else match haystack with
       | EmptyString => -1
       | String _ rest =>
           let i := indexOf needle rest in
           if i <? 0 then -1 else 1 + i
       end.

(** [s.substr(start)]. *)
Fixpoint substr (start : nat) (s : string) : string :=
  match start, s with
  | O, _ => s
  | S n, String _ rest => substr n rest
  | S _, EmptyString => EmptyString
  end.

(** [s.split(separator)] for a separator of one character. *)
Fixpoint split (separator : ascii) (s : string) : list string :=
  match s with
  | EmptyString => [EmptyString]
  | String c rest =>
      if Ascii.eqb c separator then EmptyString :: split separator rest
      else match split separator rest with
           | first :: others => String c first :: others
           | [] => [String c EmptyString]
           end
  end.

End JsString.

Module JoplinSettings.

Import JsString.

(** [get keyPrefix()], for the plugin whose id is [pluginId]. *)
Definition keyPrefix (pluginId : string) : string :=
  "plugin-" +:+ pluginId +:+ ".".

(** [namespacedKey(key)]. *)
Definition namespacedKey (pluginId key : string) : string :=
  keyPrefix pluginId +:+ key.

(** The listener that [onChange(handler)] registers for [settingsChange],
    on the keys of an event: the keys the handler is called with, [None]
    when it is not called. *)
Definition onChange (pluginId : string) (eventKeys : list string)
    : option (list string) :=
  let keys :=
    map (substr (String.length (keyPrefix pluginId)))
        (List.filter (fun k => indexOf (keyPrefix pluginId) k =? 0) eventKeys) in
  match keys with
  | [] => None
  | _ => Some keys
  end.

End JoplinSettings.

Module BuildServerDocker.

Import JsString.

(** [getVersionFromTag(tagName, isPreRelease)]. *)
Definition getVersionFromTag (tagName : string) (isPreRelease : bool) : Res string :=
  if negb (indexOf "server-" tagName =? 0)
  then Throw (Error ("Invalid tag: " +:+ tagName))
  else
    let s := split "-" tagName in
    let suffix := if isPreRelease then "-beta" else "" in
    match nth_error s 1 with
    | Some part => Ok (substr 1 part +:+ suffix)
    | None =>
        Throw (Error "TypeError: Cannot read properties of undefined (reading 'substr')")
    end.

(** [getIsPreRelease(tagName)]. *)
Definition getIsPreRelease (tagName : string) : bool :=
  0 <? indexOf "-beta" tagName.

(** The [dockerTags] array that [main] builds from the image version and
    the pre-release flag; an element that the array of the parts of the
    version does not have prints as [undefined]. *)
Definition dockerTags (imageVersion : string) (isPreRelease : bool) : list string :=
  let versionPart := split "." imageVersion in
  let part i := match nth_error versionPart i with
                | Some p => p
                | None => "undefined"
                end in
  [ if isPreRelease then "beta" else "latest";
    part 0%nat +:+ (if isPreRelease then "-beta" else "");
    part 0%nat +:+ "." +:+ part 1%nat +:+ (if isPreRelease then "-beta" else "");
    imageVersion ].

End BuildServerDocker.

(** * Judgements on computations

    What the properties of the synchronizer are stated with: postconditions,
    computations that never throw or that always end, and frames. *)

Section Judgements.

Context {Ext : Type}.

Local Abbreviation World := (World Ext).
Local Abbreviation M := (M Ext).

(** Every outcome of [m] from [w] satisfies [Q]. *)
Definition post {A} (m : M A) (w : World) (Q : Res A -> World -> Prop) : Prop :=
  forall r w', m w = Some (r, w') -> Q r w'.

(** A collaborator call that never throws. *)
Definition never_throws {A} (f : Ext -> Res A * Ext) : Prop :=
  forall e, exists a e', f e = (Ok a, e').

(** A computation that never throws. *)
Definition safe {A} (m : M A) : Prop :=
  forall w r w', m w = Some (r, w') -> exists a, r = Ok a.

(** A computation that always ends. *)
Definition total {A} (m : M A) : Prop :=
  forall w, exists r w', m w = Some (r, w').

Section Frames.

Context {X : Type}.
Variable keep : Synchronizer -> Frame -> option Lock -> X.
Variable allowed : Event -> bool.

(** [keep] projects what must stay as it is out of the synchronizer object,
    the frame and the refresh registration; [allowed] says which events may
    be recorded. *)
Definition kept (w : World) : X := keep (self w) (frame w) (refresh w).

Definition steady (w w' : World) : Prop :=
  kept w' = kept w
  /\ exists evs, trace w' = trace w ++ evs /\ forallb allowed evs = true.

(** Every run of [m] is steady. *)
Definition keeps {A} (m : M A) : Prop :=
  forall w r w', m w = Some (r, w') -> steady w w'.

(** The laws of a frame that [logSyncOperation], [cancel()] and the lock
    refresh callback respect: it does not look at the report or at the two
    flags, and it allows the log lines, progress callbacks and report
    updates, and the stop of the download queue. *)
Class Calm : Prop := {
  calm_report : forall v s fr rf, keep (set_progressReport_ v s) fr rf = keep s fr rf;
  calm_cancelling : forall v s fr rf, keep (set_cancelling_ v s) fr rf = keep s fr rf;
  calm_locked : forall v s fr rf, keep (set_syncTargetIsLocked_ v s) fr rf = keep s fr rf;
  calm_logger : forall l s, allowed (EvLogger l s) = true;
  calm_progress : forall r, allowed (EvOnProgress r) = true;
  calm_update : forall r, allowed (EvDispatch (SYNC_REPORT_UPDATE r)) = true;
  calm_queue_stop : forall b, allowed (EvCall c_queue_stop b) = true
}.

End Frames.

End Judgements.

(** * The vocabulary of the properties *)

Section Vocabulary.

Context {Ext : Type} (C : Collab Ext).

Local Abbreviation World := (World Ext).
Local Abbreviation M := (M Ext).

Definition lockKeep (s : Synchronizer) (fr : Frame) (rf : option Lock) :=
  (state_ s, appType_ s, clientId_ s, maxResourceSize_ s, testingHooks_ s,
   shareService_ s, syncLock fr, errorToThrow fr, rf).

Definition isLockEvent (ev : Event) : bool :=
  match ev with
  | EvCall (c_acquireLock _ _ _) _ | EvCall (c_releaseLock _ _ _) _
  | EvCall (c_startAutoLockRefresh _) _ | EvCall (c_stopAutoLockRefresh _) _ => true
  | _ => false
  end.

Definition notLockEvent (ev : Event) : bool := negb (isLockEvent ev).

Definition stateKeep (s : Synchronizer) (fr : Frame) (rf : option Lock) := state_ s.

Definition anyEvent (ev : Event) : bool := true.

(** The calls [start] makes outside its [try] block never throw. *)
Record Housekeeping : Prop := {
  hk_count : forall t, never_throws (ItemClass_count C t);
  hk_updateAllShareIds : never_throws (updateAllShareIds C);
  hk_stopAutoLockRefresh : forall l, never_throws (stopAutoLockRefresh C l);
  hk_releaseLock : forall t a c, never_throws (releaseLock C t a c)
}.

(** Whether the sync lock is held, and whether its refresh is running,
    after the lock handler calls of a trace. *)
Definition lockAfter (held : bool) (ev : Event) : bool :=
  match ev with
  | EvCall (c_acquireLock LockSync _ _) true => true
  | EvCall (c_releaseLock LockSync _ _) true => false
  | _ => held
  end.

Definition refreshAfter (running : bool) (ev : Event) : bool :=
  match ev with
  | EvCall (c_startAutoLockRefresh _) true => true
  | EvCall (c_stopAutoLockRefresh _) true => false
  | _ => running
  end.

Definition holdsLock (evs : list Event) (held : bool) : bool :=
  fold_left lockAfter evs held.

Definition refreshes (evs : list Event) (running : bool) : bool :=
  fold_left refreshAfter evs running.

(** What the blocks after the [catch] keep: the state, the frame, the
    refresh registration and the configuration. *)
Definition tidyKeep (s : Synchronizer) (fr : Frame) (rf : option Lock) :=
  (state_ s, appType_ s, clientId_ s, fr, rf).

Definition lastContextOf (options : Options) : SyncContext :=
  match context options with
  | Some c => c
  | None => mkSyncContext None []
  end.

(** An event that takes the sync lock or starts its refresh. *)
Definition noLockGain (ev : Event) : bool :=
  match ev with
  | EvCall (c_acquireLock _ _ _) true | EvCall (c_startAutoLockRefresh _) true => false
  | _ => true
  end.

Definition gainKeep (s : Synchronizer) (fr : Frame) (rf : option Lock) :=
  (state_ s, syncLock fr, errorToThrow fr, rf).

Definition heldKeep (s : Synchronizer) (fr : Frame) (rf : option Lock) :=
  (state_ s, syncLock fr, errorToThrow fr).

Definition catchKeep (s : Synchronizer) (fr : Frame) (rf : option Lock) :=
  (state_ s, syncLock fr, outputContext fr, rf).

Definition stepsOf (options : Options) : list string :=
  match syncSteps options with
  | Some steps => steps
  | None => defaultSyncSteps
  end.

Definition isLoggerEvent (ev : Event) : bool :=
  match ev with EvLogger _ _ => true | _ => false end.

Definition withErrors (more : list ReportEntry) (s : Synchronizer) : Synchronizer :=
  let r := progressReport_ s in
  set_progressReport_
    (mkReport (counters r) (rstate r) (startTime r) (completedTime r)
              (errors r ++ more)) s.

(** From [w] to [w'] nothing happened but logger lines and additions to the
    [errors] list of the report. *)
Definition onlyLogs (w w' : World) : Prop :=
  frame w' = frame w /\ refresh w' = refresh w /\ ext w' = ext w
  /\ (exists more, self w' = withErrors more (self w))
  /\ exists lines, trace w' = trace w ++ lines /\ forallb isLoggerEvent lines = true.

Definition logsOnly {A} (m : M A) : Prop :=
  forall w r w', m w = Some (r, w') -> onlyLogs w w'.

(** The conflict variant as the specification words it: a Note gives
    [noteConflict], a Resource [resourceConflict], anything else
    [itemConflict]. *)
Definition conflictOf (t : ModelType) : string :=
  match t with
  | TYPE_NOTE => "noteConflict"
  | TYPE_RESOURCE => "resourceConflict"
  | _ => "itemConflict"
  end.

Definition isSyncTimeEvent (ev : Event) : bool :=
  match ev with EvCall (c_saveSyncTime _ _ _ _) _ => true | _ => false end.

Definition notSyncTime (ev : Event) : bool := negb (isSyncTimeEvent ev).

Definition noKeep (s : Synchronizer) (fr : Frame) (rf : option Lock) := tt.

(** The sync time that the calls to [saveSyncTime] of a trace leave in the
    item store for an item and a target. *)
Definition syncTimeAfter (target : Z) (itemId : string) (t : option Z)
    (ev : Event) : option Z :=
  match ev with
  | EvCall (c_saveSyncTime _ tg item time) true =>
      if (tg =? target) && String.eqb (id item) itemId then Some time else t
  | _ => t
  end.

Definition savedSyncTime (target : Z) (itemId : string) (evs : list Event)
    : option Z :=
  fold_left (syncTimeAfter target itemId) evs None.

(** The upload of a blob or of metadata, and the record of a sync time. *)
Definition isUploadEvent (ev : Event) : bool :=
  match ev with
  | EvCall (c_api_put _ _ _) _ | EvCall (c_serializeAndUploadItem _ _ _) _
  | EvCall (c_saveSyncTime _ _ _ _) _ => true
  | _ => false
  end.

Definition notUpload (ev : Event) : bool := negb (isUploadEvent ev).

Definition missingBlobReason : string :=
  "Trying to upload resource, but only metadata is present.".

(** What saves a downloaded item locally or schedules the download of its
    blob. *)
Definition isLocalSave (ev : Event) : bool :=
  match ev with
  | EvCall (c_save _ _ _ _ _) _ | EvCall (c_ResourceLocalState_save _ _) _
  | EvCall (c_setLocalState _ _) _
  | EvDispatch (SYNC_CREATED_OR_UPDATED_RESOURCE _) => true
  | _ => false
  end.

Definition notLocalSave (ev : Event) : bool := negb (isLocalSave ev).

Definition doneKeep (s : Synchronizer) (fr : Frame) (rf : option Lock) := donePaths fr.

Definition isSaveContext (ev : Event) : bool :=
  match ev with EvSaveContext _ => true | _ => false end.

Definition notSaveContext (ev : Event) : bool := negb (isSaveContext ev).

(** The contexts given to [saveContextHandler], in order. *)
Definition savedContexts (evs : list Event) : list DeltaContext :=
  flat_map (fun ev => match ev with EvSaveContext d => [d] | _ => [] end) evs.

(** What the processing of the items of a page keeps: the two context
    variables of the loop, the output context and the flag [hasCancelled]. *)
Definition pageKeep (s : Synchronizer) (fr : Frame) (rf : option Lock) :=
  (deltaContext fr, newDeltaContext fr, outputContext fr, hasCancelled fr,
   testingHooks_ s).

(** The flag aside, the loop over the items keeps what its iterations keep. *)
Definition loopKeep (s : Synchronizer) (fr : Frame) (rf : option Lock) :=
  (deltaContext fr, newDeltaContext fr, outputContext fr).

(** The test at the head of an iteration of the loop over the items. *)
Definition cancelSeen (w : World) : bool :=
  cancelling w || has "cancelDeltaLoop2" (testingHooks_ (self w)).

(** Every item of the list was processed, none was skipped by a
    cancellation. *)
Inductive ProcessedAll (masterKeysBefore : Z) (locals : list Item)
    : list RemoteItem -> World -> World -> Prop :=
| processed_nil w : ProcessedAll masterKeysBefore locals [] w w
| processed_cons remote rest w w1 w' :
    cancelSeen w = false ->
    processRemote C masterKeysBefore locals remote w = Some (Ok tt, w1) ->
    ProcessedAll masterKeysBefore locals rest w1 w' ->
    ProcessedAll masterKeysBefore locals (remote :: rest) w w'.

(** What the contexts saved by a run of the loop are, when a handler is
    given: none, with the variables of the loop as they were; or a last one
    that is, caches removed, the context the loop ends with. *)
Definition savedFollows (w w' : World) : Prop :=
  exists added,
    savedContexts (trace w') = savedContexts (trace w) ++ added
    /\ ((added = []
         /\ newDeltaContext (frame w') = newDeltaContext (frame w)
         /\ deltaContext (frame w') = deltaContext (frame w))
        \/ exists d,
             last added = Some (withoutCaches d)
             /\ (newDeltaContext (frame w') = Some d
                 \/ (newDeltaContext (frame w') = newDeltaContext (frame w)
                     /\ deltaContext (frame w') = Some d))).

(** The upload of the metadata of an item. *)
Definition isMetadataUpload (ev : Event) : bool :=
  match ev with
  | EvCall (c_serializeAndUploadItem _ _ _) _ => true
  | _ => false
  end.

(** Neither an upload of metadata nor the record of a sync time. *)
Definition besideUpload (ev : Event) : bool :=
  negb (isMetadataUpload ev) && notSyncTime ev.

(** Neither an upload of metadata that returned nor the record of a sync
    time. *)
Definition unsent (ev : Event) : bool :=
  match ev with
  | EvCall (c_serializeAndUploadItem _ _ _) true => false
  | _ => notSyncTime ev
  end.

(** The level at which the [catch] block of [start] logs the message of the
    error: the errors that the user must resolve, or that the next run
    will, are only information. *)
Definition caughtLevel (error : JError) : LogLevel :=
  if has (code error)
         ["cannotEncryptEncrypted"; "noActiveMasterKey"; "processingPathTwice";
          "failSafe"; "lockError"; "outdatedSyncTarget"]
  then LInfo else LError.

(** What the [catch] block of [start] appends to the [errors] list of the
    report. *)
Definition caughtEntries (error : JError) : list ReportEntry :=
  if has (code error) ["failSafe"; "lockError"]
  then (if isTestingEnv C then [] else [ReportMessage (message error)])
  else if has (code error)
              ["cannotEncryptEncrypted"; "noActiveMasterKey"; "processingPathTwice";
               "outdatedSyncTarget"]
  then []
  else if String.eqb (code error) "unknownItemType"
  then [ReportMessage
          "Unknown item type downloaded - please upgrade Joplin to the latest version"]
  else if fetchRequestCanBeRetried C error then [] else [ReportError error].

(** The log line that [cancel()] writes. *)
Definition isCancellation (ev : Event) : bool :=
  match ev with
  | EvLogger _ line => String.eqb line (syncOperationLine C "cancelling" None None "")
  | _ => false
  end.

(** The events before the first cancellation, and those after it. *)
Fixpoint untilCancel (evs : list Event) : list Event :=
  match evs with
  | [] => []
  | ev :: rest => if isCancellation ev then [] else ev :: untilCancel rest
  end.

Fixpoint sinceCancel (evs : list Event) : list Event :=
  match evs with
  | [] => []
  | ev :: rest => if isCancellation ev then rest else sinceCancel rest
  end.

(** The dispatch of [SYNC_COMPLETED]. *)
Definition isCompletion (ev : Event) : bool :=
  match ev with
  | EvDispatch (SYNC_COMPLETED _) => true
  | _ => false
  end.

End Vocabulary.

(** * The vocabulary of the further properties *)

Section Observations.

Context {Ext : Type} (C : Collab Ext).

Local Abbreviation World := (World Ext).
Local Abbreviation M := (M Ext).

(** Whether [reportToLines] gives a line of this format. *)
Definition hasLine (format : string) (lines : list (string * list FormatArg)) : bool :=
  existsb (fun l => String.eqb (fst l) format) lines.

(** A log line or a call of the progress callback. *)
Definition isNote (ev : Event) : bool :=
  match ev with
  | EvLogger _ _ | EvOnProgress _ => true
  | _ => false
  end.

(** What reads an item of the target. *)
Definition isRemoteRead (ev : Event) : bool :=
  match ev with
  | EvCall (c_api_stat _) _ | EvCall (c_api_get _) _ | EvCall (c_unserialize _) _ => true
  | _ => false
  end.

Definition notRemoteRead (ev : Event) : bool := negb (isRemoteRead ev).

(** What replaces or removes the local copy of an item. *)
Definition isOverwrite (ev : Event) : bool :=
  match ev with
  | EvCall (c_save _ _ _ _ _) _ | EvCall (c_delete _ _ _) _
  | EvCall (c_setLocalState _ _) _ => true
  | _ => false
  end.

Definition notOverwrite (ev : Event) : bool := negb (isOverwrite ev).

(** The call that keeps a copy of the local item of a conflict. *)
Definition conflictCopy (action : string) (local : Item) : Call :=
  if String.eqb action "noteConflict" then c_createConflictNote local
  else c_createConflictResourceNote local.

(** What the steps still do once the run is being cancelled. *)
Definition isIdleEvent (ev : Event) : bool :=
  match ev with
  | EvCall (c_deletedItems _) _ | EvCall c_queue_stop _ | EvCall c_queue_new _
  | EvLogger _ _ => true
  | _ => false
  end.

(** A computation that, in a run that is being cancelled, ends, leaves the
    run being cancelled and records idle events only. *)
Definition quiet {A} (m : M A) : Prop :=
  forall w : World,
    cancelling_ (self w) = true ->
    exists r w' evs,
      m w = Some (r, w') /\ cancelling_ (self w') = true
      /\ trace w' = trace w ++ evs /\ forallb isIdleEvent evs = true.

(** The files whose deletion on the target has returned, after an event. *)
Definition deletedAfter (deleted : list string) (ev : Event) : list string :=
  match ev with
  | EvCall (c_api_delete p) true => p :: deleted
  | _ => deleted
  end.

(** Every call to [remoteDeletedItem] of the events, for an item [itemId],
    comes after the deletion of each of the files [required itemId] has
    returned. *)
Fixpoint acknowledgedAfter (required : string -> list string)
    (deleted : list string) (evs : list Event) : bool :=
  match evs with
  | [] => true
  | ev :: rest =>
      match ev with
      | EvCall (c_remoteDeletedItem _ itemId) _ =>
          forallb (fun p => has p deleted) (required itemId)
      | _ => true
      end
      && acknowledgedAfter required (deletedAfter deleted ev) rest
  end.

Definition isAcknowledgement (ev : Event) : bool :=
  match ev with
  | EvCall (c_remoteDeletedItem _ _) _ => true
  | _ => false
  end.

Definition notAcknowledgement (ev : Event) : bool := negb (isAcknowledgement ev).

(** With accurate timestamps, a remote item whose local copy has the
    remote's [jop_updated_time] as its [updated_time]. *)
Definition upToDate (locals : list Item) (remote : RemoteItem) : bool :=
  supportsAccurateTimestamp C
  && match findById (pathToId C (path remote)) locals with
     | Some local =>
         match jop_updated_time remote with
         | Some t => updated_time local =? t
         | None => false
         end
     | None => false
     end.

(** What changes the local items or their state. *)
Definition isLocalWrite (ev : Event) : bool :=
  match ev with
  | EvCall (c_save _ _ _ _ _) _ | EvCall (c_delete _ _ _) _
  | EvCall (c_ResourceLocalState_save _ _) _ | EvCall (c_setLocalState _ _) _
  | EvCall (c_saveSyncDisabled _ _ _ _ _) _ | EvCall (c_Folder_delete _) _
  | EvCall (c_markNotesAsConflict _) _ | EvCall (c_enableEncryption _) _
  | EvCall (c_createConflictNote _) _ | EvCall (c_createConflictResourceNote _) _ => true
  | _ => false
  end.

Definition notLocalWrite (ev : Event) : bool := negb (isLocalWrite ev).

(** A context given to [saveContextHandler] has no caches. *)
Definition strippedSave (ev : Event) : bool :=
  match ev with
  | EvSaveContext d =>
      match statsCache d, statIdsCache d with
      | None, None => true
      | _, _ => false
      end
  | _ => true
  end.

(** What deletes a local folder or cleans up after the deletions. *)
Definition isFolderDeletion (ev : Event) : bool :=
  match ev with
  | EvCall (c_Folder_delete _) _ | EvCall (c_markNotesAsConflict _) _
  | EvCall (c_delete TYPE_FOLDER _ _) _ | EvCall c_deleteOrphanSyncItems _ => true
  | _ => false
  end.

Definition notFolderDeletion (ev : Event) : bool := negb (isFolderDeletion ev).

(** What the loop over the pages does with the items of the target. *)
Definition isItemProcessing (ev : Event) : bool :=
  match ev with
  | EvCall (c_api_delta _ _) _ | EvCall (c_loadItemsByIds _) _
  | EvCall (c_queue_push _) _ | EvCall (c_queue_waitForResult _) _
  | EvCall (c_unserialize _) _ | EvCall (c_save _ _ _ _ _) _
  | EvCall (c_delete _ _ _) _ | EvCall (c_ResourceLocalState_save _ _) _
  | EvCall (c_saveSyncDisabled _ _ _ _ _) _ | EvCall (c_enableEncryption _) _
  | EvCall c_loadMasterKeysFromSettings _ | EvSaveContext _ => true
  | _ => false
  end.

Definition notItemProcessing (ev : Event) : bool := negb (isItemProcessing ev).

Definition isEncryptionSetup (ev : Event) : bool :=
  match ev with
  | EvCall (c_enableEncryption _) _ | EvCall c_loadMasterKeysFromSettings _ => true
  | _ => false
  end.

Definition notEncryptionSetup (ev : Event) : bool := negb (isEncryptionSetup ev).

Definition contextKeep (s : Synchronizer) (fr : Frame) (rf : option Lock) :=
  outputContext fr.

Definition otherKeep (s : Synchronizer) (fr : Frame) (rf : option Lock) :=
  other (outputContext fr).

(** The write of a setting. *)
Definition isSettingWrite (ev : Event) : bool :=
  match ev with
  | EvCall (c_Setting_setValue _ _) _ => true
  | _ => false
  end.

(** What the preparation of the target records before the target is found
    unfit: no call to the lock handler and no write of a setting. *)
Definition isPreparation (ev : Event) : bool :=
  notLockEvent ev && negb (isSettingWrite ev).

(** A collaborator call that always throws [error]. *)
Definition always_throws {A} (error : JError) (f : Ext -> Res A * Ext) : Prop :=
  forall e, exists e', f e = (Throw error, e').

(** From [w] to [w'] the [errors] list of the report is the same and the
    trace has only grown. *)
Definition sameErrors (w w' : World) : Prop :=
  errors (progressReport_ (self w')) = errors (progressReport_ (self w))
  /\ exists evs, trace w' = trace w ++ evs.

Definition gentle {A} (m : M A) : Prop :=
  forall w r w', m w = Some (r, w') -> sameErrors w w'.

(** Whether the character occurs in the string. *)
Fixpoint occurs (c : ascii) (s : string) : bool :=
  match s with
  | EmptyString => false
  | String d rest => Ascii.eqb d c || occurs c rest
  end.

End Observations.

(** * A concrete target and item store

    A small world on which the synchronizer can be run: the remote files,
    the failures and the interrupts are given by a few knobs, everything
    else succeeds. *)

Module Scenario.

(** The external state: how many suspension points were passed, and the
    batches and pages still to be handed out. *)
Record TestExt := mkTestExt {
  clock : nat;
  batches : list NeedSync;
  pages : list ListResult
}.

Record Knobs := mkKnobs {
  k_stat : string -> Res (option RemoteItem);
  k_get : string -> Res (option string);
  k_unserialize : string -> Res Item;
  k_upload : Item -> Res unit;
  k_localState : string -> Res FetchStatus;
  k_exclusiveLock : bool;
  k_syncLock : bool;
  k_interrupts : nat -> list Interrupt
}.

Definition steady_ext {A} (r : Res A) : TestExt -> Res A * TestExt :=
  fun e => (r, e).

Definition nextBatch (e : TestExt) : Res NeedSync * TestExt :=
  match batches e with
  | [] => (Ok (mkNeedSync [] false []), e)
  | b :: rest => (Ok b, mkTestExt (clock e) rest (pages e))
  end.

Definition nextPage (e : TestExt) : Res ListResult * TestExt :=
  match pages e with
  | [] => (Ok (mkListResult [] (mkDeltaContext "end" None None) false), e)
  | p :: rest => (Ok p, mkTestExt (clock e) (batches e) rest)
  end.

Definition stripMd (p : string) : string :=
  String.substring 0 (String.length p - 3) p.

Definition collab (k : Knobs) : Collab TestExt :=
  mkCollab
    (* file API *)
    7 true false
    (steady_ext (Ok tt))
    (fun _ => steady_ext (Ok tt))
    (fun p => steady_ext (k_stat k p))
    (fun p => steady_ext (k_get k p))
    (fun _ _ _ => steady_ext (Ok tt))
    (fun _ => steady_ext (Ok tt))
    (fun _ _ => nextPage)
    (fun _ => [])
    (* lock and migration handlers *)
    (fun t _ => steady_ext (Ok (match t with
                                | LockExclusive => k_exclusiveLock k
                                | LockSync => k_syncLock k
                                end)))
    (fun t a c => steady_ext (Ok (mkLock t a c)))
    (fun _ _ _ => steady_ext (Ok tt))
    (fun _ => steady_ext (Ok tt))
    (fun _ => steady_ext (Ok tt))
    (steady_ext (Ok (mkSyncTargetInfo 3)))
    (fun _ => steady_ext (Ok tt))
    (* settings, clock, shim *)
    (fun _ => 3) (fun _ => true)
    (fun _ _ => steady_ext (Ok tt))
    "should_do"
    (fun e => Z.of_nat (clock e))
    false
    (fun _ => false)
    (* constants and pure helpers of the models *)
    ".resource" "temp"
    (fun i => i +:+ ".md")
    stripMd
    (includes ".md")
    (fun t => match t with
              | TYPE_NOTE => "Note" | TYPE_FOLDER => "Folder"
              | TYPE_RESOURCE => "Resource" | TYPE_TAG => "Tag"
              | TYPE_NOTE_TAG => "NoteTag" | TYPE_REVISION => "Revision"
              | TYPE_MASTER_KEY => "MasterKey" | TYPE_UNKNOWN => "Unknown"
              end)
    (fun _ i => i)
    (fun _ _ => true)
    (* item store *)
    (fun _ => steady_ext (Ok 0))
    (steady_ext (Ok tt))
    (fun _ => nextBatch)
    (fun c => steady_ext (k_unserialize k c))
    (fun _ _ _ _ _ => steady_ext (Ok tt))
    (fun _ _ _ _ => steady_ext (Ok tt))
    (fun _ _ _ _ _ => steady_ext (Ok tt))
    (fun _ _ _ => steady_ext (Ok tt))
    (fun i => steady_ext (k_localState k i))
    (fun local => steady_ext (Ok (mkUploadPath ("/blobs/" +:+ id local) local)))
    (fun _ => steady_ext (Ok tt))
    (fun _ _ => steady_ext (Ok tt))
    (fun _ _ => steady_ext (Ok tt))
    (fun _ => steady_ext (Ok tt))
    (fun _ => steady_ext (Ok []))
    (fun _ _ => steady_ext (Ok tt))
    (fun _ => steady_ext (Ok []))
    (steady_ext (Ok tt))
    (fun _ => steady_ext (Ok []))
    (fun _ => steady_ext (Ok tt))
    (fun _ => steady_ext (Ok tt))
    (* item uploader *)
    (fun _ => steady_ext (Ok tt))
    (fun _ _ local => steady_ext (k_upload k local))
    (* download queue *)
    (steady_ext (Ok tt))
    (steady_ext (Ok tt))
    (fun _ => steady_ext (Ok tt))
    (fun p => steady_ext (match k_get k p with
                          | Ok c => Ok (mkTaskResult c None)
                          | Throw e => Ok (mkTaskResult None (Some e))
                          end))
    (* services *)
    (steady_ext (Ok tt))
    (fun _ => steady_ext (Ok tt))
    (steady_ext (Ok tt))
    (steady_ext (Ok tt))
    (* interrupts *)
    (fun e => (k_interrupts k (clock e),
               mkTestExt (S (clock e)) (batches e) (pages e))).

Definition fresh : Item := mkItem "n0" TYPE_NOTE "New note" 50 10 0 0 false 0 12 "".
Definition note1 : Item := mkItem "n1" TYPE_NOTE "Note one" 50 10 0 0 false 40 12 "".
Definition newer : Item := mkItem "n1" TYPE_NOTE "Note one, theirs" 45 10 0 0 false 0 12 "".
Definition photo : Item := mkItem "r1" TYPE_RESOURCE "Photo" 60 10 0 0 false 0 120000000 "".
Definition remote1 : RemoteItem := mkRemoteItem "n1" "n1.md" (Some TYPE_NOTE) false 45 (Some 45).

Definition calm : Knobs :=
  mkKnobs (fun _ => Ok None) (fun _ => Ok (Some "content")) (fun _ => Ok newer)
          (fun _ => Ok tt) (fun _ => Ok FETCH_STATUS_DONE) false true (fun _ => []).

Definition ext0 := mkTestExt 0 [] [].
Definition idle : World TestExt := mkWorld (newSynchronizer "mobile" "client-1") newFrame None ext0 [].
Definition running : World TestExt := on_self (set_state_ "in_progress") idle.

Definition rejecting : Knobs :=
  mkKnobs (fun _ => Ok None) (fun _ => Ok (Some "content")) (fun _ => Ok newer)
          (fun _ => Throw (JoplinError "Payload too large" "rejectedByTarget"))
          (fun _ => Ok FETCH_STATUS_DONE) false true (fun _ => []).

Definition revisiting : World TestExt :=
  mkWorld (self running) (set_donePaths ["n1.md"] newFrame) None
          (mkTestExt 0 [mkNeedSync [note1] false []] []) [].

Definition failing : Knobs :=
  mkKnobs (fun _ => Throw (JoplinError "Connection reset" "ECONNRESET"))
          (fun _ => Ok (Some "content")) (fun _ => Ok newer)
          (fun _ => Ok tt) (fun _ => Ok FETCH_STATUS_DONE) false true (fun _ => []).

Definition pending : World TestExt :=
  mkWorld (newSynchronizer "mobile" "client-1") newFrame None
          (mkTestExt 0 [mkNeedSync [note1] false []] []) [].

Definition opts : Options := mkOptions false None None false true.

Definition remoteA : RemoteItem := mkRemoteItem "a" "a.md" (Some TYPE_NOTE) false 45 (Some 45).
Definition remoteB : RemoteItem := mkRemoteItem "b" "b.md" (Some TYPE_NOTE) false 46 (Some 46).
Definition page1 : ListResult :=
  mkListResult [remoteA; remoteB] (mkDeltaContext "page-1" (Some ["a"; "b"]) None) true.
Definition previous : SyncContext :=
  mkSyncContext (Some (mkDeltaContext "previous-run" None None)) [].

Definition cancelledAt (n : nat) : Knobs :=
  mkKnobs (fun _ => Ok None) (fun _ => Ok (Some "content")) (fun _ => Ok newer)
          (fun _ => Ok tt) (fun _ => Ok FETCH_STATUS_DONE) false true
          (fun t => if Nat.eqb t n then [UserCancel] else []).

Definition fetching : World TestExt :=
  mkWorld (set_downloadQueue_ true (self running))
          (set_outputContext previous newFrame) None
          (mkTestExt 0 [] [page1]) [].

Definition blobless : Knobs :=
  mkKnobs (fun _ => Ok None) (fun _ => Ok (Some "content")) (fun _ => Ok newer)
          (fun _ => Ok tt) (fun _ => Ok FETCH_STATUS_IDLE) false true (fun _ => []).

Definition locked : World TestExt := on_self (set_syncTargetIsLocked_ true) running.

Definition contended : Knobs :=
  mkKnobs (fun _ => Throw (JoplinError "Connection reset" "ECONNRESET"))
          (fun _ => Ok (Some "content")) (fun _ => Ok newer)
          (fun _ => Ok tt) (fun _ => Ok FETCH_STATUS_DONE) true true (fun _ => []).

End Scenario.

(** * Further cases

    Variants of the scenario's collaborators and worlds: a target that is
    refused by [checkCanSync], a lock handler that fails or cannot release
    the lock, a target that rejects downloads, a folder deleted on the
    target, a run that is already cancelling. *)

Module Cases.

(** [c] with another [checkCanSync]. *)
Definition withCheckCanSync (answer : Res SyncTargetInfo) (c : Collab Scenario.TestExt)
    : Collab Scenario.TestExt :=
  mkCollab
    (syncTargetId c) (supportsAccurateTimestamp c) (supportsMultiPut c)
    (api_initialize c) (api_setTempDirName c) (api_stat c) (api_get c)
    (api_put c) (api_delete c) (api_delta c) (api_lastRequests c)
    (hasActiveLock c) (acquireLock c) (releaseLock c) (startAutoLockRefresh c)
    (stopAutoLockRefresh c) (Scenario.steady_ext answer) (upgrade c)
    (Setting_syncVersion c) (Setting_wipeOutFailSafe c) (Setting_setValue c)
    (SYNC_UPGRADE_STATE_SHOULD_DO c) (unixMs c) (isTestingEnv c)
    (fetchRequestCanBeRetried c) (Dirnames_Resources c) (Dirnames_Temp c)
    (systemPath c) (pathToId c) (isSystemPath c) (modelTypeToClassName c)
    (ItemClass_filter c) (mustHandleConflict c) (ItemClass_count c)
    (updateAllShareIds c) (itemsThatNeedSync c) (unserialize c)
    (saveSyncDisabled c) (saveSyncTime c) (ItemClass_save c)
    (ItemClass_delete c) (Resource_localState c) (fullPathForSyncUpload c)
    (createConflictResourceNote c) (setLocalState c)
    (ResourceLocalState_save c) (createConflictNote c) (deletedItems c)
    (remoteDeletedItem c) (loadItemsByIds c) (deleteOrphanSyncItems c)
    (Folder_noteIds c) (markNotesAsConflict c) (Folder_delete c)
    (preUploadItems c) (serializeAndUploadItem c) (queue_stop c) (queue_new c)
    (queue_push c) (queue_waitForResult c) (indexNoteResources c)
    (enableEncryption c) (loadMasterKeysFromSettings c)
    (shareService_maintenance c) (pending c).
(** [c] with another [hasActiveLock]. *)
Definition withHasActiveLock (answer : Res bool) (c : Collab Scenario.TestExt)
    : Collab Scenario.TestExt :=
  mkCollab
    (syncTargetId c) (supportsAccurateTimestamp c) (supportsMultiPut c)
    (api_initialize c) (api_setTempDirName c) (api_stat c) (api_get c)
    (api_put c) (api_delete c) (api_delta c) (api_lastRequests c)
    (fun _ _ => Scenario.steady_ext answer) (acquireLock c) (releaseLock c)
    (startAutoLockRefresh c) (stopAutoLockRefresh c) (checkCanSync c)
    (upgrade c) (Setting_syncVersion c) (Setting_wipeOutFailSafe c)
    (Setting_setValue c) (SYNC_UPGRADE_STATE_SHOULD_DO c) (unixMs c)
    (isTestingEnv c) (fetchRequestCanBeRetried c) (Dirnames_Resources c)
    (Dirnames_Temp c) (systemPath c) (pathToId c) (isSystemPath c)
    (modelTypeToClassName c) (ItemClass_filter c) (mustHandleConflict c)
    (ItemClass_count c) (updateAllShareIds c) (itemsThatNeedSync c)
    (unserialize c) (saveSyncDisabled c) (saveSyncTime c) (ItemClass_save c)
    (ItemClass_delete c) (Resource_localState c) (fullPathForSyncUpload c)
    (createConflictResourceNote c) (setLocalState c)
    (ResourceLocalState_save c) (createConflictNote c) (deletedItems c)
    (remoteDeletedItem c) (loadItemsByIds c) (deleteOrphanSyncItems c)
    (Folder_noteIds c) (markNotesAsConflict c) (Folder_delete c)
    (preUploadItems c) (serializeAndUploadItem c) (queue_stop c) (queue_new c)
    (queue_push c) (queue_waitForResult c) (indexNoteResources c)
    (enableEncryption c) (loadMasterKeysFromSettings c)
    (shareService_maintenance c) (pending c).

(** [c] with another [releaseLock]. *)
Definition withReleaseLock (answer : Res unit) (c : Collab Scenario.TestExt)
    : Collab Scenario.TestExt :=
  mkCollab
    (syncTargetId c) (supportsAccurateTimestamp c) (supportsMultiPut c)
    (api_initialize c) (api_setTempDirName c) (api_stat c) (api_get c)
    (api_put c) (api_delete c) (api_delta c) (api_lastRequests c)
    (hasActiveLock c) (acquireLock c)
    (fun _ _ _ => Scenario.steady_ext answer) (startAutoLockRefresh c)
    (stopAutoLockRefresh c) (checkCanSync c) (upgrade c)
    (Setting_syncVersion c) (Setting_wipeOutFailSafe c) (Setting_setValue c)
    (SYNC_UPGRADE_STATE_SHOULD_DO c) (unixMs c) (isTestingEnv c)
    (fetchRequestCanBeRetried c) (Dirnames_Resources c) (Dirnames_Temp c)
    (systemPath c) (pathToId c) (isSystemPath c) (modelTypeToClassName c)
    (ItemClass_filter c) (mustHandleConflict c) (ItemClass_count c)
    (updateAllShareIds c) (itemsThatNeedSync c) (unserialize c)
    (saveSyncDisabled c) (saveSyncTime c) (ItemClass_save c)
    (ItemClass_delete c) (Resource_localState c) (fullPathForSyncUpload c)
    (createConflictResourceNote c) (setLocalState c)
    (ResourceLocalState_save c) (createConflictNote c) (deletedItems c)
    (remoteDeletedItem c) (loadItemsByIds c) (deleteOrphanSyncItems c)
    (Folder_noteIds c) (markNotesAsConflict c) (Folder_delete c)
    (preUploadItems c) (serializeAndUploadItem c) (queue_stop c) (queue_new c)
    (queue_push c) (queue_waitForResult c) (indexNoteResources c)
    (enableEncryption c) (loadMasterKeysFromSettings c)
    (shareService_maintenance c) (pending c).

(** [c] with another [loadItemsByIds]. *)
Definition withLoadItemsByIds (answer : Res (list Item)) (c : Collab Scenario.TestExt)
    : Collab Scenario.TestExt :=
  mkCollab
    (syncTargetId c) (supportsAccurateTimestamp c) (supportsMultiPut c)
    (api_initialize c) (api_setTempDirName c) (api_stat c) (api_get c)
    (api_put c) (api_delete c) (api_delta c) (api_lastRequests c)
    (hasActiveLock c) (acquireLock c) (releaseLock c) (startAutoLockRefresh c)
    (stopAutoLockRefresh c) (checkCanSync c) (upgrade c)
    (Setting_syncVersion c) (Setting_wipeOutFailSafe c) (Setting_setValue c)
    (SYNC_UPGRADE_STATE_SHOULD_DO c) (unixMs c) (isTestingEnv c)
    (fetchRequestCanBeRetried c) (Dirnames_Resources c) (Dirnames_Temp c)
    (systemPath c) (pathToId c) (isSystemPath c) (modelTypeToClassName c)
    (ItemClass_filter c) (mustHandleConflict c) (ItemClass_count c)
    (updateAllShareIds c) (itemsThatNeedSync c) (unserialize c)
    (saveSyncDisabled c) (saveSyncTime c) (ItemClass_save c)
    (ItemClass_delete c) (Resource_localState c) (fullPathForSyncUpload c)
    (createConflictResourceNote c) (setLocalState c)
    (ResourceLocalState_save c) (createConflictNote c) (deletedItems c)
    (remoteDeletedItem c) (fun _ => Scenario.steady_ext answer)
    (deleteOrphanSyncItems c) (Folder_noteIds c) (markNotesAsConflict c)
    (Folder_delete c) (preUploadItems c) (serializeAndUploadItem c)
    (queue_stop c) (queue_new c) (queue_push c) (queue_waitForResult c)
    (indexNoteResources c) (enableEncryption c) (loadMasterKeysFromSettings c)
    (shareService_maintenance c) (pending c).

(** [c] with another [Folder_noteIds]. *)
Definition withFolderNoteIds (answer : Res (list string)) (c : Collab Scenario.TestExt)
    : Collab Scenario.TestExt :=
  mkCollab
    (syncTargetId c) (supportsAccurateTimestamp c) (supportsMultiPut c)
    (api_initialize c) (api_setTempDirName c) (api_stat c) (api_get c)
    (api_put c) (api_delete c) (api_delta c) (api_lastRequests c)
    (hasActiveLock c) (acquireLock c) (releaseLock c) (startAutoLockRefresh c)
    (stopAutoLockRefresh c) (checkCanSync c) (upgrade c)
    (Setting_syncVersion c) (Setting_wipeOutFailSafe c) (Setting_setValue c)
    (SYNC_UPGRADE_STATE_SHOULD_DO c) (unixMs c) (isTestingEnv c)
    (fetchRequestCanBeRetried c) (Dirnames_Resources c) (Dirnames_Temp c)
    (systemPath c) (pathToId c) (isSystemPath c) (modelTypeToClassName c)
    (ItemClass_filter c) (mustHandleConflict c) (ItemClass_count c)
    (updateAllShareIds c) (itemsThatNeedSync c) (unserialize c)
    (saveSyncDisabled c) (saveSyncTime c) (ItemClass_save c)
    (ItemClass_delete c) (Resource_localState c) (fullPathForSyncUpload c)
    (createConflictResourceNote c) (setLocalState c)
    (ResourceLocalState_save c) (createConflictNote c) (deletedItems c)
    (remoteDeletedItem c) (loadItemsByIds c) (deleteOrphanSyncItems c)
    (fun _ => Scenario.steady_ext answer) (markNotesAsConflict c)
    (Folder_delete c) (preUploadItems c) (serializeAndUploadItem c)
    (queue_stop c) (queue_new c) (queue_push c) (queue_waitForResult c)
    (indexNoteResources c) (enableEncryption c) (loadMasterKeysFromSettings c)
    (shareService_maintenance c) (pending c).

Import Scenario.

Definition outdated : JError :=
  JoplinError "Sync target version is too old" "outdatedSyncTarget".

Definition unsupported : JError :=
  JoplinError "Sync target version is too recent" "outdatedClient".

Definition unfit : Collab Scenario.TestExt := withCheckCanSync (Throw outdated) (collab calm).

Definition tooRecent : Collab Scenario.TestExt :=
  withCheckCanSync (Throw unsupported) (collab calm).

Definition unreachable : JError := JoplinError "Connection reset" "ECONNRESET".

Definition lockless : Collab Scenario.TestExt :=
  withHasActiveLock (Throw (JoplinError "Cannot list locks" "ECONNREFUSED"))
                    (collab failing).

Definition tooLarge : JError := JoplinError "Payload too large" "rejectedByTarget".

(** The target has [n1.md] but refuses to hand it out. *)
Definition refusing : Knobs :=
  mkKnobs (fun _ => Ok (Some remote1)) (fun _ => Throw tooLarge) (fun _ => Ok newer)
          (fun _ => Ok tt) (fun _ => Ok FETCH_STATUS_DONE) false true (fun _ => []).

(** The target has [n1.md] but the download fails. *)
Definition dropping : Knobs :=
  mkKnobs (fun _ => Ok (Some remote1)) (fun _ => Throw unreachable) (fun _ => Ok newer)
          (fun _ => Ok tt) (fun _ => Ok FETCH_STATUS_DONE) false true (fun _ => []).

Definition key1 : Item := mkItem "k1" TYPE_MASTER_KEY "Key" 45 10 45 10 false 0 12 "".

(** Every downloaded item is a master key. *)
Definition keyed : Knobs :=
  mkKnobs (fun _ => Ok None) (fun _ => Ok (Some "content")) (fun _ => Ok key1)
          (fun _ => Ok tt) (fun _ => Ok FETCH_STATUS_DONE) false true (fun _ => []).

(** [fetching] after [setEncryptionService]. *)
Definition encrypting : World TestExt :=
  mkWorld (mkSynchronizer "mobile" "client-1" None [] true false false
                          "in_progress" false false true false emptyReport)
          (set_outputContext previous newFrame) None
          (mkTestExt 0 [] [page1]) [].

Definition cancelled : World TestExt := on_self (set_cancelling_ true) fetching.

Definition strict : Options := mkOptions false None None true true.

Definition paged : World TestExt :=
  mkWorld (newSynchronizer "mobile" "client-1") newFrame None
          (mkTestExt 0 [] [page1]) [].

Definition removed : list DeletedItem :=
  [mkDeletedItem "r1" TYPE_RESOURCE; mkDeletedItem "r2" TYPE_RESOURCE].

Definition unreleased : JError := JoplinError "Cannot release the lock" "ECONNREFUSED".

(** The lock handler acquires the sync lock but cannot release it. *)
Definition stuck : Collab Scenario.TestExt := withReleaseLock (Throw unreleased) (collab calm).

(** The same lock handler, on the target whose [stat] fails. *)
Definition stuckFailing : Collab Scenario.TestExt :=
  withReleaseLock (Throw unreleased) (collab failing).

Definition folder1 : Item := mkItem "f1" TYPE_FOLDER "Folder one" 30 10 30 10 false 30 0 "".

(** The folder [f1] was deleted on the target. *)
Definition remoteF : RemoteItem := mkRemoteItem "f1" "f1.md" (Some TYPE_FOLDER) true 0 None.

Definition pageF : ListResult :=
  mkListResult [remoteA; remoteF] (mkDeltaContext "page-f" None None) false.

(** The item store has the folder [f1], which still holds the note [n1]. *)
Definition shelved : Collab Scenario.TestExt :=
  withFolderNoteIds (Ok ["n1"]) (withLoadItemsByIds (Ok [folder1]) (collab calm)).

Definition emptying : World TestExt :=
  mkWorld (set_downloadQueue_ true (self running))
          (set_outputContext previous newFrame) None
          (mkTestExt 0 [] [pageF]) [].

(** Every downloaded item is the photo, which is over the limit of the
    mobile client. *)
Definition heavy : Knobs :=
  mkKnobs (fun _ => Ok None) (fun _ => Ok (Some "content")) (fun _ => Ok photo)
          (fun _ => Ok tt) (fun _ => Ok FETCH_STATUS_DONE) false true (fun _ => []).

Definition remoteR : RemoteItem :=
  mkRemoteItem "r1" "r1.md" (Some TYPE_RESOURCE) false 60 (Some 60).

(** The last page of a delta. *)
Definition lastPage : ListResult :=
  mkListResult [remoteA; remoteB] (mkDeltaContext "page-last" (Some ["a"; "b"]) None) false.

Definition finishing : World TestExt :=
  mkWorld (set_downloadQueue_ true (self running))
          (set_outputContext previous newFrame) None
          (mkTestExt 0 [] [lastPage]) [].

(** A context of the caller with a property of its own beside [delta]. *)
Definition tagged : SyncContext :=
  mkSyncContext (Some (mkDeltaContext "previous-run" None None))
                [("timestamp", "1667390000000")].

Definition taggedUpload : Options :=
  mkOptions false (Some tagged) (Some ["update_remote"]) false true.

Definition taggedFull : Options := mkOptions false (Some tagged) None false true.


End Cases.

(** * Reasoning about runs *)

Section Runs.

Context {Ext : Type}.

Local Abbreviation World := (World Ext).
Local Abbreviation M := (M Ext).
Local Abbreviation post := (post (Ext:=Ext)).
Local Abbreviation never_throws := (never_throws (Ext:=Ext)).
Local Abbreviation safe := (safe (Ext:=Ext)).
Local Abbreviation total := (total (Ext:=Ext)).

Lemma bind_ok {A B} (m : M A) (k : A -> M B) w a w1 :
  m w = Some (Ok a, w1) -> bind m k w = k a w1.
Proof. unfold bind. intros ->. reflexivity. Qed.

Lemma bind_throw {A B} (m : M A) (k : A -> M B) w e w1 :
  m w = Some (Throw e, w1) -> bind m k w = Some (Throw e, w1).
Proof. unfold bind. intros ->. reflexivity. Qed.

Lemma bind_inv {A B} (m : M A) (k : A -> M B) w r w' :
  bind m k w = Some (r, w') ->
  (exists a w1, m w = Some (Ok a, w1) /\ k a w1 = Some (r, w'))
  \/ (exists e, m w = Some (Throw e, w') /\ r = Throw e).
Proof.
  unfold bind. destruct (m w) as [[[a|e] w1]|] eqn:E; intros H.
  - left. eauto.
  - right. inversion H; subst. eauto.
  - discriminate.
Qed.

Lemma attempt_inv {A} (m : M A) w r w' :
  attempt m w = Some (r, w') -> exists r0, m w = Some (r0, w') /\ r = Ok r0.
Proof.
  unfold attempt. destruct (m w) as [[r0 w1]|]; intros H; inversion H; subst.
  eauto.
Qed.

(** ** Postconditions of a run from a given world *)

Lemma post_ret {A} (a : A) w (Q : Res A -> World -> Prop) :
  Q (Ok a) w -> post (ret a) w Q.
Proof. intros H r w' E. inversion E; subst. exact H. Qed.

Lemma post_throw {A} e w (Q : Res A -> World -> Prop) :
  Q (Throw e) w -> post (throw e) w Q.
Proof. intros H r w' E. inversion E; subst. exact H. Qed.

Lemma post_gets {A} (f : World -> A) w (Q : Res A -> World -> Prop) :
  Q (Ok (f w)) w -> post (gets f) w Q.
Proof. intros H r w' E. inversion E; subst. exact H. Qed.

Lemma post_modify f w (Q : Res unit -> World -> Prop) :
  Q (Ok tt) (f w) -> post (modify f) w Q.
Proof. intros H r w' E. inversion E; subst. exact H. Qed.

Lemma post_bind {A B} (m : M A) (k : A -> M B) w (Q : Res B -> World -> Prop) :
  post m w (fun r w1 => match r with
                        | Ok a => post (k a) w1 Q
                        | Throw e => Q (Throw e) w1
                        end) ->
  post (bind m k) w Q.
Proof.
  intros H r w' E. apply bind_inv in E as [[a [w1 [E1 E2]]]|[e [E1 ->]]].
  - exact (H _ _ E1 _ _ E2).
  - exact (H _ _ E1).
Qed.

Lemma post_attempt {A} (m : M A) w (Q : Res (Res A) -> World -> Prop) :
  post m w (fun r w1 => Q (Ok r) w1) -> post (attempt m) w Q.
Proof. intros H r w' E. apply attempt_inv in E as [r0 [E ->]]. exact (H _ _ E). Qed.

Lemma post_of_res {A} (x : Res A) w (Q : Res A -> World -> Prop) :
  Q x w -> post (of_res x) w Q.
Proof. destruct x; [apply post_ret | apply post_throw]. Qed.

Lemma post_weaken {A} (m : M A) w (Q Q' : Res A -> World -> Prop) :
  post m w Q -> (forall r w', Q r w' -> Q' r w') -> post m w Q'.
Proof. intros H HQ r w' E. apply HQ, H, E. Qed.

(** ** Computations that never throw *)

Lemma safe_ret {A} (a : A) : safe (ret a).
Proof. intros w r w' H. inversion H. eauto. Qed.

Lemma safe_gets {A} (f : World -> A) : safe (gets f).
Proof. intros w r w' H. inversion H. eauto. Qed.

Lemma safe_modify f : safe (modify f).
Proof. intros w r w' H. inversion H. eauto. Qed.

Lemma safe_attempt {A} (m : M A) : safe (attempt m).
Proof. intros w r w' H. apply attempt_inv in H as [r0 [_ ->]]. eauto. Qed.

Lemma safe_bind {A B} (m : M A) (k : A -> M B) :
  safe m -> (forall a, safe (k a)) -> safe (bind m k).
Proof.
  intros Hm Hk w r w' H. apply bind_inv in H as [[a [w1 [H1 H2]]]|[e [H1 _]]].
  - eapply Hk; eauto.
  - apply Hm in H1 as [a Ha]. discriminate.
Qed.

Lemma safe_out_of_fuel {A} : safe (fun _ : World => @None (Res A * World)).
Proof. intros w r w' H. discriminate. Qed.

Lemma safe_call (C : Collab Ext) {A} c (f : Ext -> Res A * Ext) :
  never_throws f -> safe (call C c f).
Proof.
  intros Hf w r w' H. unfold call in H. destruct (Hf (ext w)) as [a [e' E]].
  rewrite E in H. inversion H. eauto.
Qed.

Lemma safe_callSync {A} c (f : Ext -> Res A * Ext) :
  never_throws f -> safe (callSync c f).
Proof.
  intros Hf w r w' H. unfold callSync in H. destruct (Hf (ext w)) as [a [e' E]].
  rewrite E in H. inversion H. eauto.
Qed.

(** ** Computations that always end *)

Lemma total_ret {A} (a : A) : total (ret a).
Proof. intros w. unfold ret. eauto. Qed.

Lemma total_throw {A} e : total (@throw Ext A e).
Proof. intros w. unfold throw. eauto. Qed.

Lemma total_gets {A} (f : World -> A) : total (gets f).
Proof. intros w. unfold gets. eauto. Qed.

Lemma total_modify f : total (modify f).
Proof. intros w. unfold modify. eauto. Qed.

Lemma total_bind {A B} (m : M A) (k : A -> M B) :
  total m -> (forall a, total (k a)) -> total (bind m k).
Proof.
  intros Hm Hk w. destruct (Hm w) as [[a|e] [w1 E]].
  - destruct (Hk a w1) as [r [w' E']]. exists r, w'.
    erewrite bind_ok; eauto.
  - exists (Throw e), w1. erewrite bind_throw; eauto.
Qed.

Lemma total_attempt {A} (m : M A) : total m -> total (attempt m).
Proof.
  intros Hm w. destruct (Hm w) as [r [w' E]]. exists (Ok r), w'.
  unfold attempt. rewrite E. reflexivity.
Qed.

Lemma total_call (C : Collab Ext) {A} c (f : Ext -> Res A * Ext) : total (call C c f).
Proof. intros w. unfold call. destruct (f (ext w)). eauto. Qed.

Lemma total_callSync {A} c (f : Ext -> Res A * Ext) : total (callSync c f).
Proof. intros w. unfold callSync. destruct (f (ext w)). eauto. Qed.

(** ** Frames *)

Section Steady.

Context {X : Type}.
Variable keep : Synchronizer -> Frame -> option Lock -> X.
Variable allowed : Event -> bool.

Local Abbreviation kept := (kept (Ext:=Ext) keep).
Local Abbreviation steady := (steady (Ext:=Ext) keep allowed).
Local Abbreviation keeps := (keeps (Ext:=Ext) keep allowed).

Lemma steady_refl w : steady w w.
Proof. split; [reflexivity|]. exists []. rewrite app_nil_r. auto. Qed.

Lemma steady_trans w1 w2 w3 : steady w1 w2 -> steady w2 w3 -> steady w1 w3.
Proof.
  intros [K1 [e1 [T1 A1]]] [K2 [e2 [T2 A2]]]. split; [congruence|].
  exists (e1 ++ e2). rewrite T2, T1, app_assoc, forallb_app, A1, A2. auto.
Qed.

Lemma post_keeps {A} (m : M A) w (Q : Res A -> World -> Prop) :
  keeps m -> (forall r w', steady w w' -> Q r w') -> post m w Q.
Proof. intros Hm HQ r w' E. apply HQ. eapply Hm; eauto. Qed.

Lemma keeps_ret {A} (a : A) : keeps (ret a).
Proof. intros w r w' H. inversion H; subst. apply steady_refl. Qed.

Lemma keeps_throw {A} e : keeps (@throw Ext A e).
Proof. intros w r w' H. inversion H; subst. apply steady_refl. Qed.

Lemma keeps_gets {A} (f : World -> A) : keeps (gets f).
Proof. intros w r w' H. inversion H; subst. apply steady_refl. Qed.

Lemma keeps_of_res {A} (r : Res A) : keeps (@of_res Ext A r).
Proof. destruct r; [apply keeps_ret | apply keeps_throw]. Qed.

Lemma keeps_bind {A B} (m : M A) (k : A -> M B) :
  keeps m -> (forall a, keeps (k a)) -> keeps (bind m k).
Proof.
  intros Hm Hk w r w' H. apply bind_inv in H as [[a [w1 [H1 H2]]]|[e [H1 _]]].
  - eapply steady_trans; [eapply Hm | eapply Hk]; eauto.
  - eapply Hm; eauto.
Qed.

Lemma keeps_attempt {A} (m : M A) : keeps m -> keeps (attempt m).
Proof. intros Hm w r w' H. apply attempt_inv in H as [r0 [H _]]. eapply Hm; eauto. Qed.

Lemma keeps_modify (f : World -> World) :
  (forall w, steady w (f w)) -> keeps (modify f).
Proof. intros Hf w r w' H. inversion H; subst. apply Hf. Qed.

Lemma keeps_out_of_fuel {A} : keeps (fun _ : World => @None (Res A * World)).
Proof. intros w r w' H. discriminate. Qed.

Lemma steady_record ev w : allowed ev = true -> steady w (record ev w).
Proof.
  intros H. split; [reflexivity|]. exists [ev]. simpl. rewrite H. auto.
Qed.

Lemma steady_set_ext e w : steady w (set_ext e w).
Proof. split; [reflexivity|]. exists []. simpl. rewrite app_nil_r. auto. Qed.

Lemma steady_on_self f w :
  (forall s fr rf, keep (f s) fr rf = keep s fr rf) -> steady w (on_self f w).
Proof.
  intros H. split; [unfold kept; simpl; apply H|].
  exists []. simpl. rewrite app_nil_r. auto.
Qed.

Lemma steady_on_frame f w :
  (forall s fr rf, keep s (f fr) rf = keep s fr rf) -> steady w (on_frame f w).
Proof.
  intros H. split; [unfold kept; simpl; apply H|].
  exists []. simpl. rewrite app_nil_r. auto.
Qed.

Lemma steady_set_refresh v w :
  (forall s fr rf, keep s fr v = keep s fr rf) -> steady w (set_refresh v w).
Proof.
  intros H. split; [unfold kept; simpl; apply H|].
  exists []. simpl. rewrite app_nil_r. auto.
Qed.

Lemma steady_fold {B} (f : World -> B -> World) (l : list B) w :
  (forall w b, steady w (f w b)) -> steady w (fold_left f l w).
Proof.
  intros Hf. revert w. induction l as [|b l IH]; intros w; simpl.
  - apply steady_refl.
  - eapply steady_trans; [apply Hf | apply IH].
Qed.

Context (C : Collab Ext) {HC : Calm keep allowed}.

Local Abbreviation calm_report := (calm_report keep allowed).
Local Abbreviation calm_cancelling := (calm_cancelling keep allowed).
Local Abbreviation calm_locked := (calm_locked keep allowed).
Local Abbreviation calm_logger := (calm_logger keep allowed).
Local Abbreviation calm_progress := (calm_progress keep allowed).
Local Abbreviation calm_update := (calm_update keep allowed).
Local Abbreviation calm_queue_stop := (calm_queue_stop keep allowed).

Lemma steady_logSyncOperation action local remote message n w :
  steady w (logSyncOperation C action local remote message n w).
Proof.
  unfold logSyncOperation.
  eapply steady_trans; [apply steady_record, calm_logger|].
  eapply steady_trans; [apply steady_on_self; intros; apply calm_report|].
  eapply steady_trans; [|apply steady_record, calm_update].
  match goal with |- context [if ?b then _ else _] => destruct b end.
  - apply steady_record, calm_progress.
  - apply steady_refl.
Qed.

Lemma steady_cancel w : steady w (cancel C w).
Proof.
  unfold cancel. destruct (cancelling w || String.eqb (state w) "idle").
  - apply steady_refl.
  - eapply steady_trans; [|apply steady_on_self; intros; apply calm_cancelling].
    eapply steady_trans; [|apply steady_logSyncOperation].
    destruct (downloadQueue_ (self w)); [|apply steady_refl].
    destruct (queue_stop C (ext w)) as [r e].
    eapply steady_trans; [apply steady_set_ext|].
    apply steady_record, calm_queue_stop.
Qed.

Lemma steady_interrupt w i : steady w (interrupt C w i).
Proof.
  destruct i as [|e]; simpl.
  - apply steady_cancel.
  - destruct (refresh w); [|apply steady_refl].
    unfold onLockRefreshError.
    eapply steady_trans; [apply steady_record, calm_logger|].
    eapply steady_trans; [apply steady_on_self; intros; apply calm_locked|].
    apply steady_cancel.
Qed.

Lemma steady_resume w : steady w (resume C w).
Proof.
  unfold resume. destruct (pending C (ext w)) as [arrived e].
  eapply steady_trans; [apply steady_set_ext|].
  apply steady_fold. intros. apply steady_interrupt.
Qed.

Lemma keeps_call {A} c (f : Ext -> Res A * Ext) :
  (forall b, allowed (EvCall c b) = true) -> keeps (call C c f).
Proof.
  intros Hc w r w' H. unfold call in H. destruct (f (ext w)) as [r0 e].
  inversion H; subst.
  eapply steady_trans; [apply steady_set_ext|].
  eapply steady_trans; [apply steady_record, Hc|].
  apply steady_resume.
Qed.

Lemma keeps_callSync {A} c (f : Ext -> Res A * Ext) :
  (forall b, allowed (EvCall c b) = true) -> keeps (callSync c f).
Proof.
  intros Hc w r w' H. unfold callSync in H. destruct (f (ext w)) as [r0 e].
  inversion H; subst.
  eapply steady_trans; [apply steady_set_ext|].
  apply steady_record, Hc.
Qed.

Lemma keeps_logger l s : keeps (logger l s).
Proof. apply keeps_modify. intros. apply steady_record, calm_logger. Qed.

Lemma keeps_pushError e : keeps (pushError e).
Proof.
  apply keeps_modify. intros. apply steady_on_self. intros. apply calm_report.
Qed.

Lemma keeps_now : keeps (now C).
Proof. apply keeps_gets. Qed.

Lemma keeps_logLines lvl lines : keeps (logLines lvl lines).
Proof.
  apply keeps_modify. intros w. apply steady_fold. intros.
  apply steady_record, calm_logger.
Qed.

Lemma keeps_logLastRequests : keeps (logLastRequests C).
Proof.
  unfold logLastRequests. apply keeps_bind; [apply keeps_gets|]. intros l.
  apply keeps_logLines.
Qed.

End Steady.

End Runs.

(** Proof steps for [keeps] goals: one rule per construct of the monad. *)
Ltac keeps_side :=
  first [ reflexivity | intros []; reflexivity | intros; reflexivity ].

Ltac keeps_modify_step :=
  apply keeps_modify; intros;
  first [ apply steady_logSyncOperation; solve [typeclasses eauto]
        | apply steady_record; keeps_side
        | apply steady_on_self; keeps_side
        | apply steady_on_frame; keeps_side
        | apply steady_set_refresh; keeps_side ].

Ltac keeps_step :=
  lazymatch goal with
  | |- keeps _ _ (bind _ _) => apply keeps_bind; [| intros]
  | |- keeps _ _ (ret _) => apply keeps_ret
  | |- keeps _ _ (throw _) => apply keeps_throw
  | |- keeps _ _ (gets _) => apply keeps_gets
  | |- keeps _ _ (of_res _) => apply keeps_of_res
  | |- keeps _ _ (attempt _) => apply keeps_attempt
  | |- keeps _ _ (logger _ _) => apply keeps_logger; solve [typeclasses eauto]
  | |- keeps _ _ (pushError _) => apply keeps_pushError; solve [typeclasses eauto]
  | |- keeps _ _ (now _) => apply keeps_now
  | |- keeps _ _ (dispatch _) => unfold dispatch
  | |- keeps _ _ (logLastRequests _) => apply keeps_logLastRequests; solve [typeclasses eauto]
  | |- keeps _ _ (logLines _ _) => apply keeps_logLines; solve [typeclasses eauto]
  | |- keeps _ _ (modify _) => keeps_modify_step
  | |- keeps _ _ (call _ _ _) => apply keeps_call; [solve [typeclasses eauto] | keeps_side]
  | |- keeps _ _ (callSync _ _) => apply keeps_callSync; keeps_side
  | |- keeps _ _ (fun _ => None) => apply keeps_out_of_fuel
  | |- keeps _ _ (match ?x with _ => _ end) => destruct x
  end.

Ltac post_step :=
  lazymatch goal with
  | |- post (bind _ _) _ _ => apply post_bind
  | |- post (ret _) _ _ => apply post_ret
  | |- post (throw _) _ _ => apply post_throw
  | |- post (gets _) _ _ => apply post_gets
  | |- post (modify _) _ _ => apply post_modify
  | |- post (attempt _) _ _ => apply post_attempt
  | |- post (of_res _) _ _ => apply post_of_res
  | |- post (logger _ _) _ _ => apply post_modify
  | |- post (dispatch _) _ _ => apply post_modify
  | |- post (pushError _) _ _ => apply post_modify
  | |- post (now _) _ _ => apply post_gets
  end.

Ltac safe_step :=
  lazymatch goal with
  | |- safe (bind _ _) => apply safe_bind; [| intros]
  | |- safe (ret _) => apply safe_ret
  | |- safe (gets _) => apply safe_gets
  | |- safe (modify _) => apply safe_modify
  | |- safe (attempt _) => apply safe_attempt
  | |- safe (logger _ _) => apply safe_modify
  | |- safe (dispatch _) => apply safe_modify
  | |- safe (pushError _) => apply safe_modify
  | |- safe (logLines _ _) => apply safe_modify
  | |- safe (now _) => apply safe_gets
  | |- safe (call _ _ _) => apply safe_call; solve [auto]
  | |- safe (callSync _ _) => apply safe_callSync; solve [auto]
  | |- safe (match ?x with _ => _ end) => destruct x
  end.

Ltac safe_auto := repeat (first [ assumption | safe_step ]).

Ltac total_step :=
  lazymatch goal with
  | |- total (bind _ _) => apply total_bind; [| intros]
  | |- total (ret _) => apply total_ret
  | |- total (throw _) => apply total_throw
  | |- total (gets _) => apply total_gets
  | |- total (modify _) => apply total_modify
  | |- total (attempt _) => apply total_attempt
  | |- total (logger _ _) => apply total_modify
  | |- total (dispatch _) => apply total_modify
  | |- total (pushError _) => apply total_modify
  | |- total (logLines _ _) => apply total_modify
  | |- total (now _) => apply total_gets
  | |- total (call _ _ _) => apply total_call
  | |- total (callSync _ _) => apply total_callSync
  | |- total (match ?x with _ => _ end) => destruct x
  end.

Ltac total_auto := repeat (first [ assumption | total_step ]).

(** Inversion of a [bind] whose first computation is a [gets] or a
    [modify]. *)
Ltac inv_pure H :=
  let E := fresh "E" in
  let a := fresh "a" in
  let w1 := fresh "w" in
  apply bind_inv in H as [[a [w1 [E H]]]|[? [E _]]];
  [ inversion E; subst a w1; clear E | discriminate E ].

Create HintDb keeps_db.

Ltac keeps_auto :=
  repeat (first [ assumption | solve [auto 1 with keeps_db nocore] | keeps_step ]).

(** The blocks of [start] that are not loops. *)
Ltac unfold_blocks :=
  unfold uploadStep, deleteRemoteStep, deltaStep, processPage, recordPage,
    processRemote, saveRemoteContent, decideDeltaAction, loadContent,
    uploadItem, applyUploadAction, takeRemoteVersion, uploadItemMetadata,
    tryUploadItem, uploadResourceBlob, decideUploadAction,
    completeItemProcessing, saveFromSync, handleCannotSyncItem, apiCall,
    lockErrorStatus_, dispatch.

(** * Properties of the synchronizer *)

Section Properties.

Context {Ext : Type} (C : Collab Ext).

Local Abbreviation World := (World Ext).
Local Abbreviation M := (M Ext).
Local Abbreviation onlyLogs := (onlyLogs (Ext:=Ext)).
Local Abbreviation logsOnly := (logsOnly (Ext:=Ext)).
Local Abbreviation cancelSeen := (cancelSeen (Ext:=Ext)).
Local Abbreviation savedFollows := (savedFollows (Ext:=Ext)).

(** ** The lock frame

    Outside the acquisition and the release of the sync lock, nothing in a
    run touches the lock handler's locks, the [syncLock] and [errorToThrow]
    variables, the state of the synchronizer or its configuration. *)

#[local] Instance lock_calm : Calm lockKeep notLockEvent.
Proof. split; intros; reflexivity. Qed.

Lemma lock_uploadItem result local :
  keeps lockKeep notLockEvent (uploadItem C result local).
Proof. unfold_blocks. keeps_auto. Qed.

Lemma lock_uploadItems result locals :
  keeps lockKeep notLockEvent (uploadItems C result locals).
Proof.
  induction locals as [|local rest IH]; simpl; [apply keeps_ret|].
  pose proof (lock_uploadItem result local). keeps_auto.
Qed.

Lemma lock_uploadLoop fuel : keeps lockKeep notLockEvent (uploadLoop C fuel).
Proof.
  induction fuel as [|fuel IH]; simpl; [apply keeps_out_of_fuel|].
  pose proof (lock_uploadItems). keeps_auto.
Qed.

Lemma lock_deleteRemoteItems items :
  keeps lockKeep notLockEvent (deleteRemoteItems C items).
Proof.
  induction items as [|item rest IH]; simpl; [apply keeps_ret|].
  unfold_blocks. keeps_auto.
Qed.

Lemma lock_enqueueDownloads locals remotes :
  keeps lockKeep notLockEvent (enqueueDownloads C locals remotes).
Proof.
  induction remotes as [|remote rest IH]; simpl; [apply keeps_ret|]. keeps_auto.
Qed.

Lemma lock_processRemote masterKeysBefore locals remote :
  keeps lockKeep notLockEvent (processRemote C masterKeysBefore locals remote).
Proof. unfold_blocks. keeps_auto. Qed.

Lemma lock_processRemotes masterKeysBefore locals remotes :
  keeps lockKeep notLockEvent (processRemotes C masterKeysBefore locals remotes).
Proof.
  induction remotes as [|remote rest IH]; simpl; [apply keeps_ret|].
  pose proof (lock_processRemote masterKeysBefore locals remote). keeps_auto.
Qed.

Lemma lock_deltaLoop options masterKeysBefore fuel :
  keeps lockKeep notLockEvent (deltaLoop C options masterKeysBefore fuel).
Proof.
  induction fuel as [|fuel IH]; simpl; [apply keeps_out_of_fuel|].
  pose proof lock_enqueueDownloads. pose proof lock_processRemotes.
  unfold_blocks. keeps_auto.
Qed.

Lemma lock_deleteLocalFolders folders :
  keeps lockKeep notLockEvent (deleteLocalFolders C folders).
Proof.
  induction folders as [|item rest IH]; simpl; [apply keeps_ret|]. keeps_auto.
Qed.

Lemma lock_runSteps options lastContext steps masterKeysBefore fuel :
  keeps lockKeep notLockEvent
    (runSteps C options lastContext steps masterKeysBefore fuel).
Proof.
  pose proof lock_uploadLoop. pose proof lock_deleteRemoteItems.
  pose proof lock_deltaLoop. pose proof lock_deleteLocalFolders.
  unfold runSteps. unfold_blocks. keeps_auto.
Qed.

Lemma lock_prepareTarget : keeps lockKeep notLockEvent (prepareTarget C).
Proof. unfold prepareTarget. keeps_auto. Qed.

Lemma lock_onSyncError error : keeps lockKeep notLockEvent (onSyncError C false error).
Proof. unfold onSyncError. keeps_auto. Qed.

(** ** [apiCall] and the lock errors *)

Lemma lockErrorStatus_codes w lockStatus w' :
  lockErrorStatus_ C w = Some (Ok lockStatus, w') ->
  lockStatus = "" \/ lockStatus = "hasExclusiveLock" \/ lockStatus = "syncLockGone".
Proof.
  unfold lockErrorStatus_. intros H.
  apply bind_inv in H as [[x [w1 [_ H]]]|[e [_ H]]]; [|discriminate].
  destruct x; [inversion H; auto|].
  apply bind_inv in H as [[who [w2 [_ H]]]|[e [_ H]]]; [|discriminate].
  apply bind_inv in H as [[y [w3 [_ H]]]|[e [_ H]]]; [|discriminate].
  destruct y; inversion H; auto.
Qed.


(** ** Entering [start] *)

#[local] Instance state_calm : Calm stateKeep anyEvent.
Proof. split; intros; reflexivity. Qed.

Lemma keeps_weaken {X Y A} (k1 : Synchronizer -> Frame -> option Lock -> X)
    (k2 : Synchronizer -> Frame -> option Lock -> Y) (a1 a2 : Event -> bool)
    (m : M A) :
  (forall s fr rf s' fr' rf', k1 s' fr' rf' = k1 s fr rf -> k2 s' fr' rf' = k2 s fr rf) ->
  (forall ev, a1 ev = true -> a2 ev = true) ->
  keeps k1 a1 m -> keeps k2 a2 m.
Proof.
  intros Hk Ha Hm w r w' H. destruct (Hm w r w' H) as [K [evs [T F]]].
  split; [apply Hk, K|]. exists evs. split; [exact T|].
  rewrite forallb_forall in *. auto.
Qed.

Lemma state_uploadStep fuel : keeps stateKeep anyEvent (uploadStep C fuel).
Proof.
  eapply keeps_weaken with (k1 := lockKeep) (a1 := notLockEvent);
    [intros; unfold lockKeep, stateKeep in *; congruence | reflexivity |].
  pose proof lock_uploadLoop. unfold_blocks. keeps_auto.
Qed.

(** ** The end of a run *)

Lemma holdsLock_notLock evs held :
  forallb notLockEvent evs = true -> holdsLock evs held = held.
Proof.
  unfold holdsLock. revert held. induction evs as [|ev evs IH]; intros held H; simpl in *.
  - reflexivity.
  - apply andb_prop in H as [H1 H2]. rewrite IH by assumption.
    destruct ev as [[] []| | | | |]; try reflexivity; discriminate.
Qed.

Lemma refreshes_notLock evs running :
  forallb notLockEvent evs = true -> refreshes evs running = running.
Proof.
  unfold refreshes. revert running.
  induction evs as [|ev evs IH]; intros running H; simpl in *.
  - reflexivity.
  - apply andb_prop in H as [H1 H2]. rewrite IH by assumption.
    destruct ev as [[] []| | | | |]; try reflexivity; discriminate.
Qed.

Lemma holdsLock_app e1 e2 held :
  holdsLock (e1 ++ e2) held = holdsLock e2 (holdsLock e1 held).
Proof. apply fold_left_app. Qed.

Lemma refreshes_app e1 e2 running :
  refreshes (e1 ++ e2) running = refreshes e2 (refreshes e1 running).
Proof. apply fold_left_app. Qed.

#[local] Instance tidy_calm : Calm tidyKeep notLockEvent.
Proof. split; intros; reflexivity. Qed.

Lemma call_ok_inv {A} c (f : Ext -> Res A * Ext) w r w' :
  never_throws f -> call C c f w = Some (r, w') ->
  exists a e', f (ext w) = (Ok a, e') /\ r = Ok a
               /\ w' = resume C (record (EvCall c true) (set_ext e' w)).
Proof.
  intros Hf H. unfold call in H. destruct (Hf (ext w)) as [a [e' E]].
  rewrite E in H. inversion H; subst. eauto.
Qed.

Lemma callSync_ok_inv {A} c (f : Ext -> Res A * Ext) w r w' :
  never_throws f -> callSync c f w = Some (r, w') ->
  exists a e', f (ext w) = (Ok a, e') /\ r = Ok a
               /\ w' = record (EvCall c true) (set_ext e' w).
Proof.
  intros Hf H. unfold callSync in H. destruct (Hf (ext w)) as [a [e' E]].
  rewrite E in H. inversion H; subst. eauto.
Qed.

Lemma tidy_steady_inv (w w' : World) :
  steady tidyKeep notLockEvent w w' ->
  state w' = state w /\ frame w' = frame w /\ refresh w' = refresh w
  /\ exists evs, trace w' = trace w ++ evs /\ forallb notLockEvent evs = true.
Proof.
  intros [K T]. unfold kept, tidyKeep in K. inversion K. unfold state. auto.
Qed.

(** After [releaseSyncLock]: nothing happened when [syncLock] is null;
    otherwise the refresh was stopped and the lock released, in this order,
    and no lock handler call follows. *)
Lemma releaseSyncLock_post w :
  Housekeeping C ->
  post (releaseSyncLock C) w (fun r (w' : World) =>
    r = Ok tt /\ state w' = state w /\ frame w' = frame w
    /\ match syncLock (frame w) with
       | Some lock =>
           refresh w' = None
           /\ exists evs,
                trace w' = trace w
                           ++ EvCall (c_stopAutoLockRefresh lock) true
                           :: EvCall (c_releaseLock LockSync (appType_ (self w))
                                                    (clientId_ (self w))) true
                           :: evs
                /\ forallb notLockEvent evs = true
       | None => w' = w
       end).
Proof.
  intros HK r w' H. unfold releaseSyncLock in H.
  apply bind_inv in H as [[l [w1 [E H]]]|[e [E _]]]; [|discriminate].
  inversion E; subst; clear E. destruct (syncLock (frame w1)) as [lock|] eqn:L.
  - apply bind_inv in H as [[u [w2 [E H]]]|[e [E _]]].
    2:{ apply callSync_ok_inv in E as [a [e' [_ [E _]]]]; [discriminate|apply HK]. }
    apply callSync_ok_inv in E as [a [e' [_ [_ ->]]]]; [|apply HK].
    apply bind_inv in H as [[u' [w3 [E H]]]|[e [E _]]]; [|discriminate].
    inversion E; subst; clear E.
    apply bind_inv in H as [[at_ [w3 [E H]]]|[e [E _]]]; [|discriminate].
    inversion E; subst; clear E.
    apply bind_inv in H as [[ci [w4 [E H]]]|[e [E _]]]; [|discriminate].
    inversion E; subst; clear E.
    apply call_ok_inv in H as [a' [e'' [_ [-> ->]]]]; [|apply HK].
    match goal with |- context [resume C ?x] =>
      destruct (tidy_steady_inv x (resume C x) (steady_resume _ _ C x))
        as [S [F [R [evs [T A]]]]] end.
    destruct a'. rewrite S, F, R, T. simpl.
    repeat split; try reflexivity.
    exists evs. rewrite <- !app_assoc. simpl. auto.
  - inversion H; subst. auto.
Qed.

Lemma tidy_closeReport sid : keeps tidyKeep notLockEvent (closeReport C sid).
Proof. unfold closeReport, logSyncSummary. keeps_auto. Qed.

Lemma safe_closeReport sid : Housekeeping C -> safe (closeReport C sid).
Proof.
  intros [H1 H2 H3 H4]. unfold closeReport, logSyncSummary, logLastRequests.
  safe_auto.
Qed.

Lemma finishSync_post steps sid (w : World) :
  Housekeeping C ->
  post (finishSync C steps sid) w (fun r (w' : World) =>
    state w' = "idle" /\ frame w' = frame w
    /\ r = match errorToThrow (frame w) with
           | Some e => Throw e
           | None => Ok (outputContext (frame w))
           end
    /\ exists evs,
         trace w' = trace w ++ evs ++ [EvDispatch (SYNC_COMPLETED (isFullSync steps))]
         /\ match syncLock (frame w) with
            | Some lock =>
                refresh w' = None
                /\ (forall h, holdsLock evs h = false)
                /\ (forall h, refreshes evs h = false)
            | None => refresh w' = refresh w /\ forallb notLockEvent evs = true
            end).
Proof.
  intros HK r w' H. unfold finishSync in H.
  apply bind_inv in H as [[u [w1 [E1 H]]]|[e [E1 _]]];
    [|apply (releaseSyncLock_post _ HK) in E1 as [? _]; discriminate].
  apply (releaseSyncLock_post _ HK) in E1 as [_ [S1 [F1 L1]]].
  apply bind_inv in H as [[u2 [w2 [E2 H]]]|[e [E2 _]]];
    [|apply (safe_closeReport _ HK) in E2 as [? ?]; discriminate].
  apply tidy_closeReport, tidy_steady_inv in E2 as [S2 [F2 [R2 [evs2 [T2 A2]]]]].
  unfold dispatch, modify, gets, bind in H. simpl in H.
  assert (Hr : r = match errorToThrow (frame w) with
                   | Some e => Throw e
                   | None => Ok (outputContext (frame w))
                   end
               /\ w' = on_self (set_state_ "idle")
                         (record (EvDispatch (SYNC_COMPLETED (isFullSync steps))) w2)).
  { rewrite <- F1, <- F2. destruct (errorToThrow (frame w2)); inversion H; auto. }
  destruct Hr as [-> ->]. simpl. repeat split; try congruence.
  destruct (syncLock (frame w)) as [lock|].
  - destruct L1 as [R1 [evs1 [T1 A1]]].
    eexists (_ :: _ :: evs1 ++ evs2). rewrite T2, T1.
    split; [rewrite <- !app_assoc; simpl; rewrite <- !app_assoc; reflexivity|].
    split; [congruence|]. unfold holdsLock, refreshes. simpl.
    split; intros h.
    + fold (holdsLock (evs1 ++ evs2) false). apply holdsLock_notLock.
      rewrite forallb_app, A1, A2. reflexivity.
    + fold (refreshes (evs1 ++ evs2) false). apply refreshes_notLock.
      rewrite forallb_app, A1, A2. reflexivity.
  - subst w1. exists evs2. rewrite T2, <- app_assoc. auto.
Qed.

(** ** The beginning of a run *)

Lemma beginSync_post options (w : World) :
  Housekeeping C ->
  post (beginSync C options) w (fun r (w' : World) =>
    (exists masterKeysBefore sid, r = Ok (lastContextOf options, masterKeysBefore, sid))
    /\ state w' = "in_progress"
    /\ frame w' = set_outputContext (lastContextOf options) newFrame
    /\ refresh w' = refresh w
    /\ exists evs, trace w' = trace w ++ evs /\ forallb notLockEvent evs = true).
Proof.
  intros HK r w' H. unfold beginSync in H.
  do 5 inv_pure H.
  apply bind_inv in H as [[n [w1 [E H]]]|[e [E _]]];
    [|apply call_ok_inv in E as [? [? [_ [? _]]]]; [discriminate|apply HK]].
  assert (St1 : steady tidyKeep notLockEvent _ w1)
    by (eapply (keeps_call tidyKeep notLockEvent C (c_count TYPE_MASTER_KEY));
        [intros; reflexivity | exact E]).
  apply tidy_steady_inv in St1 as [S1 [F1 [R1 [evs1 [T1 A1]]]]].
  do 2 inv_pure H.
  match type of H with
  | ?m ?w0 = _ =>
      assert (K : keeps tidyKeep notLockEvent m) by keeps_auto;
      assert (Sf : safe m) by (destruct HK; safe_auto);
      pose proof (K _ _ _ H) as St2; pose proof (Sf _ _ _ H) as [x Hx]
  end.
  apply tidy_steady_inv in St2 as [S2 [F2 [R2 [evs2 [T2 A2]]]]].
  simpl in *. subst r.
  split.
  - clear - H. repeat (apply bind_inv in H as [[? [? [_ H]]]|[? [_ H]]]; [|discriminate]).
    inversion H. eauto.
  - unfold state, lastContextOf in *. simpl in *.
    split; [congruence|]. split; [exact F2|]. split; [congruence|].
    exists (evs1 ++ evs2). rewrite T2, T1, <- app_assoc, forallb_app, A1, A2. auto.
Qed.

(** ** The [try] block and the lock *)

Lemma notLock_noGain ev : notLockEvent ev = true -> noLockGain ev = true.
Proof. destruct ev as [[] []| | | | |]; simpl; auto. Qed.

Lemma forallb_notLock_noGain evs :
  forallb notLockEvent evs = true -> forallb noLockGain evs = true.
Proof.
  rewrite !forallb_forall. intros H ev Hin. apply notLock_noGain, H, Hin.
Qed.

Lemma holdsLock_noGain evs :
  forallb noLockGain evs = true -> holdsLock evs false = false.
Proof.
  unfold holdsLock. induction evs as [|ev evs IH] using rev_ind; intros H; simpl.
  - reflexivity.
  - rewrite forallb_app in H. apply andb_prop in H as [H1 H2].
    rewrite fold_left_app. simpl. rewrite IH by assumption.
    simpl in H2. destruct ev as [[] []| | | | |]; try reflexivity; try discriminate.
    all: match goal with t : LockType |- _ => destruct t end; reflexivity.
Qed.

Lemma refreshes_noGain evs :
  forallb noLockGain evs = true -> refreshes evs false = false.
Proof.
  unfold refreshes. induction evs as [|ev evs IH] using rev_ind; intros H; simpl.
  - reflexivity.
  - rewrite forallb_app in H. apply andb_prop in H as [H1 H2].
    rewrite fold_left_app. simpl. rewrite IH by assumption.
    simpl in H2. destruct ev as [[] []| | | | |]; try reflexivity; discriminate.
Qed.

#[local] Instance gain_calm : Calm gainKeep noLockGain.
Proof. split; intros; reflexivity. Qed.

#[local] Instance held_calm : Calm heldKeep anyEvent.
Proof. split; intros; reflexivity. Qed.

Lemma lock_to_gain {A} (m : M A) :
  keeps lockKeep notLockEvent m -> keeps gainKeep noLockGain m.
Proof.
  apply keeps_weaken; [|apply notLock_noGain].
  unfold lockKeep, gainKeep. intros. congruence.
Qed.

Lemma lock_to_held {A} (m : M A) :
  keeps lockKeep notLockEvent m -> keeps heldKeep anyEvent m.
Proof.
  apply keeps_weaken; [|reflexivity].
  unfold lockKeep, heldKeep. intros. congruence.
Qed.

Lemma gain_steady_inv (w w' : World) :
  steady gainKeep noLockGain w w' ->
  state w' = state w /\ syncLock (frame w') = syncLock (frame w)
  /\ errorToThrow (frame w') = errorToThrow (frame w) /\ refresh w' = refresh w
  /\ exists evs, trace w' = trace w ++ evs /\ forallb noLockGain evs = true.
Proof.
  intros [K T]. unfold kept, gainKeep in K. inversion K. unfold state. auto.
Qed.

Lemma held_steady_inv (w w' : World) :
  steady heldKeep anyEvent w w' ->
  state w' = state w /\ syncLock (frame w') = syncLock (frame w)
  /\ errorToThrow (frame w') = errorToThrow (frame w)
  /\ exists evs, trace w' = trace w ++ evs.
Proof.
  intros [K [evs [T _]]]. unfold kept, heldKeep in K. inversion K.
  unfold state. eauto 6.
Qed.

(** The [try] block keeps the state and [errorToThrow]; it records events
    only; and when it leaves [syncLock] null, it has neither taken the lock
    nor started a refresh. *)
Lemma syncBody_post options lastContext steps masterKeysBefore fuel (w : World) :
  syncLock (frame w) = None ->
  post (syncBody C options lastContext steps masterKeysBefore fuel) w
    (fun r (w1 : World) =>
       state w1 = state w
       /\ errorToThrow (frame w1) = errorToThrow (frame w)
       /\ exists evs,
            trace w1 = trace w ++ evs
            /\ (syncLock (frame w1) = None ->
                refresh w1 = refresh w /\ forallb noLockGain evs = true)).
Proof.
  intros L r w1 H. unfold syncBody in H.
  apply bind_inv in H as [[u [wa [E H]]]|[e [E _]]].
  2:{ apply lock_to_gain in E; [|apply lock_prepareTarget].
      apply gain_steady_inv in E as [S [_ [ET [R [evs [T A]]]]]].
      split; [assumption|]. split; [assumption|]. exists evs. auto. }
  apply lock_to_gain in E; [|apply lock_prepareTarget].
  apply gain_steady_inv in E as [Sa [La [ETa [Ra [evsa [Ta Aa]]]]]].
  do 2 inv_pure H.
  apply bind_inv in H as [[lock [wb [E H]]]|[e [E _]]].
  - assert (St : steady heldKeep anyEvent wa wb)
      by (eapply (keeps_call heldKeep anyEvent C); [|exact E]; reflexivity).
    apply held_steady_inv in St as [Sb [Lb [ETb [evsb Tb]]]].
    inv_pure H.
    match type of H with
    | ?m ?w0 = _ =>
        assert (K : keeps heldKeep anyEvent m)
          by (pose proof (lock_to_held _
                (lock_runSteps options lastContext steps masterKeysBefore fuel));
              keeps_auto);
        apply K, held_steady_inv in H as [Sc [Lc [ETc [evsc Tc]]]]
    end.
    unfold state in *. simpl in *.
    split; [congruence|]. split; [congruence|].
    exists (evsa ++ evsb ++ evsc). split.
    + rewrite Tc. simpl. rewrite Tb, Ta, <- !app_assoc. reflexivity.
    + intros N. congruence.
  - assert (St : steady gainKeep noLockGain wa w1).
    { unfold call in E. destruct (acquireLock C LockSync _ _ (ext wa)) as [[l|e0] e'];
        inversion E; subst.
      eapply steady_trans; [|apply steady_resume; typeclasses eauto].
      eapply steady_trans; [apply steady_set_ext|].
      apply steady_record. reflexivity. }
    apply gain_steady_inv in St as [Sb [Lb [ETb [Rb [evsb [Tb Ab]]]]]].
    split; [congruence|]. split; [congruence|].
    exists (evsa ++ evsb). split.
    + rewrite Tb, Ta, <- app_assoc. reflexivity.
    + intros _. split; [congruence|]. rewrite forallb_app, Aa, Ab. reflexivity.
Qed.

(** ** The [catch] block *)

Lemma safe_onSyncError throwOnError error : safe (onSyncError C throwOnError error).
Proof. unfold onSyncError, logLastRequests. safe_auto. Qed.

#[local] Instance catch_calm : Calm catchKeep notLockEvent.
Proof. split; intros; reflexivity. Qed.

Lemma catch_onSyncError throwOnError error :
  keeps catchKeep notLockEvent (onSyncError C throwOnError error).
Proof. unfold onSyncError. keeps_auto. Qed.

Lemma catch_steady_inv (w w' : World) :
  steady catchKeep notLockEvent w w' ->
  state w' = state w /\ syncLock (frame w') = syncLock (frame w)
  /\ outputContext (frame w') = outputContext (frame w) /\ refresh w' = refresh w
  /\ exists evs, trace w' = trace w ++ evs /\ forallb notLockEvent evs = true.
Proof.
  intros [K T]. unfold kept, catchKeep in K. inversion K. unfold state. auto.
Qed.

(** ** The shape of a run of [start] *)

(** A run of [start] from the idle state: the beginning, the [try] block,
    the [catch] block when the [try] block threw, and the end. *)
Lemma start_inv options fuel (w : World) r w' :
  Housekeeping C -> state w = "idle" ->
  start C options fuel w = Some (r, w') ->
  exists masterKeysBefore sid w0 rb w1 w2,
    beginSync C options w = Some (Ok (lastContextOf options, masterKeysBefore, sid), w0)
    /\ syncBody C options (lastContextOf options) (stepsOf options)
                masterKeysBefore fuel w0 = Some (rb, w1)
    /\ match rb with
       | Ok _ => w2 = w1
       | Throw error => onSyncError C (throwOnError options) error w1 = Some (Ok tt, w2)
       end
    /\ finishSync C (stepsOf options) sid w2 = Some (r, w').
Proof.
  intros HK I H. unfold start in H. inv_pure H. rewrite I in H. simpl in H.
  apply bind_inv in H as [[x [w0 [E0 H]]]|[e [E0 _]]];
    [|apply (beginSync_post _ _ HK) in E0 as [[? [? ?]] _]; discriminate].
  pose proof (beginSync_post _ _ HK _ _ E0) as [[mk [sid Hx]] _].
  inversion Hx; subst x; clear Hx.
  apply bind_inv in H as [[u [w2 [E H]]]|[e [E _]]].
  - apply bind_inv in E as [[rb [w1 [E1 E2]]]|[e [E1 _]]];
      [|apply attempt_inv in E1 as [? [_ ?]]; discriminate].
    apply attempt_inv in E1 as [rb' [E1 Hrb]]. inversion Hrb; subst rb; clear Hrb.
    exists mk, sid, w0, rb', w1, w2. split; [exact E0|]. split; [exact E1|].
    split; [|exact H].
    destruct rb' as [[]|error].
    + inversion E2. reflexivity.
    + destruct u. exact E2.
  - apply bind_inv in E as [[rb [w1 [E1 E2]]]|[e' [E1 _]]];
      [|apply attempt_inv in E1 as [? [_ ?]]; discriminate].
    destruct rb as [[]|error]; [discriminate E2|].
    apply safe_onSyncError in E2 as [? ?]. discriminate.
Qed.


Lemma total_finishSync steps sid : total (finishSync C steps sid).
Proof.
  unfold finishSync, releaseSyncLock, closeReport, logSyncSummary. total_auto.
Qed.

Lemma total_onSyncError throwOnError error : total (onSyncError C throwOnError error).
Proof. unfold onSyncError, logLastRequests. total_auto. Qed.

Lemma state_beginSync options (w : World) :
  post (beginSync C options) w (fun _ (w' : World) => state w' = "in_progress").
Proof.
  intros r w' H. unfold beginSync in H. inv_pure H.
  match type of H with
  | ?m ?w0 = _ =>
      assert (K : keeps stateKeep anyEvent m) by keeps_auto;
      apply K in H as [S _]
  end.
  exact S.
Qed.

Lemma state_syncBody options lastContext steps masterKeysBefore fuel :
  keeps stateKeep anyEvent (syncBody C options lastContext steps masterKeysBefore fuel).
Proof.
  assert (W : forall A (m : M A),
             keeps lockKeep notLockEvent m -> keeps stateKeep anyEvent m).
  { intros A m. apply keeps_weaken; [|reflexivity].
    unfold lockKeep, stateKeep. intros. congruence. }
  pose proof (W _ _ lock_prepareTarget).
  pose proof (W _ _ (lock_runSteps options lastContext steps masterKeysBefore fuel)).
  unfold syncBody. keeps_auto.
Qed.

(** C8.  Called while the state is not [idle], [start] throws an error whose
    code is [alreadyStarted] and leaves the world, hence the state of the
    synchronizer, as it was.  Called in the idle state it goes on with the
    run, whose first assignment sets the state to [in_progress]: that is the
    state at the end of the beginning of the run, and the state in which the
    [try] block ends. *)
Theorem start_alreadyStarted options fuel (w : World) :
  (state w <> "idle" ->
     exists e, start C options fuel w = Some (Throw e, w)
               /\ code e = "alreadyStarted")
  /\ (state w = "idle" ->
      start C options fuel w
      = (let* (lastContext, masterKeysBefore, synchronizationId) := beginSync C options in
         (try syncBody C options lastContext (stepsOf options) masterKeysBefore fuel
          catch error => onSyncError C (throwOnError options) error);;
         finishSync C (stepsOf options) synchronizationId) w
      /\ forall r0 w0,
           beginSync C options w = Some (r0, w0) ->
           state w0 = "in_progress"
           /\ forall lastContext masterKeysBefore rb w1,
                syncBody C options lastContext (stepsOf options) masterKeysBefore fuel w0
                = Some (rb, w1) ->
                state w1 = "in_progress").
Proof.
  split.
  - intros N. unfold start, bind, gets.
    destruct (String.eqb (state w) "idle") eqn:E.
    + apply String.eqb_eq in E. contradiction.
    + simpl. eexists. split; reflexivity.
  - intros I. split.
    + unfold start at 1. unfold bind at 1. unfold gets. rewrite I. reflexivity.
    + intros r0 w0 E0. apply state_beginSync in E0. split; [exact E0|].
      intros lc mk rb w1 E1. apply state_syncBody in E1 as [S _].
      unfold kept, stateKeep in S. unfold state in *. congruence.
Qed.

(** ** Errors of the [try] block *)

Lemma withErrors_nil s : withErrors [] s = s.
Proof.
  unfold withErrors. rewrite app_nil_r. destruct s as [? ? ? ? ? ? ? ? ? ? ? ? []].
  reflexivity.
Qed.

Lemma withErrors_app a b s : withErrors b (withErrors a s) = withErrors (a ++ b) s.
Proof. unfold withErrors. simpl. rewrite app_assoc. reflexivity. Qed.

Lemma onlyLogs_refl w : onlyLogs w w.
Proof.
  repeat (split; [reflexivity|]). split.
  - exists []. symmetry. apply withErrors_nil.
  - exists []. rewrite app_nil_r. auto.
Qed.

Lemma onlyLogs_trans w1 w2 w3 : onlyLogs w1 w2 -> onlyLogs w2 w3 -> onlyLogs w1 w3.
Proof.
  intros [F1 [R1 [X1 [[m1 S1] [l1 [T1 A1]]]]]] [F2 [R2 [X2 [[m2 S2] [l2 [T2 A2]]]]]].
  split; [congruence|]. split; [congruence|]. split; [congruence|]. split.
  - exists (m1 ++ m2). rewrite S2, S1. apply withErrors_app.
  - exists (l1 ++ l2). rewrite T2, T1, app_assoc, forallb_app, A1, A2. auto.
Qed.

Lemma onlyLogs_logger l line (w : World) : onlyLogs w (record (EvLogger l line) w).
Proof.
  repeat (split; [reflexivity|]). split.
  - exists []. symmetry. apply withErrors_nil.
  - exists [EvLogger l line]. auto.
Qed.

Lemma onlyLogs_push e (w : World) : onlyLogs w (on_self (withErrors [e]) w).
Proof.
  repeat (split; [reflexivity|]). split.
  - exists [e]. reflexivity.
  - exists []. simpl. rewrite app_nil_r. auto.
Qed.

Lemma onlyLogs_lines l lines (w : World) :
  onlyLogs w (fold_left (fun w line => record (EvLogger l line) w) lines w).
Proof.
  revert w. induction lines as [|line lines IH]; intros w; simpl.
  - apply onlyLogs_refl.
  - eapply onlyLogs_trans; [apply onlyLogs_logger | apply IH].
Qed.

Lemma logsOnly_bind {A B} (m : M A) (k : A -> M B) :
  logsOnly m -> (forall a, logsOnly (k a)) -> logsOnly (bind m k).
Proof.
  intros Hm Hk w r w' H. apply bind_inv in H as [[a [w1 [H1 H2]]]|[e [H1 _]]].
  - eapply onlyLogs_trans; [eapply Hm | eapply Hk]; eauto.
  - eapply Hm; eauto.
Qed.

Lemma logsOnly_ret {A} (a : A) : logsOnly (ret a).
Proof. intros w r w' H. inversion H; subst. apply onlyLogs_refl. Qed.

Lemma logsOnly_gets {A} (f : World -> A) : logsOnly (gets f).
Proof. intros w r w' H. inversion H; subst. apply onlyLogs_refl. Qed.

Lemma logsOnly_logger l line : logsOnly (logger l line).
Proof. intros w r w' H. inversion H; subst. apply onlyLogs_logger. Qed.

Lemma logsOnly_pushError e : logsOnly (pushError e).
Proof. intros w r w' H. inversion H; subst. apply (onlyLogs_push e). Qed.

Lemma logsOnly_logLines l lines : logsOnly (logLines l lines).
Proof. intros w r w' H. inversion H; subst. apply onlyLogs_lines. Qed.

(** Without [throwOnError], the [catch] block only writes to the log and to
    the [errors] list of the report. *)
Lemma onSyncError_logsOnly error : logsOnly (onSyncError C false error).
Proof.
  unfold onSyncError, logLastRequests.
  repeat first
    [ apply logsOnly_bind; [| intros]
    | apply logsOnly_ret | apply logsOnly_gets | apply logsOnly_logger
    | apply logsOnly_pushError | apply logsOnly_logLines
    | match goal with |- logsOnly (match ?x with _ => _ end) => destruct x end ].
Qed.

Lemma self_logLines level lines (w : World) :
  self (fold_left (fun w line => record (EvLogger level line) w) lines w) = self w.
Proof.
  revert w. induction lines as [|l lines IH]; intros w; simpl; [reflexivity|].
  rewrite IH. reflexivity.
Qed.

Lemma trace_logLines level lines (w : World) :
  trace (fold_left (fun w line => record (EvLogger level line) w) lines w)
  = trace w ++ map (EvLogger level) lines.
Proof.
  revert w. induction lines as [|l lines IH]; intros w; simpl.
  - rewrite app_nil_r. reflexivity.
  - rewrite IH. simpl. rewrite <- app_assoc. reflexivity.
Qed.

(** Without [throwOnError], the [catch] block logs the message of the
    error first, and appends to the report's [errors] what [caughtEntries]
    says. *)
Lemma onSyncError_effect error (w w' : World) r :
  onSyncError C false error w = Some (r, w') ->
  r = Ok tt
  /\ self w' = withErrors (caughtEntries C error) (self w)
  /\ exists lines,
       trace w' = trace w ++ EvLogger (caughtLevel error) (message error) :: lines.
Proof.
  unfold onSyncError, caughtEntries, caughtLevel, logLastRequests, has.
  cbn [existsb].
  destruct (String.eqb (code error) "cannotEncryptEncrypted"),
    (String.eqb (code error) "noActiveMasterKey"),
    (String.eqb (code error) "processingPathTwice"),
    (String.eqb (code error) "failSafe"),
    (String.eqb (code error) "lockError"),
    (String.eqb (code error) "outdatedSyncTarget");
    cbn [orb negb andb];
    repeat match goal with
           | |- context [String.eqb (code error) "unknownItemType"] =>
               destruct (String.eqb (code error) "unknownItemType")
           | |- context [isTestingEnv C] => destruct (isTestingEnv C)
           | |- context [fetchRequestCanBeRetried C error] =>
               destruct (fetchRequestCanBeRetried C error)
           | |- context [details error] => destruct (details error)
           end;
    cbn [negb]; intros H;
    cbv beta iota zeta delta [bind modify gets ret logger pushError logLines] in H;
    inversion H; subst r w'; clear H;
    cbn [self trace record on_self];
    rewrite ?self_logLines, ?trace_logLines; cbn [self trace record on_self];
    (split; [reflexivity|]);
    (split; [first [reflexivity | symmetry; apply withErrors_nil]|]);
    rewrite <- ?app_assoc; cbn [app]; eexists; reflexivity.
Qed.


(** ** The upload step: the choice of the action *)

Lemma getConflictType_conflictOf local : getConflictType local = conflictOf (type_ local).
Proof. unfold getConflictType. destruct (type_ local); reflexivity. Qed.

(** C1.  The action chosen for a local item [local] in the upload step, from
    the remote stat [remote]: with no remote and [sync_time] 0 it is
    [createRemote]; with no remote and a positive [sync_time] it is the
    conflict variant of the item's type; with a remote, once its content has
    been fetched (it is not empty) and deserialised into [remoteContent], it
    is the conflict variant when [remoteContent.updated_time >
    local.sync_time] and [updateRemote] otherwise.  In the first two cases
    nothing is called. *)
Theorem upload_action_decision (local : Item) (p : string)
    (remote : option RemoteItem) (w : World) :
  (remote = None -> sync_time local = 0 ->
     exists reason,
       decideUploadAction C local p remote w
       = Some (Ok (Some ("createRemote", reason, None)), w))
  /\ (remote = None -> 0 < sync_time local ->
      exists reason,
        decideUploadAction C local p remote w
        = Some (Ok (Some (conflictOf (type_ local), reason, None)), w))
  /\ (forall R serialized w1 remoteContent w2,
        remote = Some R ->
        apiCall C (c_api_get p) (api_get C p) w = Some (Ok (Some serialized), w1) ->
        serialized <> "" ->
        call C (c_unserialize serialized) (unserialize C serialized) w1
        = Some (Ok remoteContent, w2) ->
        exists reason,
          decideUploadAction C local p remote w
          = Some (Ok (Some (if sync_time local <? updated_time remoteContent
                            then conflictOf (type_ local)
                            else "updateRemote",
                            reason, Some remoteContent)), w2)).
Proof.
  split; [|split].
  - intros -> Z. unfold decideUploadAction. rewrite Z. simpl. eexists. reflexivity.
  - intros -> P. unfold decideUploadAction.
    destruct (sync_time local =? 0) eqn:E; [apply Z.eqb_eq in E; lia|].
    rewrite getConflictType_conflictOf. eexists. reflexivity.
  - intros R serialized w1 remoteContent w2 -> G NE U.
    unfold decideUploadAction. unfold bind at 1, attempt. rewrite G.
    destruct serialized as [|ch rest]; [contradiction|].
    unfold bind. rewrite U. rewrite Z.gtb_ltb, getConflictType_conflictOf.
    destruct (sync_time local <? updated_time remoteContent); eexists; reflexivity.
Qed.

(** ** The upload step: the sync time *)

#[local] Instance syncTime_calm : Calm noKeep notSyncTime.
Proof. split; intros; reflexivity. Qed.

Lemma syncTimeAfter_notSyncTime target itemId evs t :
  forallb notSyncTime evs = true ->
  fold_left (syncTimeAfter target itemId) evs t = t.
Proof.
  revert t. induction evs as [|ev evs IH]; intros t H; simpl in *.
  - reflexivity.
  - apply andb_prop in H as [H1 H2]. rewrite IH by assumption.
    destruct ev as [[] []| | | | |]; try reflexivity; discriminate.
Qed.

Lemma steady_trace {X} (keep : Synchronizer -> Frame -> option Lock -> X)
    allowed (w w' : World) :
  steady keep allowed w w' ->
  exists evs, trace w' = trace w ++ evs /\ forallb allowed evs = true.
Proof. intros [_ T]. exact T. Qed.

(** What a call records: itself, then what the interrupts record. *)
Lemma call_trace {X} (keep : Synchronizer -> Frame -> option Lock -> X)
    allowed {HC : Calm keep allowed} {A} c (f : Ext -> Res A * Ext)
    (w : World) r w' :
  call C c f w = Some (r, w') ->
  exists evs, trace w' = trace w ++ EvCall c (isOk r) :: evs
              /\ forallb allowed evs = true.
Proof.
  intros H. unfold call in H. destruct (f (ext w)) as [r0 e].
  inversion H; subst; clear H.
  match goal with |- context [resume C ?x] =>
    destruct (steady_trace _ _ _ _ (steady_resume keep allowed C x)) as [evs [T Al]]
  end.
  exists evs. rewrite T. simpl. rewrite <- app_assoc. auto.
Qed.

#[local] Instance beside_calm : Calm noKeep besideUpload.
Proof. split; intros; reflexivity. Qed.

#[local] Instance unsent_calm : Calm noKeep unsent.
Proof. split; intros; reflexivity. Qed.

Lemma forallb_weaken {A} (f g : A -> bool) l :
  (forall a, f a = true -> g a = true) -> forallb f l = true -> forallb g l = true.
Proof.
  intros I H. apply forallb_forall. intros a Ha.
  apply I. revert a Ha. apply forallb_forall. exact H.
Qed.

Lemma beside_notSyncTime evs :
  forallb besideUpload evs = true -> forallb notSyncTime evs = true.
Proof.
  apply forallb_weaken. intros ev H. apply andb_prop in H as [_ H]. exact H.
Qed.

Lemma beside_unsent evs :
  forallb besideUpload evs = true -> forallb unsent evs = true.
Proof.
  apply forallb_weaken. intros [[] b| | | | |] H; try reflexivity; try exact H;
    try (destruct b; exact H).
  all: try discriminate H.
Qed.

Lemma unsent_notSyncTime evs :
  forallb unsent evs = true -> forallb notSyncTime evs = true.
Proof.
  apply forallb_weaken. intros [[] b| | | | |] H; try reflexivity; try exact H;
    try (destruct b; exact H).
Qed.

Lemma beside_no_upload evs c q item b :
  forallb besideUpload evs = true ->
  ~ In (EvCall (c_serializeAndUploadItem c q item) b) evs.
Proof.
  intros H I. rewrite forallb_forall in H. apply H in I. discriminate I.
Qed.

Lemma unsent_no_upload evs c q item :
  forallb unsent evs = true ->
  ~ In (EvCall (c_serializeAndUploadItem c q item) true) evs.
Proof.
  intros H I. rewrite forallb_forall in H. apply H in I. discriminate I.
Qed.

(** The block that uploads the blob of a resource uploads no metadata and
    records no sync time; it leaves the action as it is or clears it, and
    an item that is not a resource is left alone. *)
Lemma beside_blob cls p local action (w : World) r w' :
  (if ModelType_eqb (type_ local) TYPE_RESOURCE
      && (String.eqb action "createRemote" || String.eqb action "updateRemote")
   then uploadResourceBlob C cls p local action
   else ret (Some action, local)) w = Some (r, w') ->
  (exists evs, trace w' = trace w ++ evs /\ forallb besideUpload evs = true)
  /\ forall a l, r = Ok (a, l) ->
       (a = Some action \/ a = None)
       /\ (type_ local <> TYPE_RESOURCE -> a = Some action /\ l = local).
Proof.
  intros H. split.
  - revert H.
    match goal with |- ?m w = _ -> _ =>
      assert (K : keeps noKeep besideUpload m)
        by (unfold uploadResourceBlob, handleCannotSyncItem, apiCall, lockErrorStatus_,
              dispatch; keeps_auto)
    end.
    intros H. apply K in H. exact (steady_trace _ _ _ _ H).
  - intros a l ->.
    destruct (ModelType_eqb (type_ local) TYPE_RESOURCE) eqn:Ty; simpl in H.
    + split; [|intros N; destruct (type_ local); try discriminate Ty; contradiction].
      destruct (String.eqb action "createRemote" || String.eqb action "updateRemote").
      * unfold uploadResourceBlob in H.
        repeat first
          [ match type of H with
            | ret _ _ = _ => inversion H; subst; clear H
            | throw _ _ = _ => discriminate H
            | (if ?b then _ else _) _ = _ => destruct b
            | match ?x with _ => _ end _ = _ => destruct x
            | bind _ _ _ = Some (Ok _, _) =>
                apply bind_inv in H as [[? [? [_ H]]]|[? [_ H]]]; [|discriminate H]
            end ]; auto.
      * inversion H; subst. auto.
    + inversion H; subst. auto.
Qed.

(** What the block that uploads the metadata records. *)
Lemma uploadItemMetadata_trace cls p local (w : World) r w' :
  uploadItemMetadata C cls p local w = Some (r, w') ->
  exists evs,
    trace w' = trace w ++ evs
    /\ ((exists evs1 evs2,
           evs = EvCall (c_serializeAndUploadItem cls p local) true :: evs1
                 ++ EvCall (c_saveSyncTime cls (syncTargetId C) local (updated_time local))
                           (isOk r) :: evs2
           /\ forallb besideUpload evs1 = true /\ forallb besideUpload evs2 = true)
        \/ forallb unsent evs = true).
Proof.
  intros H. unfold uploadItemMetadata in H.
  apply bind_inv in H as [[up [w1 [E H]]]|[e [E _]]];
    [|apply attempt_inv in E as [? [_ ?]]; discriminate].
  apply attempt_inv in E as [up' [E Hup]]. inversion Hup; subst up; clear Hup.
  destruct up' as [[]|error].
  - (* the upload returned *)
    unfold tryUploadItem in E. inv_pure E.
    destruct (has "notesRejectedByTarget" (testingHooks_ (self w))
              && ModelType_eqb (type_ local) TYPE_NOTE); [discriminate E|].
    pose proof (call_trace noKeep besideUpload _ _ _ _ _ E) as [evs1 [T1 A1]].
    simpl in H. unfold bind at 1, ret in H.
    pose proof (call_trace noKeep besideUpload _ _ _ _ _ H) as [evs2 [T2 A2]].
    eexists. split.
    + rewrite T2, T1. rewrite <- app_assoc. simpl. reflexivity.
    + left. exists evs1, evs2. auto.
  - (* the upload threw *)
    assert (T1 : exists evs1, trace w1 = trace w ++ evs1 /\ forallb unsent evs1 = true).
    { unfold tryUploadItem in E. inv_pure E.
      destruct (has "notesRejectedByTarget" (testingHooks_ (self w))
                && ModelType_eqb (type_ local) TYPE_NOTE).
      - inversion E; subst. exists []. rewrite app_nil_r. auto.
      - pose proof (call_trace noKeep unsent _ _ _ _ _ E) as [evs1 [T1 A1]].
        eexists. split; [exact T1|]. simpl. exact A1. }
    destruct T1 as [evs1 [T1 A1]].
    assert (K : keeps noKeep unsent
                  (handleCannotSyncItem C cls (syncTargetId C) local (message error) false))
      by (unfold handleCannotSyncItem, dispatch; keeps_auto).
    assert (T2 : exists evs2, trace w' = trace w1 ++ evs2 /\ forallb unsent evs2 = true).
    { simpl in H. destruct (String.eqb (code error) "rejectedByTarget").
      - apply bind_inv in H as [[cs [w2 [E2 H]]]|[e [E2 _]]].
        + apply bind_inv in E2 as [[u [w3 [E3 E4]]]|[e [_ Ee]]]; [|discriminate Ee].
          inversion E4; subst cs w3; clear E4. inversion H; subst r w'; clear H.
          apply K in E3. exact (steady_trace _ _ _ _ E3).
        + apply bind_inv in E2 as [[u [w3 [E3 E4]]]|[e' [E3 _]]]; [discriminate E4|].
          apply K in E3. exact (steady_trace _ _ _ _ E3).
      - unfold bind, throw in H. inversion H; subst.
        exists []. rewrite app_nil_r. auto. }
    destruct T2 as [evs2 [T2 A2]].
    exists (evs1 ++ evs2). split.
    + rewrite T2, T1, app_assoc. reflexivity.
    + right. rewrite forallb_app, A1, A2. reflexivity.
Qed.


(** ** The upload step: resources whose blob is missing *)

#[local] Instance upload_calm : Calm noKeep notUpload.
Proof. split; intros; reflexivity. Qed.

#[local] Instance any_calm : Calm noKeep anyEvent.
Proof. split; intros; reflexivity. Qed.

Lemma any_applyUploadAction cls p local remote remoteContent action :
  keeps noKeep anyEvent (applyUploadAction C cls p local remote remoteContent action).
Proof. unfold_blocks. keeps_auto. Qed.

(** With a fetch status that is not DONE, the resource block marks the item
    and clears the action. *)
Lemma uploadResourceBlob_not_done cls p local action (w : World) st e1 :
  Resource_localState C (id local) (ext w) = (Ok st, e1) ->
  st <> FETCH_STATUS_DONE ->
  forall r w',
    uploadResourceBlob C cls p local action w = Some (r, w') ->
    (r = Ok (None, local) \/ exists e, r = Throw e)
    /\ exists evs,
         trace w' = trace w ++ evs /\ forallb notUpload evs = true
         /\ exists b, In (EvCall (c_saveSyncDisabled cls (syncTargetId C) local
                                    missingBlobReason false) b) evs.
Proof.
  intros L N r w' H. unfold uploadResourceBlob in H.
  apply bind_inv in H as [[st' [w1 [E H]]]|[e [E _]]].
  2:{ unfold call in E. rewrite L in E. discriminate. }
  pose proof (call_trace noKeep notUpload _ _ _ _ _ E) as [evs1 [T1 A1]].
  unfold call in E. rewrite L in E. inversion E; subst st'.
  assert (D : FetchStatus_eqb st FETCH_STATUS_DONE = false)
    by (destruct st; try reflexivity; contradiction).
  rewrite D in H. simpl in H. clear E.
  apply bind_inv in H as [[u [w2 [E H]]]|[e [E _]]]; [|discriminate].
  inversion E; subst u w2; clear E.
  unfold handleCannotSyncItem in H.
  apply bind_inv in H as [[u [w3 [E H]]]|[e [E ->]]].
  - apply bind_inv in E as [[u' [w4 [E E']]]|[e [_ Ee]]]; [|discriminate Ee].
    + pose proof (call_trace noKeep notUpload _ _ _ _ _ E) as [evs2 [T2 A2]].
      inversion E'; subst w3; clear E'. inversion H; subst r w'; clear H.
      split; [left; reflexivity|].
      eexists (EvCall _ _ :: evs1 ++ EvLogger _ _ :: EvCall _ _ :: evs2 ++ [EvDispatch _]).
      split; [|split].
      * simpl. rewrite T2. simpl. rewrite T1.
        repeat (rewrite <- app_assoc; simpl). reflexivity.
      * simpl. rewrite !forallb_app. simpl. rewrite !forallb_app, A1, A2. reflexivity.
      * exists true. right. apply in_or_app. right. right. left. reflexivity.
  - apply bind_inv in E as [[u' [w4 [E E']]]|[e' [E Ee]]];
      [unfold dispatch, modify in E'; discriminate E'|].
    pose proof (call_trace noKeep notUpload _ _ _ _ _ E) as [evs2 [T2 A2]].
    split; [right; eauto|].
    eexists (EvCall _ _ :: evs1 ++ EvLogger _ _ :: EvCall _ _ :: evs2).
    split; [|split].
    * rewrite T2. simpl. rewrite T1. repeat (rewrite <- app_assoc; simpl). reflexivity.
    * simpl. rewrite !forallb_app. simpl. rewrite A1, A2. reflexivity.
    * exists false. right. apply in_or_app. right. right. left. reflexivity.
Qed.


(** ** The delta step: resources over the size limit *)

Lemma includes_append_r needle a b :
  includes needle b = true -> includes needle (a +:+ b) = true.
Proof.
  intros H. induction a as [|c a IH]; simpl.
  - exact H.
  - rewrite IH. apply orb_true_r.
Qed.

#[local] Instance localSave_calm : Calm noKeep notLocalSave.
Proof. split; intros; reflexivity. Qed.

Lemma handleCannotSyncItem_trace {X} (keep : Synchronizer -> Frame -> option Lock -> X)
    allowed {HC : Calm keep allowed} cls target item reason remoteLocation
    (w : World) r w' :
  allowed (EvDispatch SYNC_HAS_DISABLED_SYNC_ITEMS) = true ->
  (forall b, allowed (EvCall (c_saveSyncDisabled cls target item reason remoteLocation) b)
             = true) ->
  handleCannotSyncItem C cls target item reason remoteLocation w = Some (r, w') ->
  exists evs,
    trace w' = trace w ++ evs /\ forallb allowed evs = true
    /\ exists b, In (EvCall (c_saveSyncDisabled cls target item reason remoteLocation) b) evs.
Proof.
  intros AD AC H. unfold handleCannotSyncItem in H.
  apply bind_inv in H as [[u [w1 [E H]]]|[e [E _]]].
  - pose proof (call_trace keep allowed _ _ _ _ _ E) as [evs [T A]].
    unfold dispatch, modify in H. inversion H; subst r w'; clear H.
    eexists (EvCall _ _ :: evs ++ [EvDispatch _]). simpl. rewrite T.
    repeat (rewrite <- app_assoc; simpl).
    split; [reflexivity|]. split.
    + rewrite AC, forallb_app, A. simpl. rewrite AD. reflexivity.
    + eexists. left. reflexivity.
  - pose proof (call_trace keep allowed _ _ _ _ _ E) as [evs [T A]].
    eexists (EvCall _ _ :: evs). split; [exact T|]. split.
    + simpl. rewrite AC, A. reflexivity.
    + eexists. left. reflexivity.
Qed.

(** For a Resource to create or update whose size reaches the limit, the
    block that would save it reduces to [handleCannotSyncItem] with the
    size-limit reason and the remote location. *)
Lemma saveRemoteContent_oversize masterKeysBefore action cls local content (w : World) :
  let item := withUserTimes (ItemClass_filter C cls content) in
  let limit := maxResourceSize (self w) in
  type_ item = TYPE_RESOURCE ->
  action = "createLocal" \/ action = "updateLocal" ->
  size_ge (size item) limit = true ->
  saveRemoteContent C masterKeysBefore action cls local content w
  = handleCannotSyncItem C cls (syncTargetId C) item (oversizeReason item limit) true w.
Proof.
  intros item limit Ty Ac Sz.
  unfold saveRemoteContent. fold item. unfold bind at 1, now, gets.
  unfold bind at 1. fold limit. rewrite Ty, Sz.
  destruct Ac; subst action; reflexivity.
Qed.

Lemma lock_decideDeltaAction remote local :
  keeps lockKeep notLockEvent (decideDeltaAction C remote local).
Proof. unfold decideDeltaAction, loadContent. keeps_auto. Qed.

Lemma localSave_decideDeltaAction remote local :
  keeps noKeep notLocalSave (decideDeltaAction C remote local).
Proof. unfold decideDeltaAction, loadContent. keeps_auto. Qed.

(** C6.  With the size limit left at its default ([maxResourceSize_] is
    null): on a mobile client [maxResourceSize()] is 100 000 000 bytes, and
    in the delta step (without the testing hook [skipRevisions]) the
    processing of a remote item whose action is [createLocal] or
    [updateLocal] and whose content is a Resource of at least that size is
    the log of the action followed by [handleCannotSyncItem] with the
    size-limit reason and the remote location: the item is marked
    sync-disabled, the local state that schedules the download of its blob
    is not written and the item is not saved; on any other client the limit
    is [Infinity], which no size reaches. *)
Theorem mobile_resource_limit (masterKeysBefore : Z) (locals : list Item)
    (remote : RemoteItem) (w : World) :
  maxResourceSize_ (self w) = None ->
  (appType_ (self w) = "mobile" ->
     maxResourceSize (self w) = Bytes (100 * 1000 * 1000)
     /\ forall d w1 action cls content,
          isSystemPath C (path remote) = true ->
          has "skipRevisions" (testingHooks_ (self w)) = false ->
          decideDeltaAction C remote (findById (pathToId C (path remote)) locals)
            (logSyncOperation C "fetchingProcessed" None None
               "Processing fetched item" 1 w)
          = Some (Ok d, w1) ->
          dd_action d = Some action ->
          action = "createLocal" \/ action = "updateLocal" ->
          dd_ItemClass d = Some cls -> dd_content d = Some content ->
          let item := withUserTimes (ItemClass_filter C cls content) in
          let reason := oversizeReason item (Bytes (100 * 1000 * 1000)) in
          type_ item = TYPE_RESOURCE ->
          100 * 1000 * 1000 <= size item ->
          processRemote C masterKeysBefore locals remote w
          = handleCannotSyncItem C cls (syncTargetId C) item reason true
              (logSyncOperation C action (dd_local d) (Some remote) (dd_reason d) 1 w1)
          /\ includes "is larger than allowed 100000000 bytes" reason = true
          /\ forall r w',
               processRemote C masterKeysBefore locals remote w = Some (r, w') ->
               exists evs,
                 trace w' = trace w ++ evs
                 /\ forallb notLocalSave evs = true
                 /\ exists b, In (EvCall (c_saveSyncDisabled cls (syncTargetId C) item
                                            reason true) b) evs)
  /\ (appType_ (self w) <> "mobile" ->
      maxResourceSize (self w) = Infinity
      /\ forall n, size_ge n (maxResourceSize (self w)) = false).
Proof.
  intros N. split.
  - intros Mo.
    assert (L : forall w0 : World,
              kept lockKeep w0 = kept lockKeep w ->
              maxResourceSize (self w0) = Bytes (100 * 1000 * 1000)
              /\ testingHooks_ (self w0) = testingHooks_ (self w)).
    { intros w0 K. unfold kept, lockKeep in K. inversion K.
      unfold maxResourceSize. split; [|congruence].
      replace (maxResourceSize_ (self w0)) with (maxResourceSize_ (self w)) by congruence.
      replace (appType_ (self w0)) with (appType_ (self w)) by congruence.
      rewrite N, Mo. reflexivity. }
    split; [apply L; reflexivity|].
    intros d w1 action cls content Sy Hk E Ea Ac Ec Eco item reason Ty Sz.
    set (w0 := logSyncOperation C "fetchingProcessed" None None
                 "Processing fetched item" 1 w) in *.
    set (w2 := logSyncOperation C action (dd_local d) (Some remote) (dd_reason d) 1 w1).
    assert (K0 : steady lockKeep notLockEvent w w0)
      by (apply steady_logSyncOperation; typeclasses eauto).
    assert (K1 : steady lockKeep notLockEvent w0 w1)
      by (exact (lock_decideDeltaAction _ _ _ _ _ E)).
    assert (K2 : steady lockKeep notLockEvent w1 w2)
      by (apply steady_logSyncOperation; typeclasses eauto).
    pose proof (steady_trans _ _ _ _ _ K0 K1) as K01.
    pose proof (steady_trans _ _ _ _ _ K01 K2) as K02.
    destruct (L w1 (proj1 K01)) as [_ H1].
    destruct (L w2 (proj1 K02)) as [L2 _].
    assert (Q : processRemote C masterKeysBefore locals remote w
                = handleCannotSyncItem C cls (syncTargetId C) item reason true w2).
    { unfold processRemote. unfold bind at 1, modify. fold w0.
      rewrite Sy. change (negb true) with false. cbv beta iota zeta.
      unfold bind at 1, attempt. rewrite E.
      unfold bind at 1, gets. rewrite H1, Hk, Ea, Eco, Ec.
      cbn [andb]. cbv beta iota.
      unfold bind at 1, modify. fold w2.
      replace (String.eqb action "createLocal" || String.eqb action "updateLocal")
        with true by (destruct Ac; subst action; reflexivity).
      rewrite saveRemoteContent_oversize; try assumption.
      - fold item. rewrite L2. reflexivity.
      - fold item. rewrite L2. apply Z.leb_le, Sz. }
    split; [exact Q|]. split.
    + unfold reason, oversizeReason.
      do 3 apply includes_append_r. vm_compute. reflexivity.
    + intros r w' H. rewrite Q in H.
      apply (handleCannotSyncItem_trace noKeep notLocalSave) in H
        as [evs [T [A I]]]; auto.
      assert (S0 : steady noKeep notLocalSave w w0)
        by (apply steady_logSyncOperation; typeclasses eauto).
      assert (S1 : steady noKeep notLocalSave w0 w1)
        by (exact (localSave_decideDeltaAction _ _ _ _ _ E)).
      assert (S2 : steady noKeep notLocalSave w1 w2)
        by (apply steady_logSyncOperation; typeclasses eauto).
      destruct (steady_trace _ _ _ _ (steady_trans _ _ _ _ _ (steady_trans _ _ _ _ _ S0 S1) S2))
        as [evs0 [T0 A0]].
      exists (evs0 ++ evs). split; [rewrite T, T0, app_assoc; reflexivity|].
      split; [rewrite forallb_app, A0, A; reflexivity|].
      destruct I as [b I]. exists b. apply in_or_app. right. exact I.
  - intros NM. unfold maxResourceSize. rewrite N.
    destruct (String.eqb (appType_ (self w)) "mobile") eqn:E.
    + apply String.eqb_eq in E. contradiction.
    + split; reflexivity.
Qed.

(** ** The upload step: the paths that are done *)

#[local] Instance done_calm : Calm doneKeep anyEvent.
Proof. split; intros; reflexivity. Qed.

Lemma done_steady_inv (w w' : World) :
  steady doneKeep anyEvent w w' -> donePaths (frame w') = donePaths (frame w).
Proof. intros [K _]. exact K. Qed.

Lemma has_false_not_In x l : has x l = false -> ~ In x l.
Proof.
  unfold has. intros H Hin.
  assert (E : existsb (String.eqb x) l = true)
    by (apply existsb_exists; exists x; split; [exact Hin | apply String.eqb_refl]).
  congruence.
Qed.

Lemma NoDup_snoc (x : string) l : List.NoDup l -> ~ In x l -> List.NoDup (l ++ [x]).
Proof.
  intros N I. induction N as [|y l Hy N IH]; simpl.
  - constructor; [intros []|constructor].
  - constructor.
    + intros Hin. apply in_app_or in Hin as [Hin|[->|[]]]; [contradiction|].
      apply I. left. reflexivity.
    + apply IH. intros Hin. apply I. right. exact Hin.
Qed.

(** The choice of the action adds the path to the done paths exactly when it
    ends in [continue]. *)
Lemma decideUploadAction_done local p remote (w : World) :
  post (decideUploadAction C local p remote) w (fun r (w' : World) =>
    match r with
    | Ok None => donePaths (frame w') = donePaths (frame w) ++ [p]
    | _ => donePaths (frame w') = donePaths (frame w)
    end).
Proof.
  intros r w' H. unfold decideUploadAction in H. destruct remote as [R|].
  - apply bind_inv in H as [[fetched [w1 [E H]]]|[e [E _]]];
      [|apply attempt_inv in E as [? [_ ?]]; discriminate].
    assert (K : keeps doneKeep anyEvent
                  (attempt (apiCall C (c_api_get p) (api_get C p))))
      by (unfold_blocks; keeps_auto).
    apply K, done_steady_inv in E. destruct fetched as [[[|ch rest]|]|error].
    + inversion H; subst. exact E.
    + apply bind_inv in H as [[rc [w2 [E2 H]]]|[e [E2 ->]]].
      * assert (K2 : steady doneKeep anyEvent w1 w2)
          by (eapply (keeps_call doneKeep anyEvent C); [|exact E2]; reflexivity).
        apply done_steady_inv in K2.
        destruct (updated_time rc >? sync_time local); inversion H; subst; congruence.
      * assert (K2 : steady doneKeep anyEvent w1 w')
          by (eapply (keeps_call doneKeep anyEvent C); [|exact E2]; reflexivity).
        apply done_steady_inv in K2. congruence.
    + inversion H; subst. exact E.
    + destruct (String.eqb (code error) "rejectedByTarget").
      * unfold bind, pushError, logger, completeItemProcessing, modify, ret in H.
        inversion H; subst. simpl. rewrite E. reflexivity.
      * inversion H; subst. exact E.
  - destruct (sync_time local =? 0); inversion H; subst; reflexivity.
Qed.

Lemma done_applyUploadAction cls p local remote remoteContent action (w : World) :
  post (applyUploadAction C cls p local remote remoteContent action) w
    (fun r (w' : World) =>
       match r with
       | Ok _ => donePaths (frame w') = donePaths (frame w) ++ [p]
       | Throw _ => donePaths (frame w') = donePaths (frame w)
       end).
Proof.
  intros r w' H. unfold applyUploadAction in H.
  apply bind_inv in H as [[[action' local'] [w1 [E H]]]|[e [E ->]]].
  - assert (K1 : steady doneKeep anyEvent w w1).
    { revert E. match goal with |- ?m w = _ -> _ =>
        assert (K : keeps doneKeep anyEvent m) by (unfold_blocks; keeps_auto) end.
      apply K. }
    apply done_steady_inv in K1.
    apply bind_inv in H as [[u [w2 [E2 H]]]|[e [E2 ->]]].
    + assert (K2 : steady doneKeep anyEvent w1 w2).
      { revert E2. match goal with |- ?m w1 = _ -> _ =>
          assert (K : keeps doneKeep anyEvent m) by (unfold_blocks; keeps_auto) end.
        apply K. }
      apply done_steady_inv in K2.
      apply bind_inv in H as [[u3 [w3 [E3 H]]]|[e [E3 ->]]].
      * assert (K3 : steady doneKeep anyEvent w2 w3).
        { revert E3. match goal with |- ?m w2 = _ -> _ =>
            assert (K : keeps doneKeep anyEvent m) by (unfold_blocks; keeps_auto) end.
          apply K. }
        apply done_steady_inv in K3.
        unfold completeItemProcessing, modify in H. inversion H; subst. simpl.
        congruence.
      * assert (K3 : steady doneKeep anyEvent w2 w').
        { revert E3. match goal with |- ?m w2 = _ -> _ =>
            assert (K : keeps doneKeep anyEvent m) by (unfold_blocks; keeps_auto) end.
          apply K. }
        apply done_steady_inv in K3. congruence.
    + assert (K2 : steady doneKeep anyEvent w1 w').
      { revert E2. match goal with |- ?m w1 = _ -> _ =>
          assert (K : keeps doneKeep anyEvent m) by (unfold_blocks; keeps_auto) end.
        apply K. }
      apply done_steady_inv in K2. congruence.
  - assert (K1 : steady doneKeep anyEvent w w').
    { revert E. match goal with |- ?m w = _ -> _ =>
        assert (K : keeps doneKeep anyEvent m) by (unfold_blocks; keeps_auto) end.
      apply K. }
    apply done_steady_inv in K1. exact K1.
Qed.

(** An iteration that returns has added its path, which was not there; an
    iteration that throws has added nothing. *)
Lemma uploadItem_done result local (w : World) :
  post (uploadItem C result local) w (fun r (w' : World) =>
    match r with
    | Ok _ =>
        has (systemPath C (id local)) (donePaths (frame w)) = false
        /\ donePaths (frame w')
           = donePaths (frame w) ++ [systemPath C (id local)]
    | Throw _ => donePaths (frame w') = donePaths (frame w)
    end).
Proof.
  intros r w' H. unfold uploadItem in H.
  apply bind_inv in H as [[cls [w0 [E H]]]|[e [E ->]]].
  2:{ destruct (itemClass (type_ local)); inversion E; subst. reflexivity. }
  assert (w0 = w) by (destruct (itemClass (type_ local)); inversion E; reflexivity).
  subst w0. clear E. inv_pure H.
  destruct (has (systemPath C (id local)) (donePaths (frame w))) eqn:Hd.
  { inversion H; subst. reflexivity. }
  apply bind_inv in H as [[remote [w1 [E H]]]|[e [E ->]]].
  - assert (K1 : steady doneKeep anyEvent w w1).
    { revert E. match goal with |- ?m w = _ -> _ =>
        assert (K : keeps doneKeep anyEvent m) by (unfold_blocks; keeps_auto) end.
      apply K. }
    apply done_steady_inv in K1.
    apply bind_inv in H as [[decision [w2 [E2 H]]]|[e [E2 ->]]].
    + apply decideUploadAction_done in E2.
      destruct decision as [[[action reason] remoteContent]|].
      * inv_pure H. apply done_applyUploadAction in H.
        assert (L : donePaths (frame (logSyncOperation C action (Some local) remote reason 1 w2))
                    = donePaths (frame w2)).
        { apply done_steady_inv. apply steady_logSyncOperation. typeclasses eauto. }
        destruct r; [split; [reflexivity|]|]; congruence.
      * inversion H; subst. split; [reflexivity|]. congruence.
    + apply decideUploadAction_done in E2. congruence.
  - assert (K1 : steady doneKeep anyEvent w w').
    { revert E. match goal with |- ?m w = _ -> _ =>
        assert (K : keeps doneKeep anyEvent m) by (unfold_blocks; keeps_auto) end.
      apply K. }
    apply done_steady_inv in K1. exact K1.
Qed.

Lemma uploadItems_NoDup result locals (w : World) :
  post (uploadItems C result locals) w (fun _ (w' : World) =>
    List.NoDup (donePaths (frame w)) -> List.NoDup (donePaths (frame w'))).
Proof.
  revert w. induction locals as [|local rest IH]; intros w r w' H; simpl in H.
  - inversion H; subst. auto.
  - inv_pure H. destruct (cancelling w); [inversion H; subst; auto|].
    apply bind_inv in H as [[u [w1 [E H]]]|[e [E ->]]].
    + apply uploadItem_done in E as [N E]. intros ND.
      apply (IH _ _ _ H). rewrite E. apply NoDup_snoc; [exact ND|].
      apply has_false_not_In, N.
    + apply uploadItem_done in E. rewrite E. auto.
Qed.

Lemma uploadLoop_NoDup fuel (w : World) :
  post (uploadLoop C fuel) w (fun _ (w' : World) =>
    List.NoDup (donePaths (frame w)) -> List.NoDup (donePaths (frame w'))).
Proof.
  revert w. induction fuel as [|fuel IH]; intros w r w' H; simpl in H; [discriminate|].
  inv_pure H. destruct (cancelling w); [inversion H; subst; auto|].
  apply bind_inv in H as [[result [w1 [E1 H]]]|[e [E1 ->]]].
  - assert (K1 : steady doneKeep anyEvent w w1)
      by (eapply (keeps_call doneKeep anyEvent C); [|exact E1]; reflexivity).
    apply done_steady_inv in K1.
    apply bind_inv in H as [[u [w2 [E2 H]]]|[e [E2 ->]]].
    + assert (K2 : steady doneKeep anyEvent w1 w2)
        by (eapply (keeps_call doneKeep anyEvent C); [|exact E2]; reflexivity).
      apply done_steady_inv in K2.
      apply bind_inv in H as [[u3 [w3 [E3 H]]]|[e [E3 ->]]].
      * apply uploadItems_NoDup in E3. intros ND.
        assert (N3 : List.NoDup (donePaths (frame w3)))
          by (apply E3; rewrite K2, K1; exact ND).
        destruct (negb (ns_hasMore result)).
        -- inversion H; subst. exact N3.
        -- apply (IH _ _ _ H N3).
      * apply uploadItems_NoDup in E3. intros ND. apply E3.
        rewrite K2, K1. exact ND.
    + assert (K2 : steady doneKeep anyEvent w1 w')
        by (eapply (keeps_call doneKeep anyEvent C); [|exact E2]; reflexivity).
      apply done_steady_inv in K2. intros ND. rewrite K2, K1. exact ND.
  - assert (K1 : steady doneKeep anyEvent w w')
      by (eapply (keeps_call doneKeep anyEvent C); [|exact E1]; reflexivity).
    apply done_steady_inv in K1. intros ND. rewrite K1. exact ND.
Qed.

(** C3.  In the upload step: an item whose path is already among the done
    paths makes the iteration throw [processingPathTwice] with the world
    untouched, so the item is not processed again; an iteration that returns
    has added the path of its item, which was not among the done paths; and
    however the step ends, normally, by cancellation or by an error, no path
    is twice among its done paths. *)
Theorem done_paths_never_twice (result : NeedSync) (local : Item) (fuel : nat)
    (w : World) :
  (forall cls,
     itemClass (type_ local) = Ok cls ->
     has (systemPath C (id local)) (donePaths (frame w)) = true ->
     exists e, uploadItem C result local w = Some (Throw e, w)
               /\ code e = "processingPathTwice")
  /\ (forall w',
        uploadItem C result local w = Some (Ok tt, w') ->
        ~ In (systemPath C (id local)) (donePaths (frame w))
        /\ donePaths (frame w') = donePaths (frame w) ++ [systemPath C (id local)])
  /\ (forall r w',
        uploadStep C fuel w = Some (r, w') -> List.NoDup (donePaths (frame w'))).
Proof.
  split; [|split].
  - intros cls Hc Hd. unfold uploadItem. rewrite Hc. unfold bind, of_res, ret, gets.
    rewrite Hd. eexists. split; reflexivity.
  - intros w' H. apply uploadItem_done in H as [N E].
    split; [apply has_false_not_In, N | exact E].
  - intros r w' H. unfold uploadStep in H. inv_pure H.
    apply uploadLoop_NoDup in H. apply H. simpl. constructor.
Qed.

(** ** The delta step: the context of a cancelled page *)

Lemma savedContexts_app a b : savedContexts (a ++ b) = savedContexts a ++ savedContexts b.
Proof. apply flat_map_app. Qed.

Lemma savedContexts_none evs :
  forallb notSaveContext evs = true -> savedContexts evs = [].
Proof.
  induction evs as [|ev evs IH]; simpl; intros H; [reflexivity|].
  apply andb_prop in H as [H1 H2]. rewrite IH by assumption.
  destruct ev; try reflexivity; discriminate.
Qed.

#[local] Instance page_calm : Calm pageKeep notSaveContext.
Proof. split; intros; reflexivity. Qed.

Lemma page_steady_inv (w w' : World) :
  steady pageKeep notSaveContext w w' ->
  deltaContext (frame w') = deltaContext (frame w)
  /\ newDeltaContext (frame w') = newDeltaContext (frame w)
  /\ outputContext (frame w') = outputContext (frame w)
  /\ hasCancelled (frame w') = hasCancelled (frame w)
  /\ savedContexts (trace w') = savedContexts (trace w).
Proof.
  intros [K [evs [T A]]]. unfold kept, pageKeep in K. inversion K.
  repeat (split; [congruence|]).
  rewrite T, savedContexts_app, (savedContexts_none _ A), app_nil_r. reflexivity.
Qed.

Lemma page_processRemote masterKeysBefore locals remote :
  keeps pageKeep notSaveContext (processRemote C masterKeysBefore locals remote).
Proof. unfold_blocks. keeps_auto. Qed.

Lemma page_enqueueDownloads locals remotes :
  keeps pageKeep notSaveContext (enqueueDownloads C locals remotes).
Proof.
  induction remotes as [|remote rest IH]; simpl; [apply keeps_ret|]. keeps_auto.
Qed.

#[local] Instance loop_calm : Calm loopKeep notSaveContext.
Proof. split; intros; reflexivity. Qed.

Lemma page_to_loop {A} (m : M A) :
  keeps pageKeep notSaveContext m -> keeps loopKeep notSaveContext m.
Proof.
  apply keeps_weaken; [|auto]. unfold pageKeep, loopKeep. intros. congruence.
Qed.

Lemma loop_steady_inv (w w' : World) :
  steady loopKeep notSaveContext w w' ->
  deltaContext (frame w') = deltaContext (frame w)
  /\ newDeltaContext (frame w') = newDeltaContext (frame w)
  /\ outputContext (frame w') = outputContext (frame w)
  /\ savedContexts (trace w') = savedContexts (trace w).
Proof.
  intros [K [evs [T A]]]. unfold kept, loopKeep in K. inversion K.
  repeat (split; [congruence|]).
  rewrite T, savedContexts_app, (savedContexts_none _ A), app_nil_r. reflexivity.
Qed.

Lemma loop_processRemotes masterKeysBefore locals remotes :
  keeps loopKeep notSaveContext (processRemotes C masterKeysBefore locals remotes).
Proof.
  induction remotes as [|remote rest IH]; simpl; [apply keeps_ret|].
  pose proof (page_to_loop _ (page_processRemote masterKeysBefore locals remote)).
  keeps_auto.
Qed.

(** The loop over the items of a page returns either with every item
    processed and the flag as it was, or with the flag set at the first item
    before which the cancellation was seen, that item and the following ones
    left unprocessed. *)
Lemma processRemotes_flag masterKeysBefore locals remotes (w w' : World) :
  processRemotes C masterKeysBefore locals remotes w = Some (Ok tt, w') ->
  (ProcessedAll C masterKeysBefore locals remotes w w'
   /\ hasCancelled (frame w') = hasCancelled (frame w))
  \/ (exists processed remote rest w1,
        remotes = processed ++ remote :: rest
        /\ ProcessedAll C masterKeysBefore locals processed w w1
        /\ cancelSeen w1 = true
        /\ w' = on_frame (set_hasCancelled true) w1).
Proof.
  revert w. induction remotes as [|remote rest IH]; intros w H; simpl in H.
  - inversion H; subst. left. split; [constructor | reflexivity].
  - inv_pure H. fold (cancelSeen w) in H. destruct (cancelSeen w) eqn:Cs.
    + inversion H; subst. right. exists [], remote, rest, w.
      repeat split; [constructor | exact Cs].
    + apply bind_inv in H as [[[] [w1 [E H]]]|[e [E Ee]]]; [|discriminate Ee].
      pose proof (page_processRemote _ _ _ _ _ _ E) as St.
      apply page_steady_inv in St as [_ [_ [_ [Hc _]]]].
      destruct (IH _ H) as [[P F]|[processed [remote' [rest' [w2 [-> [P [Cs' ->]]]]]]]].
      * left. split; [econstructor; eauto | congruence].
      * right. exists (remote :: processed), remote', rest', w2.
        repeat split; [econstructor; eauto | exact Cs'].
Qed.

Lemma recordPage_post options listResult (w : World) r w' :
  recordPage options listResult w = Some (r, w') ->
  hasCancelled (frame w') = hasCancelled (frame w)
  /\ outputContext (frame w') = outputContext (frame w)
  /\ if hasCancelled (frame w)
     then r = Ok false /\ w' = w
     else r = Ok (negb (lr_hasMore listResult))
          /\ savedContexts (trace w')
             = savedContexts (trace w)
               ++ (if saveContextHandler options
                   then [withoutCaches (lr_context listResult)] else [])
          /\ if lr_hasMore listResult
             then deltaContext (frame w') = Some (lr_context listResult)
                  /\ newDeltaContext (frame w') = newDeltaContext (frame w)
             else newDeltaContext (frame w') = Some (lr_context listResult)
                  /\ deltaContext (frame w') = deltaContext (frame w).
Proof.
  unfold recordPage, bind, gets, modify, ret. intros H.
  destruct (hasCancelled (frame w)) eqn:Hc.
  - inversion H; subst. rewrite Hc. auto.
  - destruct (saveContextHandler options), (lr_hasMore listResult);
      simpl in H; inversion H; subst; simpl; rewrite ?savedContexts_app, ?app_nil_r;
      repeat split; auto.
Qed.

(** C5, for one page. *)
Lemma processPage_post options masterKeysBefore listResult (w : World) r w' :
  processPage C options masterKeysBefore listResult w = Some (r, w') ->
  outputContext (frame w') = outputContext (frame w)
  /\ ((hasCancelled (frame w') = true \/ (exists e, r = Throw e)) ->
      savedContexts (trace w') = savedContexts (trace w)
      /\ newDeltaContext (frame w') = newDeltaContext (frame w)
      /\ deltaContext (frame w') = deltaContext (frame w))
  /\ (forall stop, hasCancelled (frame w') = false -> r = Ok stop ->
      stop = negb (lr_hasMore listResult)
      /\ savedContexts (trace w')
         = savedContexts (trace w)
           ++ (if saveContextHandler options
               then [withoutCaches (lr_context listResult)] else [])
      /\ if lr_hasMore listResult
         then deltaContext (frame w') = Some (lr_context listResult)
              /\ newDeltaContext (frame w') = newDeltaContext (frame w)
         else newDeltaContext (frame w') = Some (lr_context listResult)
              /\ deltaContext (frame w') = deltaContext (frame w)).
Proof.
  intros H. unfold processPage in H.
  assert (Pre : keeps loopKeep notSaveContext
                  (attempt
                     (modify (logSyncOperation C "fetchingTotal" None None
                                "Fetching delta items from sync target"
                                (Z.of_nat (length (lr_items listResult))));;
                      let* locals :=
                        call C (c_loadItemsByIds
                                  (map (fun r => pathToId C (path r)) (lr_items listResult)))
                               (loadItemsByIds C
                                  (map (fun r => pathToId C (path r)) (lr_items listResult))) in
                      enqueueDownloads C locals (lr_items listResult);;
                      processRemotes C masterKeysBefore locals (lr_items listResult)))).
  { pose proof loop_processRemotes.
    pose proof (fun l r => page_to_loop _ (page_enqueueDownloads l r)).
    keeps_auto. }
  match type of Pre with
  | keeps _ _ (attempt ?m) =>
      assert (Q : processPage C options masterKeysBefore listResult w
                  = (m;; recordPage options listResult) w)
  end.
  { unfold processPage, bind. destruct (modify _ w) as [[[[]|] ?]|]; try reflexivity.
    destruct (call C _ _ _) as [[[?|] ?]|]; try reflexivity.
    destruct (enqueueDownloads C _ _ _) as [[[[]|] ?]|]; try reflexivity. }
  fold (processPage C options masterKeysBefore listResult) in H. rewrite Q in H.
  clear Q. apply bind_inv in H as [[[] [w1 [E H]]]|[e [E ->]]].
  - assert (St : steady loopKeep notSaveContext w w1).
    { eapply Pre. unfold attempt. rewrite E. reflexivity. }
    apply loop_steady_inv in St as [D [N [O S]]].
    apply recordPage_post in H as [Hc [Ho R]].
    split; [congruence|]. split.
    + intros [Hc'|[e He]].
      * rewrite Hc' in Hc. rewrite <- Hc in R. destruct R as [_ ->]. auto.
      * destruct (hasCancelled (frame w1)); destruct R as [-> _]; discriminate.
    + intros stop Hc' ->. rewrite Hc' in Hc. rewrite <- Hc in R.
      destruct R as [Hs [Sv Ctx]]. inversion Hs; subst stop.
      split; [reflexivity|]. split; [congruence|].
      destruct (lr_hasMore listResult); destruct Ctx; split; congruence.
  - assert (St : steady loopKeep notSaveContext w w').
    { eapply Pre. unfold attempt. rewrite E. reflexivity. }
    apply loop_steady_inv in St as [D [N [O S]]].
    split; [exact O|]. split; [auto|]. intros stop _ Hs. discriminate.
Qed.

Lemma page_apiCall_delta context wipeOutFailSafe :
  keeps pageKeep notSaveContext
    (apiCall C (c_api_delta context wipeOutFailSafe) (api_delta C context wipeOutFailSafe)).
Proof. unfold_blocks. keeps_auto. Qed.

Lemma savedFollows_same (w w' : World) :
  savedContexts (trace w') = savedContexts (trace w) ->
  newDeltaContext (frame w') = newDeltaContext (frame w) ->
  deltaContext (frame w') = deltaContext (frame w) ->
  savedFollows w w'.
Proof. intros S N D. exists []. rewrite app_nil_r. auto. Qed.

Lemma savedFollows_after (w w1 w' : World) :
  savedContexts (trace w1) = savedContexts (trace w) ->
  newDeltaContext (frame w1) = newDeltaContext (frame w) ->
  deltaContext (frame w1) = deltaContext (frame w) ->
  savedFollows w1 w' -> savedFollows w w'.
Proof.
  intros S N D [added [Sa Ca]]. exists added. rewrite <- S, <- N, <- D. auto.
Qed.

(** C5, for the loop over the pages. *)
Lemma deltaLoop_post options masterKeysBefore fuel (w : World) r w' :
  deltaLoop C options masterKeysBefore fuel w = Some (r, w') ->
  outputContext (frame w') = outputContext (frame w)
  /\ ((hasCancelled (frame w') = true \/ (exists e, r = Throw e)) ->
      newDeltaContext (frame w') = newDeltaContext (frame w))
  /\ (saveContextHandler options = true -> savedFollows w w')
  /\ (saveContextHandler options = false ->
      savedContexts (trace w') = savedContexts (trace w)).
Proof.
  revert w. induction fuel as [|fuel IH]; intros w H; simpl in H; [discriminate|].
  inv_pure H. destruct (cancelling w || hasCancelled (frame w)) eqn:Stop.
  { inversion H; subst. split; [reflexivity|]. split; [auto|].
    split; [intros _; apply savedFollows_same; reflexivity | reflexivity]. }
  do 2 inv_pure H.
  apply bind_inv in H as [[listResult [w1 [E1 H]]]|[e [E1 ->]]].
  2:{ apply page_apiCall_delta, page_steady_inv in E1 as [D [N [O [Hc S]]]].
      split; [exact O|]. split; [auto|].
      split; [intros _; apply savedFollows_same; assumption | auto]. }
  apply page_apiCall_delta, page_steady_inv in E1 as [D1 [N1 [O1 [Hc1 S1]]]].
  apply bind_inv in H as [[stop [w2 [E2 H]]]|[e [E2 ->]]].
  2:{ apply processPage_post in E2 as [O2 [U2 _]].
      destruct U2 as [S2 [N2 D2]]; [right; eauto|].
      split; [congruence|]. split; [intros _; congruence|].
      split; [intros _; apply savedFollows_same; congruence | congruence]. }
  apply processPage_post in E2 as [O2 [U2 P2]].
  destruct (hasCancelled (frame w2)) eqn:Hc2.
  - destruct U2 as [S2 [N2 D2]]; [left; reflexivity|].
    assert (Hrest : outputContext (frame w') = outputContext (frame w2)
                    /\ ((hasCancelled (frame w') = true \/ (exists e, r = Throw e)) ->
                        newDeltaContext (frame w') = newDeltaContext (frame w2))
                    /\ (saveContextHandler options = true -> savedFollows w2 w')
                    /\ (saveContextHandler options = false ->
                        savedContexts (trace w') = savedContexts (trace w2))).
    { destruct stop; [|apply IH, H]. inversion H; subst.
      split; [reflexivity|]. split; [auto|].
      split; [intros _; apply savedFollows_same; reflexivity | reflexivity]. }
    destruct Hrest as [O3 [N3 [F3 S3]]].
    split; [congruence|]. split; [intros X; rewrite (N3 X); congruence|].
    split; [|intros X; rewrite (S3 X); congruence].
    intros X. eapply savedFollows_after; [| | |exact (F3 X)]; congruence.
  - destruct (P2 stop eq_refl eq_refl) as [Hs [S2 Ctx]].
    destruct (lr_hasMore listResult) eqn:More; simpl in Hs; subst stop.
    + destruct Ctx as [D2 N2]. destruct (IH _ H) as [O3 [N3 [F3 S3]]].
      split; [congruence|]. split; [intros X; rewrite (N3 X); congruence|].
      split.
      * intros X. rewrite X in S2. destruct (F3 X) as [added [Sa Ca]].
        exists (withoutCaches (lr_context listResult) :: added). split.
        { rewrite Sa, S2, S1, <- app_assoc. reflexivity. }
        right. destruct Ca as [[-> [Na Da]]|[d [La Ca]]].
        -- exists (lr_context listResult). split; [reflexivity|].
           right. split; congruence.
        -- exists d. split.
           { destruct added as [|a added]; [discriminate La|]. exact La. }
           destruct Ca as [Ca|[Ca1 Ca2]]; [auto|].
           right. split; congruence.
      * intros X. rewrite X in S2. rewrite app_nil_r in S2.
        rewrite (S3 X). congruence.
    + destruct Ctx as [N2 D2]. inversion H; subst r w'.
      split; [congruence|]. split.
      * intros [X|[e X]]; [congruence|discriminate].
      * split.
        -- intros X. rewrite X in S2.
           exists [withoutCaches (lr_context listResult)]. split; [congruence|].
           right. exists (lr_context listResult). split; [reflexivity|].
           left. exact N2.
        -- intros X. rewrite X in S2. rewrite app_nil_r in S2. congruence.
Qed.

Lemma page_deleteLocalFolders folders :
  keeps pageKeep notSaveContext (deleteLocalFolders C folders).
Proof.
  induction folders as [|item rest IH]; simpl; [apply keeps_ret|]. keeps_auto.
Qed.

(** C5, for the delta step. *)
Lemma deltaStep_post options lastContext masterKeysBefore fuel (w w' : World) :
  deltaStep C options lastContext masterKeysBefore fuel w = Some (Ok tt, w') ->
  delta (outputContext (frame w'))
  = match newDeltaContext (frame w') with
    | Some d => Some d
    | None => delta lastContext
    end
  /\ (hasCancelled (frame w') = true ->
      delta (outputContext (frame w')) = delta lastContext).
Proof.
  intros H. unfold deltaStep in H. inv_pure H.
  apply bind_inv in H as [[[] [w1 [E1 H]]]|[e [_ Ee]]]; [|discriminate Ee].
  apply deltaLoop_post in E1 as [O1 [N1 _]]. inv_pure H.
  match type of H with
  | ?m ?w0 = _ =>
      assert (K : keeps pageKeep notSaveContext m)
        by (pose proof page_deleteLocalFolders; keeps_auto);
      apply K, page_steady_inv in H as [D2 [N2 [O2 [Hc2 S2]]]]
  end.
  simpl in *. rewrite O2, N2. simpl. split; [reflexivity|].
  intros X. rewrite X in Hc2. rewrite N1 by (left; congruence). reflexivity.
Qed.


End Properties.

(** * Runs of the concrete world *)

Module Witnesses.

Import Scenario.

Lemma collab_housekeeping k : Housekeeping (collab k).
Proof.
  split; intros; intros e; eexists; eexists; reflexivity.
Qed.

Lemma upload_action_decision_witness :
  (exists reason,
     decideUploadAction (collab calm) fresh "n0.md" None running
     = Some (Ok (Some ("createRemote", reason, None)), running))
  /\ (exists reason,
       decideUploadAction (collab calm) note1 "n1.md" None running
       = Some (Ok (Some ("noteConflict", reason, None)), running))
  /\ (exists reason w2,
       decideUploadAction (collab calm) note1 "n1.md" (Some remote1) running
       = Some (Ok (Some ("noteConflict", reason, Some newer)), w2)).
Proof.
  split; [|split].
  - apply (proj1 (upload_action_decision (collab calm) fresh "n0.md" None running));
      reflexivity.
  - apply (proj1 (proj2 (upload_action_decision (collab calm) note1 "n1.md" None running)));
      reflexivity.
  - destruct (proj2 (proj2 (upload_action_decision (collab calm) note1 "n1.md"
                              (Some remote1) running))
                remote1 "content" _ newer _ eq_refl eq_refl ltac:(discriminate) eq_refl)
      as [reason H].
    exists reason. eexists. exact H.
Defined.


Lemma done_paths_never_twice_witness :
  (exists e,
     uploadItem (collab calm) (mkNeedSync [note1] false []) note1 revisiting
     = Some (Throw e, revisiting)
     /\ code e = "processingPathTwice")
  /\ (exists r w',
       uploadStep (collab calm) 3 revisiting = Some (r, w')
       /\ List.NoDup (donePaths (frame w'))).
Proof.
  split.
  - apply (proj1 (done_paths_never_twice (collab calm) (mkNeedSync [note1] false [])
                    note1 0 revisiting) TYPE_NOTE); reflexivity.
  - eexists. eexists. split; [vm_compute; reflexivity|].
    apply (proj2 (proj2 (done_paths_never_twice (collab calm) (mkNeedSync [] false [])
                           note1 3 revisiting)) (Ok tt)).
    vm_compute. reflexivity.
Defined.



Lemma mobile_resource_limit_witness :
  maxResourceSize (self fetching) = Bytes (100 * 1000 * 1000)
  /\ exists r w' evs b,
       processRemote (collab Cases.heavy) 0 [] Cases.remoteR fetching = Some (r, w')
       /\ trace w' = trace fetching ++ evs
       /\ forallb notLocalSave evs = true
       /\ In (EvCall (c_saveSyncDisabled TYPE_RESOURCE 7 (withUserTimes photo)
                        (oversizeReason (withUserTimes photo)
                           (Bytes (100 * 1000 * 1000))) true) b) evs.
Proof.
  destruct (proj1 (mobile_resource_limit (collab Cases.heavy) 0 [] Cases.remoteR fetching
                     eq_refl) eq_refl) as [L R].
  split; [exact L|].
  assert (E : exists r w',
             processRemote (collab Cases.heavy) 0 [] Cases.remoteR fetching = Some (r, w'))
    by (eexists; eexists; vm_compute; reflexivity).
  destruct E as [r [w' E]].
  edestruct (R _ _ "createLocal" TYPE_RESOURCE photo eq_refl eq_refl
               ltac:(vm_compute; reflexivity) eq_refl (or_introl eq_refl)
               eq_refl eq_refl eq_refl ltac:(vm_compute; discriminate))
    as [_ [_ Tr]].
  destruct (Tr r w' E) as [evs [T [A [b I]]]].
  exists r, w', evs, b. auto.
Defined.


Lemma start_alreadyStarted_witness :
  (exists e, start (collab calm) opts 4 running = Some (Throw e, running)
             /\ code e = "alreadyStarted")
  /\ (forall r0 w0,
        beginSync (collab calm) opts pending = Some (r0, w0) ->
        state w0 = "in_progress").
Proof.
  split.
  - apply (proj1 (start_alreadyStarted (collab calm) opts 4 running)). discriminate.
  - intros r0 w0 H.
    apply (proj2 (proj2 (start_alreadyStarted (collab calm) opts 4 pending) eq_refl)
             r0 w0 H).
Defined.



End Witnesses.

(** * Runs that the properties do not cover

    What [start] does when a call it makes outside its [try] block throws,
    and what the delta step does with a cancellation that arrives while the
    last item of a page is processed. *)

Module Counterexamples.

Import Scenario Cases.




End Counterexamples.

(** * Further properties

    Properties of the parts of the code that the sections above leave out:
    the report and its lines, [cancel()], the three steps seen one at a
    time, the ends of [start], and the two string programs. *)

(** ** Strings *)

Section Strings.

Import JsString.

Lemma prefix_spec n h : String.prefix n h = true <-> exists post, h = n +:+ post.
Proof.
  revert h. induction n as [|c n IH]; intros h; simpl.
  - split; [intros _; exists h; reflexivity | intros _; destruct h; reflexivity].
  - destruct h as [|d h]; simpl.
    + split; [discriminate | intros [post H]; discriminate].
    + destruct (Ascii.ascii_dec c d) as [->|N].
      * rewrite IH. split; intros [post H]; exists post;
          [rewrite H; reflexivity | inversion H; reflexivity].
      * split; [discriminate | intros [post H]; inversion H; congruence].
Qed.

Lemma append_cons x a b : String x a +:+ b = String x (a +:+ b).
Proof. reflexivity. Qed.

Lemma append_nil b : "" +:+ b = b.
Proof. reflexivity. Qed.

Lemma prefix_append a b : String.prefix a (a +:+ b) = true.
Proof. apply prefix_spec. exists b. reflexivity. Qed.

Lemma prefix_skip a b c : String.prefix (a +:+ b) (a +:+ c) = String.prefix b c.
Proof.
  induction a as [|x a IH]; [reflexivity|]. rewrite !append_cons. simpl.
  destruct (Ascii.ascii_dec x x); [exact IH|congruence].
Qed.

Lemma indexOf_zero n h : (indexOf n h =? 0) = String.prefix n h.
Proof.
  destruct h as [|c h].
  - destruct n; reflexivity.
  - change (indexOf n (String c h))
      with (if String.prefix n (String c h) then 0
            else if indexOf n h <? 0 then -1 else 1 + indexOf n h).
    destruct (String.prefix n (String c h)); [reflexivity|].
    destruct (indexOf n h <? 0) eqn:E; [reflexivity|].
    apply Z.ltb_ge in E. apply Z.eqb_neq. lia.
Qed.

Lemma substr_append a b : substr (String.length a) (a +:+ b) = b.
Proof.
  induction a as [|x a IH]; [destruct b; reflexivity|].
  rewrite append_cons. simpl. exact IH.
Qed.

Lemma append_assoc (a b c : string) : (a +:+ b) +:+ c = a +:+ (b +:+ c).
Proof.
  induction a as [|x a IH]; [reflexivity|]. rewrite !append_cons, IH. reflexivity.
Qed.

Lemma prefix_cons a s1 b s2 :
  String.prefix (String a s1) (String b s2)
  = if Ascii.ascii_dec a b then String.prefix s1 s2 else false.
Proof. reflexivity. Qed.

Lemma prefix_empty s : String.prefix "" s = true.
Proof. destruct s; reflexivity. Qed.

Lemma dotted_prefix p q k :
  String.prefix (p +:+ ".") (q +:+ "." +:+ k) = true ->
  p = q \/ String.prefix (p +:+ ".") q = true \/ String.prefix (q +:+ ".") p = true.
Proof.
  revert q. induction p as [|c p IH]; intros q H.
  - destruct q as [|d q]; [auto|]. right. left.
    rewrite append_nil in *. rewrite append_cons in H.
    change "." with (String "."%char "") in *. rewrite prefix_cons in *.
    destruct (Ascii.ascii_dec "." d); [apply prefix_empty|discriminate].
  - destruct q as [|d q].
    + right. right. rewrite append_nil in *. rewrite append_cons in H.
      change ("." +:+ k) with (String "."%char k) in H.
      change "." with (String "."%char "").
      rewrite prefix_cons in *.
      destruct (Ascii.ascii_dec c "."); [subst c|discriminate].
      destruct (Ascii.ascii_dec "." "."); [apply prefix_empty|congruence].
    + rewrite !append_cons, prefix_cons in H.
      destruct (Ascii.ascii_dec c d) as [->|]; [|discriminate].
      destruct (IH q H) as [->|[I|I]]; [auto|right; left|right; right];
        rewrite append_cons, prefix_cons;
        (destruct (Ascii.ascii_dec d d); [exact I|congruence]).
Qed.

Lemma append_empty_r s : s +:+ "" = s.
Proof. induction s as [|c s IH]; [reflexivity|]. rewrite append_cons, IH. reflexivity. Qed.

Lemma split_cons separator c rest :
  split separator (String c rest)
  = if Ascii.eqb c separator then EmptyString :: split separator rest
    else match split separator rest with
         | first :: others => String c first :: others
         | [] => [String c EmptyString]
         end.
Proof. reflexivity. Qed.

Lemma split_occurs_not separator s : occurs separator s = false -> split separator s = [s].
Proof.
  induction s as [|c s IH]; [reflexivity|]. simpl occurs. intros H.
  apply orb_false_iff in H as [H1 H2]. rewrite split_cons, H1, (IH H2). reflexivity.
Qed.

Lemma split_append separator a b :
  occurs separator a = false ->
  split separator (a +:+ String separator b) = a :: split separator b.
Proof.
  induction a as [|c a IH]; intros H.
  - rewrite append_nil, split_cons, Ascii.eqb_refl. reflexivity.
  - simpl occurs in H. apply orb_false_iff in H as [H1 H2].
    rewrite append_cons, split_cons, H1, (IH H2). reflexivity.
Qed.

Lemma split_nonempty separator s : exists first others, split separator s = first :: others.
Proof.
  destruct s as [|c s]; [eexists; eexists; reflexivity|]. rewrite split_cons.
  destruct (Ascii.eqb c separator); [eauto|].
  destruct (split separator s); eauto.
Qed.

Lemma indexOf_cons n c h :
  indexOf n (String c h)
  = if String.prefix n (String c h) then 0
    else if indexOf n h <? 0 then -1 else 1 + indexOf n h.
Proof. reflexivity. Qed.

Lemma indexOf_skip n c h :
  String.prefix n (String c h) = false ->
  indexOf n (String c h) = if indexOf n h <? 0 then -1 else 1 + indexOf n h.
Proof. intros H. rewrite indexOf_cons, H. reflexivity. Qed.

Lemma indexOf_absent c n h : occurs c h = false -> indexOf (String c n) h = -1.
Proof.
  induction h as [|d h IH]; [reflexivity|]. simpl occurs. intros H.
  apply orb_false_iff in H as [H1 H2]. rewrite indexOf_skip, (IH H2); [reflexivity|].
  rewrite prefix_cons. destruct (Ascii.ascii_dec c d) as [->|]; [|reflexivity].
  rewrite Ascii.eqb_refl in H1. discriminate.
Qed.

Lemma indexOf_append_nonneg a n : 0 <= indexOf n (a +:+ n).
Proof.
  induction a as [|c a IH].
  - rewrite append_nil. destruct n as [|d n]; [reflexivity|].
    rewrite indexOf_cons.
    replace (String.prefix (String d n) (String d n)) with true; [reflexivity|].
    symmetry. apply prefix_spec. exists "". rewrite append_empty_r. reflexivity.
  - rewrite append_cons, indexOf_cons.
    destruct (String.prefix n (String c (a +:+ n))); [reflexivity|].
    destruct (indexOf n (a +:+ n) <? 0) eqn:E; [apply Z.ltb_lt in E; lia|lia].
Qed.

Lemma indexOf_after n c a :
  String.prefix n (String c (a +:+ n)) = false -> 0 < indexOf n (String c (a +:+ n)).
Proof.
  intros H. rewrite indexOf_skip by exact H. pose proof (indexOf_append_nonneg a n).
  destruct (indexOf n (a +:+ n) <? 0) eqn:E; [apply Z.ltb_lt in E; lia|lia].
Qed.

End Strings.

(** The frames of the parts of a run, one after the other, for a frame
    whose laws hold by computation. *)
Ltac keeps_upload C K A :=
  assert (forall result local, keeps K A (uploadItem C result local))
    by (intros; unfold_blocks; keeps_auto);
  assert (forall result locals, keeps K A (uploadItems C result locals))
    by (intros; match goal with |- keeps _ _ (uploadItems _ _ ?l) => induction l end;
        simpl; keeps_auto);
  assert (forall fuel, keeps K A (uploadLoop C fuel))
    by (intros; match goal with |- keeps _ _ (uploadLoop _ ?n) => induction n end;
        simpl; keeps_auto).

Ltac keeps_deleteRemote C K A :=
  assert (forall items, keeps K A (deleteRemoteItems C items))
    by (intros; match goal with |- keeps _ _ (deleteRemoteItems _ ?l) => induction l end;
        simpl; unfold_blocks; keeps_auto).

(** The delta step, from the frame of [processRemote] for the number of
    master keys [n]. *)
Ltac keeps_deltaLoop C K A n :=
  assert (forall locals remotes, keeps K A (enqueueDownloads C locals remotes))
    by (intros; match goal with |- keeps _ _ (enqueueDownloads _ _ ?l) => induction l end;
        simpl; keeps_auto);
  assert (forall locals remotes, keeps K A (processRemotes C n locals remotes))
    by (intros; match goal with |- keeps _ _ (processRemotes _ _ _ ?l) => induction l end;
        simpl; keeps_auto);
  assert (forall options fuel, keeps K A (deltaLoop C options n fuel))
    by (intros; match goal with |- keeps _ _ (deltaLoop _ _ _ ?f) => induction f end;
        simpl; unfold processPage, recordPage, apiCall, lockErrorStatus_; keeps_auto).

Ltac keeps_delta C K A n :=
  keeps_deltaLoop C K A n;
  assert (forall folders, keeps K A (deleteLocalFolders C folders))
    by (intros; match goal with |- keeps _ _ (deleteLocalFolders _ ?l) => induction l end;
        simpl; keeps_auto).

Ltac keeps_processRemote C K A n :=
  assert (forall locals remote, keeps K A (processRemote C n locals remote))
    by (intros; unfold_blocks; keeps_auto).

Ltac keeps_syncBody C K A n :=
  keeps_upload C K A; keeps_deleteRemote C K A; keeps_delta C K A n;
  assert (forall options lastContext steps fuel,
            keeps K A (runSteps C options lastContext steps n fuel))
    by (intros; unfold runSteps, uploadStep, deleteRemoteStep, deltaStep; keeps_auto);
  assert (forall options lastContext steps fuel,
            keeps K A (syncBody C options lastContext steps n fuel))
    by (intros; unfold syncBody, prepareTarget; keeps_auto).

Ltac keeps_start C K A :=
  assert (forall options lastContext steps n fuel,
            keeps K A (syncBody C options lastContext steps n fuel))
    by (intros ? ? ? ?n ?;
        match goal with
        | |- keeps _ _ (syncBody _ _ _ _ ?n _) =>
            keeps_processRemote C K A n; keeps_syncBody C K A n
        end; auto);
  assert (forall throwOnError error, keeps K A (onSyncError C throwOnError error))
    by (intros; unfold onSyncError; keeps_auto);
  assert (forall steps sid, keeps K A (finishSync C steps sid))
    by (intros; unfold finishSync, releaseSyncLock, closeReport, logSyncSummary;
        keeps_auto);
  assert (forall options, keeps K A (beginSync C options))
    by (intros; unfold beginSync; keeps_auto);
  assert (forall options fuel, keeps K A (start C options fuel))
    by (intros; unfold start; keeps_auto).

(** ** Runs *)

Section FurtherProperties.

Context {Ext : Type} (C : Collab Ext).

Local Abbreviation World := (World Ext).
Local Abbreviation M := (M Ext).
Local Abbreviation sameErrors := (sameErrors (Ext:=Ext)).

Lemma keeps_bind_ret {X A B} (keep : Synchronizer -> Frame -> option Lock -> X)
    allowed (a : A) (k : A -> M B) :
  keeps keep allowed (k a) -> keeps keep allowed (bind (ret a) k).
Proof. intros H w r w' E. exact (H w r w' E). Qed.
Lemma keeps_bind_throw {X A B} (keep : Synchronizer -> Frame -> option Lock -> X)
    allowed e (k : A -> M B) :
  keeps keep allowed (bind (throw e) k).
Proof. intros w r w' E. inversion E; subst. apply steady_refl. Qed.

Lemma call_origin {A} c (f : Ext -> Res A * Ext) (w : World) r w' :
  call C c f w = Some (r, w') -> exists e', f (ext w) = (r, e').
Proof.
  unfold call. destruct (f (ext w)) as [r0 e0]. intros H. inversion H; subst. eauto.
Qed.

Lemma loadContent_origin p (w : World) content w' :
  loadContent C p w = Some (Ok (Some content), w') ->
  exists s e e', unserialize C s e = (Ok content, e').
Proof.
  unfold loadContent. intros H.
  apply bind_inv in H as [[task [w1 [_ H]]]|[e [_ F]]]; [|discriminate F].
  destruct (task_error task); [discriminate H|].
  destruct (task_result task) as [[|c s]|]; try discriminate H.
  apply bind_inv in H as [[item [w2 [E H]]]|[e [_ F]]]; [|discriminate F].
  inversion H; subst. apply call_origin in E as [e' E]. eauto.
Qed.

Lemma itemClass_ok t cls : itemClass t = Ok cls -> cls = t.
Proof. destruct t; intros H; inversion H; reflexivity. Qed.

Lemma call_returns {X} (keep : Synchronizer -> Frame -> option Lock -> X)
    allowed {HC : Calm keep allowed} {A} c (f : Ext -> Res A * Ext) (w : World) :
  never_throws f -> allowed (EvCall c true) = true ->
  exists a w', call C c f w = Some (Ok a, w') /\ steady keep allowed w w'.
Proof.
  intros Hf Hc. destruct (Hf (ext w)) as [a [e' E]].
  exists a. eexists. unfold call. rewrite E. split; [reflexivity|].
  eapply steady_trans; [apply steady_set_ext|].
  eapply steady_trans; [apply steady_record, Hc|].
  apply steady_resume, HC.
Qed.

Lemma call_throws {X} (keep : Synchronizer -> Frame -> option Lock -> X)
    allowed {HC : Calm keep allowed} {A} c (f : Ext -> Res A * Ext) error (w : World) :
  always_throws error f -> allowed (EvCall c false) = true ->
  exists w', call C c f w = Some (Throw error, w') /\ steady keep allowed w w'.
Proof.
  intros Hf Hc. destruct (Hf (ext w)) as [e' E].
  eexists. unfold call. rewrite E. split; [reflexivity|].
  eapply steady_trans; [apply steady_set_ext|].
  eapply steady_trans; [apply steady_record, Hc|].
  apply steady_resume, HC.
Qed.

Lemma apiCall_ok_trace {X} (keep : Synchronizer -> Frame -> option Lock -> X)
    allowed {HC : Calm keep allowed} {A} c (f : Ext -> Res A * Ext)
    (w : World) a w' :
  apiCall C c f w = Some (Ok a, w') ->
  exists evs, trace w' = trace w ++ EvCall c true :: evs
              /\ forallb allowed evs = true.
Proof.
  unfold apiCall. intros H. inv_pure H.
  destruct (syncTargetIsLocked_ (self w)); [discriminate H|].
  apply bind_inv in H as [[x [w1 [E H]]]|[e [E F]]]; [|discriminate F].
  apply attempt_inv in E as [r0 [E Q]]. inversion Q; subst x. clear Q.
  destruct r0 as [a0|e0].
  - inversion H; subst. apply (call_trace C keep allowed) in E. exact E.
  - apply bind_inv in H as [[s [w2 [_ H]]]|[e [_ F]]]; [|discriminate F].
    destruct (truthy s); discriminate H.
Qed.

Lemma cancel_when_cancelling (w : World) : cancelling w = true -> cancel C w = w.
Proof. intros H. unfold cancel. rewrite H. reflexivity. Qed.

Lemma interrupt_when_cancelling (w : World) i :
  cancelling w = true ->
  cancelling (interrupt C w i) = true
  /\ frame (interrupt C w i) = frame w
  /\ downloadQueue_ (self (interrupt C w i)) = downloadQueue_ (self w)
  /\ exists evs, trace (interrupt C w i) = trace w ++ evs
                 /\ forallb isLoggerEvent evs = true.
Proof.
  intros H. destruct i as [|e]; simpl.
  - rewrite cancel_when_cancelling by exact H.
    repeat split; auto. exists []. rewrite app_nil_r. auto.
  - destruct (refresh w).
    + unfold onLockRefreshError. rewrite cancel_when_cancelling by exact H.
      repeat split; auto. eexists [_]. split; reflexivity.
    + repeat split; auto. exists []. rewrite app_nil_r. auto.
Qed.

Lemma resume_when_cancelling (w : World) :
  cancelling w = true ->
  cancelling (resume C w) = true
  /\ frame (resume C w) = frame w
  /\ downloadQueue_ (self (resume C w)) = downloadQueue_ (self w)
  /\ exists evs, trace (resume C w) = trace w ++ evs
                 /\ forallb isLoggerEvent evs = true.
Proof.
  unfold resume. destruct (pending C (ext w)) as [arrived e].
  change (cancelling w) with (cancelling (set_ext e w)).
  change (frame w) with (frame (set_ext e w)).
  change (self w) with (self (set_ext e w)).
  change (trace w) with (trace (set_ext e w)).
  generalize (set_ext e w). clear w e.
  induction arrived as [|i rest IH]; intros w H; simpl.
  - repeat split; auto. exists []. rewrite app_nil_r. auto.
  - destruct (interrupt_when_cancelling w i H) as [H1 [H2 [H3 [evs [T L]]]]].
    destruct (IH _ H1) as [I1 [I2 [I3 [evs2 [T2 L2]]]]].
    split; [exact I1|]. split; [congruence|]. split; [congruence|].
    exists (evs ++ evs2). rewrite T2, T, <- app_assoc, forallb_app, L, L2. auto.
Qed.

Lemma call_when_cancelling {A} c (f : Ext -> Res A * Ext) (w : World) :
  cancelling w = true ->
  exists r w',
    call C c f w = Some (r, w')
    /\ cancelling w' = true /\ frame w' = frame w
    /\ downloadQueue_ (self w') = downloadQueue_ (self w)
    /\ exists evs, trace w' = trace w ++ EvCall c (isOk r) :: evs
                   /\ forallb isLoggerEvent evs = true.
Proof.
  intros H. unfold call. destruct (f (ext w)) as [r e].
  exists r. eexists. split; [reflexivity|].
  destruct (resume_when_cancelling (record (EvCall c (isOk r)) (set_ext e w)) H)
    as [H1 [H2 [H3 [evs [T L]]]]].
  split; [exact H1|]. split; [exact H2|]. split; [exact H3|].
  exists evs. rewrite T. simpl. rewrite <- app_assoc. auto.
Qed.

Lemma logger_idle evs : forallb isLoggerEvent evs = true -> forallb isIdleEvent evs = true.
Proof.
  intros H. apply forallb_forall. intros ev I.
  rewrite forallb_forall in H. specialize (H ev I). destruct ev; try discriminate.
  reflexivity.
Qed.

Lemma quiet_ret {A} (a : A) : quiet (ret a : M A).
Proof.
  intros w H. exists (Ok a), w, []. rewrite app_nil_r. auto.
Qed.

Lemma quiet_throw {A} e : quiet (throw e : M A).
Proof.
  intros w H. exists (Throw e), w, []. rewrite app_nil_r. auto.
Qed.

Lemma quiet_bind {A B} (m : M A) (k : A -> M B) :
  quiet m -> (forall a, quiet (k a)) -> quiet (bind m k).
Proof.
  intros Hm Hk w H. destruct (Hm w H) as [[a|e] [w1 [evs [E [H1 [T L]]]]]].
  - destruct (Hk a w1 H1) as [r [w2 [evs2 [E2 [H2 [T2 L2]]]]]].
    exists r, w2, (evs ++ evs2). unfold bind. rewrite E.
    rewrite T2, T, <- app_assoc, forallb_app, L, L2. auto.
  - exists (Throw e), w1, evs. unfold bind. rewrite E. auto.
Qed.

Lemma quiet_gets_when {B} (f : World -> bool) (k : bool -> M B) :
  (forall w : World, cancelling w = true -> f w = true) ->
  quiet (k true) -> quiet (bind (gets f) k).
Proof.
  intros Hf Hk w H. unfold bind, gets. rewrite (Hf w H). apply Hk, H.
Qed.

Lemma quiet_gets {A B} (f : World -> A) (k : A -> M B) :
  (forall a, quiet (k a)) -> quiet (bind (gets f) k).
Proof. intros Hk w H. unfold bind, gets. apply Hk, H. Qed.

Lemma quiet_modify (f : World -> World) :
  (forall w : World, cancelling (f w) = cancelling w /\ trace (f w) = trace w) ->
  quiet (modify f).
Proof.
  intros Hf w H. exists (Ok tt), (f w), []. destruct (Hf w) as [H1 H2].
  unfold cancelling in H1. rewrite app_nil_r, H1. auto.
Qed.

Lemma quiet_call {A} c (f : Ext -> Res A * Ext) :
  (forall b, isIdleEvent (EvCall c b) = true) -> quiet (call C c f).
Proof.
  intros Hc w H. destruct (call_when_cancelling c f w H)
    as [r [w' [E [H1 [_ [_ [evs [T L]]]]]]]].
  exists r, w', (EvCall c (isOk r) :: evs).
  split; [exact E|]. split; [exact H1|]. split; [exact T|].
  cbn [forallb]. rewrite Hc, (logger_idle _ L). reflexivity.
Qed.

Lemma quiet_callSync {A} c (f : Ext -> Res A * Ext) :
  (forall b, isIdleEvent (EvCall c b) = true) -> quiet (callSync c f).
Proof.
  intros Hc w H. unfold callSync. destruct (f (ext w)) as [r e].
  eexists r, _, [_]. split; [reflexivity|]. split; [exact H|].
  split; [reflexivity|]. cbn [forallb]. rewrite Hc. reflexivity.
Qed.

Lemma quiet_deleteRemoteItems items : quiet (deleteRemoteItems C items).
Proof.
  destruct items; simpl; [apply quiet_ret|].
  apply quiet_gets_when; [auto|apply quiet_ret].
Qed.

Lemma sameErrors_refl w : sameErrors w w.
Proof. split; [reflexivity|]. exists []. rewrite app_nil_r. reflexivity. Qed.

Lemma sameErrors_trans w1 w2 w3 : sameErrors w1 w2 -> sameErrors w2 w3 -> sameErrors w1 w3.
Proof.
  intros [E1 [a T1]] [E2 [b T2]]. split; [congruence|].
  exists (a ++ b). rewrite T2, T1, app_assoc. reflexivity.
Qed.

Lemma sameErrors_record ev (w : World) : sameErrors w (record ev w).
Proof. split; [reflexivity|]. exists [ev]. reflexivity. Qed.

Lemma sameErrors_logSyncOperation action local remote message n (w : World) :
  sameErrors w (logSyncOperation C action local remote message n w).
Proof.
  unfold logSyncOperation. split.
  - simpl. destruct (onProgress_ (self w)); reflexivity.
  - simpl. destruct (onProgress_ (self w)); simpl; eexists; rewrite <- !app_assoc;
      reflexivity.
Qed.

Lemma sameErrors_cancel (w : World) : sameErrors w (cancel C w).
Proof.
  unfold cancel. destruct (cancelling w || String.eqb (state w) "idle");
    [apply sameErrors_refl|].
  match goal with
  | |- sameErrors _ (on_self _ (logSyncOperation C ?a ?l ?r ?m ?n ?v)) =>
      pose proof (sameErrors_logSyncOperation a l r m n v) as [L1 [evs L2]];
      assert (V : sameErrors w v)
        by (destruct (downloadQueue_ (self w));
            [destruct (queue_stop C (ext w)); split; [reflexivity|eexists; reflexivity]
            |apply sameErrors_refl]);
      set (w2 := logSyncOperation C a l r m n v) in *
  end.
  clearbody w2. destruct V as [V1 [pre V2]]. split.
  - simpl. congruence.
  - simpl. exists (pre ++ evs). rewrite L2, V2, app_assoc. reflexivity.
Qed.

Lemma sameErrors_interrupt (w : World) i : sameErrors w (interrupt C w i).
Proof.
  destruct i as [|e]; simpl; [apply sameErrors_cancel|].
  destruct (refresh w); [|apply sameErrors_refl].
  unfold onLockRefreshError.
  eapply sameErrors_trans; [|apply sameErrors_cancel].
  split; [reflexivity|]. eexists. reflexivity.
Qed.

Lemma sameErrors_resume (w : World) : sameErrors w (resume C w).
Proof.
  unfold resume. destruct (pending C (ext w)) as [arrived e].
  eapply sameErrors_trans with (w2 := set_ext e w);
    [split; [reflexivity|exists []; simpl; rewrite app_nil_r; reflexivity]|].
  generalize (set_ext e w). induction arrived as [|i rest IH]; intros v; simpl.
  - apply sameErrors_refl.
  - eapply sameErrors_trans; [apply sameErrors_interrupt|apply IH].
Qed.

Lemma sameErrors_on_self f (w : World) :
  (forall s, errors (progressReport_ (f s)) = errors (progressReport_ s)) ->
  sameErrors w (on_self f w).
Proof.
  intros H. split; [apply H|]. exists []. simpl. rewrite app_nil_r. reflexivity.
Qed.

Lemma gentle_ret {A} (a : A) : gentle (ret a : M A).
Proof. intros w r w' H. inversion H; subst. apply sameErrors_refl. Qed.

Lemma gentle_gets {A} (f : World -> A) : gentle (gets f).
Proof. intros w r w' H. inversion H; subst. apply sameErrors_refl. Qed.

Lemma gentle_bind {A B} (m : M A) (k : A -> M B) :
  gentle m -> (forall a, gentle (k a)) -> gentle (bind m k).
Proof.
  intros Hm Hk w r w' H. apply bind_inv in H as [[a [w1 [H1 H2]]]|[e [H1 _]]].
  - eapply sameErrors_trans; [eapply Hm | eapply Hk]; eauto.
  - eapply Hm; eauto.
Qed.

Lemma gentle_attempt {A} (m : M A) : gentle m -> gentle (attempt m).
Proof. intros Hm w r w' H. apply attempt_inv in H as [r0 [H _]]. eapply Hm; eauto. Qed.

Lemma gentle_modify (f : World -> World) :
  (forall w, sameErrors w (f w)) -> gentle (modify f).
Proof. intros Hf w r w' H. inversion H; subst. apply Hf. Qed.

Lemma gentle_call {A} c (f : Ext -> Res A * Ext) : gentle (call C c f).
Proof.
  intros w r w' H. unfold call in H. destruct (f (ext w)) as [r0 e].
  inversion H; subst.
  eapply sameErrors_trans; [|apply sameErrors_resume].
  split; [reflexivity|]. eexists. reflexivity.
Qed.

Lemma gentle_logLines level lines : gentle (logLines level lines : M unit).
Proof.
  apply gentle_modify. intros w. revert w.
  induction lines as [|l rest IH]; intros w; simpl; [apply sameErrors_refl|].
  eapply sameErrors_trans; [apply sameErrors_record|apply IH].
Qed.

Lemma counter_set_same action v l : counter action (set_counter action v l) = Some v.
Proof.
  induction l as [|[k x] l IH]; simpl.
  - rewrite String.eqb_refl. reflexivity.
  - destruct (String.eqb k action) eqn:E; simpl; rewrite E; auto.
Qed.

Lemma counter_set_other action other v l :
  other <> action -> counter other (set_counter action v l) = counter other l.
Proof.
  intros N. induction l as [|[k x] l IH]; simpl.
  - destruct (String.eqb_spec action other); congruence.
  - destruct (String.eqb_spec k action) as [->|Nk]; simpl.
    + destruct (String.eqb_spec action other); congruence.
    + destruct (String.eqb k other); auto.
Qed.

Lemma hasLine_app f a b : hasLine f (a ++ b) = hasLine f a || hasLine f b.
Proof. apply existsb_app. Qed.

Lemma hasLine_if f (c : bool) g args :
  hasLine f (if c then [(g, args)] else []) = c && String.eqb g f.
Proof. destruct c; simpl; [rewrite orb_false_r|]; reflexivity. Qed.

Lemma hasLine_unless f (c : bool) g args :
  hasLine f (if c then [] else [(g, args)]) = negb c && String.eqb g f.
Proof. destruct c; simpl; [|rewrite orb_false_r]; reflexivity. Qed.

Lemma hasLine_cancelling formatMsToLocal errorToString report :
  hasLine "Cancelling..." (reportLines formatMsToLocal errorToString report)
  = negb (counted "cancelling" report =? 0) && negb (truthyTime (completedTime report)).
Proof.
  unfold reportLines. rewrite !hasLine_app, !hasLine_unless, !hasLine_if.
  destruct (completedTime report) as [t|]; [rewrite hasLine_unless|];
    simpl; rewrite ?andb_false_r, ?andb_true_r, ?orb_false_r; reflexivity.
Qed.

Lemma hasLine_completed formatMsToLocal errorToString report :
  hasLine "Completed: %s (%s)" (reportLines formatMsToLocal errorToString report)
  = truthyTime (completedTime report).
Proof.
  unfold reportLines. rewrite !hasLine_app, !hasLine_unless, !hasLine_if.
  destruct (completedTime report) as [t|]; [rewrite hasLine_unless|];
    simpl; rewrite ?andb_false_r, ?andb_true_r, ?orb_false_r; reflexivity.
Qed.

Ltac gentle_step :=
  lazymatch goal with
  | |- gentle (bind _ _) => apply gentle_bind; [| intros]
  | |- gentle (ret _) => apply gentle_ret
  | |- gentle (gets _) => apply gentle_gets
  | |- gentle (now _) => apply gentle_gets
  | |- gentle (attempt _) => apply gentle_attempt
  | |- gentle (logger _ _) => apply gentle_modify; intros; apply sameErrors_record
  | |- gentle (logLines _ _) => apply gentle_logLines
  | |- gentle (call _ _ _) => apply gentle_call
  | |- gentle (modify (logSyncOperation _ _ _ _ _ _)) =>
      apply gentle_modify; intros; apply sameErrors_logSyncOperation
  | |- gentle (modify (record _)) => apply gentle_modify; intros; apply sameErrors_record
  | |- gentle (modify (on_self _)) =>
      apply gentle_modify; intros; apply sameErrors_on_self; intros; reflexivity
  | |- gentle (match ?x with _ => _ end) => destruct x
  end.

(** ** The synchronizer *)

#[local] Existing Instance any_calm.
#[local] Existing Instance catch_calm.

#[local] Instance remoteRead_calm : Calm noKeep notRemoteRead.
Proof. split; intros; reflexivity. Qed.

#[local] Instance overwrite_calm : Calm noKeep notOverwrite.
Proof. split; intros; reflexivity. Qed.

#[local] Instance acknowledgement_calm : Calm noKeep notAcknowledgement.
Proof. split; intros; reflexivity. Qed.

#[local] Instance write_calm : Calm noKeep notLocalWrite.
Proof. split; intros; reflexivity. Qed.

#[local] Instance stripped_calm : Calm noKeep strippedSave.
Proof. split; intros; reflexivity. Qed.

#[local] Instance folder_calm : Calm noKeep notFolderDeletion.
Proof. split; intros; reflexivity. Qed.

#[local] Instance processing_calm : Calm noKeep notItemProcessing.
Proof. split; intros; reflexivity. Qed.

#[local] Instance encryption_calm : Calm noKeep notEncryptionSetup.
Proof. split; intros; reflexivity. Qed.

#[local] Instance context_calm : Calm contextKeep anyEvent.
Proof. split; intros; reflexivity. Qed.

#[local] Instance other_calm : Calm otherKeep anyEvent.
Proof. split; intros; reflexivity. Qed.

#[local] Instance preparation_calm : Calm heldKeep isPreparation.
Proof. split; intros; reflexivity. Qed.

(** *** The report *)

Lemma logSyncOperation_effect (action : string) (local : option Item)
    (remote : option RemoteItem) (message : string) (actionCount : Z) (w : World) :
  let w' := logSyncOperation C action local remote message actionCount w in
  let r := progressReport_ (self w) in
  let r' := progressReport_ (self w') in
  counted action r' = counted action r + actionCount
  /\ (forall other, other <> action ->
        counter other (counters r') = counter other (counters r))
  /\ errors r' = errors r /\ startTime r' = startTime r
  /\ completedTime r' = completedTime r
  /\ rstate r' = Some (state w)
  /\ self w' = set_progressReport_ r' (self w)
  /\ frame w' = frame w /\ refresh w' = refresh w /\ ext w' = ext w
  /\ exists evs, trace w' = trace w ++ evs ++ [EvDispatch (SYNC_REPORT_UPDATE r')]
                 /\ forallb isNote evs = true.
Proof.
  unfold logSyncOperation, counted. simpl.
  destruct (onProgress_ (self w)) eqn:P; simpl; rewrite counter_set_same;
    (split; [reflexivity|]);
    (split; [intros other N; apply counter_set_other, N|]);
    (do 8 (split; [reflexivity|])).
  - eexists [_; _]. simpl. rewrite <- !app_assoc. split; reflexivity.
  - eexists [_]. simpl. rewrite <- !app_assoc. split; reflexivity.
Qed.

(** X3.  [reportToLines] never gives both the line [Cancelling...] and the
    line [Completed: ...]: it gives the first for a report whose
    [cancelling] counter is set and that has no completed time, the second
    for a report that has one. *)
Theorem reportLines_cancelling_or_completed formatMsToLocal errorToString report :
  let lines := reportLines formatMsToLocal errorToString report in
  hasLine "Cancelling..." lines && hasLine "Completed: %s (%s)" lines = false
  /\ hasLine "Cancelling..." lines
     = negb (counted "cancelling" report =? 0)
       && negb (truthyTime (completedTime report))
  /\ hasLine "Completed: %s (%s)" lines = truthyTime (completedTime report).
Proof.
  simpl. rewrite hasLine_cancelling, hasLine_completed.
  split; [|split; reflexivity].
  destruct (truthyTime (completedTime report)); simpl;
    rewrite ?andb_false_r; reflexivity.
Qed.

(** *** [cancel()] *)

(** X4.  [cancel()] twice is [cancel()] once, and [cancel()] does nothing
    when a cancellation is already under way or in the idle state; it never
    changes the state, the lock flag, the frame of the run or the refresh
    registration. *)
Theorem cancel_idempotent (w : World) :
  cancel C (cancel C w) = cancel C w
  /\ (cancelling w = true \/ state w = "idle" -> cancel C w = w)
  /\ state (cancel C w) = state w
  /\ syncTargetIsLocked_ (self (cancel C w)) = syncTargetIsLocked_ (self w)
  /\ frame (cancel C w) = frame w
  /\ refresh (cancel C w) = refresh w.
Proof.
  assert (K : forall (v : World), state (logSyncOperation C "cancelling" None None "" 1 v) = state v
              /\ syncTargetIsLocked_ (self (logSyncOperation C "cancelling" None None "" 1 v))
                 = syncTargetIsLocked_ (self v)).
  { intros v. unfold logSyncOperation. simpl.
    destruct (onProgress_ (self v)); split; reflexivity. }
  split; [|split].
  - unfold cancel at 1.
    destruct (cancelling (cancel C w) || String.eqb (state (cancel C w)) "idle") eqn:E;
      [reflexivity|].
    exfalso. apply orb_false_iff in E as [E1 E2].
    unfold cancel in E1, E2.
    destruct (cancelling w || String.eqb (state w) "idle") eqn:F.
    + rewrite E1, E2 in F. discriminate.
    + unfold cancelling in E1. simpl in E1. discriminate.
  - intros H. unfold cancel.
    destruct H as [H|H]; [rewrite H; reflexivity|].
    rewrite H. simpl. rewrite orb_true_r. reflexivity.
  - unfold cancel. destruct (cancelling w || String.eqb (state w) "idle");
      [repeat split; reflexivity|].
    assert (Q : forall (v : World),
               frame (logSyncOperation C "cancelling" None None "" 1 v) = frame v
               /\ refresh (logSyncOperation C "cancelling" None None "" 1 v) = refresh v).
    { intros v. unfold logSyncOperation. simpl.
      destruct (onProgress_ (self v)); split; reflexivity. }
    match goal with
    | |- context [logSyncOperation C "cancelling" None None "" 1 ?v] =>
        specialize (K v); specialize (Q v);
        destruct K as [K1 K2]; destruct Q as [Q1 Q2];
        set (w2 := logSyncOperation C "cancelling" None None "" 1 v) in *;
        assert (V : state v = state w /\ syncTargetIsLocked_ (self v) = syncTargetIsLocked_ (self w)
                    /\ frame v = frame w /\ refresh v = refresh w)
          by (destruct (downloadQueue_ (self w));
              [destruct (queue_stop C (ext w))|]; repeat split; reflexivity)
    end.
    destruct V as [V1 [V2 [V3 V4]]].
    clearbody w2. unfold state in *. simpl.
    rewrite K1, K2, Q1, Q2. auto.
Qed.

(** X5.  In a run that is not being cancelled yet, [cancel()] sets
    [cancelling_], adds 1 to the [cancelling] counter of the report, stops
    the download queue first when there is one, and dispatches the report
    last; and for a report that is not completed (and whose counter was not
    negative) [reportToLines] then gives the line [Cancelling...]. *)
Theorem cancel_shows_cancelling formatMsToLocal errorToString (w : World) :
  state w <> "idle" -> cancelling w = false ->
  let w' := cancel C w in
  let r := progressReport_ (self w) in
  let r' := progressReport_ (self w') in
  cancelling w' = true
  /\ counted "cancelling" r' = counted "cancelling" r + 1
  /\ (exists evs,
        trace w' = trace w ++ evs ++ [EvDispatch (SYNC_REPORT_UPDATE r')]
        /\ if downloadQueue_ (self w)
           then exists b rest, evs = EvCall c_queue_stop b :: rest
                               /\ forallb isNote rest = true
           else forallb isNote evs = true)
  /\ (0 <= counted "cancelling" r -> completedTime r = None ->
      hasLine "Cancelling..." (reportLines formatMsToLocal errorToString r') = true).
Proof.
  intros S N. cbv zeta. unfold cancel. rewrite N.
  rewrite (proj2 (String.eqb_neq _ _) S). cbn [orb].
  match goal with
  | |- context [logSyncOperation C "cancelling" None None "" 1 ?v] =>
      pose proof (logSyncOperation_effect "cancelling" None None "" 1 v) as L;
      assert (V : progressReport_ (self v) = progressReport_ (self w)
                  /\ exists pre, trace v = trace w ++ pre
                     /\ if downloadQueue_ (self w)
                        then exists b, pre = [EvCall c_queue_stop b]
                        else pre = [])
        by (destruct (downloadQueue_ (self w));
            [destruct (queue_stop C (ext w)) as [r0 e0]; split; [reflexivity|];
             eexists; split; [reflexivity|]; eexists; reflexivity
            |split; [reflexivity|]; exists []; rewrite app_nil_r; auto]);
      set (w2 := logSyncOperation C "cancelling" None None "" 1 v) in *
  end.
  clearbody w2. cbv zeta in L. simpl.
  split; [reflexivity|].
  destruct V as [V [pre [T Q]]]. rewrite V in L.
  destruct L as [L1 [_ [_ [_ [L5 [_ [_ [_ [_ [_ [evs [L11 L12]]]]]]]]]]]].
  split; [exact L1|]. split.
  - exists (pre ++ evs). rewrite L11, T, <- !app_assoc. split; [reflexivity|].
    destruct (downloadQueue_ (self w)).
    + destruct Q as [b ->]. exists b, evs. split; [reflexivity|exact L12].
    + subst pre. exact L12.
  - intros P D. rewrite hasLine_cancelling, L1, L5, D. simpl.
    rewrite andb_true_r. apply negb_true_iff, Z.eqb_neq. lia.
Qed.

(** *** [apiCall] *)

(** X6.  With the lock flag clear: when the call to the backend returns,
    [apiCall] returns its value in the world the call left, without any
    query of the locks; and when the call throws and [lockErrorStatus_()]
    throws in its turn, [apiCall] throws the error of the lock check, not
    the original one. *)
Theorem apiCall_passes_through {A} (c : Call) (f : Ext -> Res A * Ext) (w : World) :
  syncTargetIsLocked_ (self w) = false ->
  (forall a w1, call C c f w = Some (Ok a, w1) ->
     apiCall C c f w = Some (Ok a, w1))
  /\ (forall error w1 lockError w2,
        call C c f w = Some (Throw error, w1) ->
        lockErrorStatus_ C w1 = Some (Throw lockError, w2) ->
        apiCall C c f w = Some (Throw lockError, w2)).
Proof.
  intros L. split.
  - intros a w1 H. unfold apiCall, bind, gets, attempt. rewrite L, H. reflexivity.
  - intros error w1 lockError w2 H1 H2.
    unfold apiCall, bind, gets, attempt. rewrite L, H1, H2. reflexivity.
Qed.

(** *** The upload step *)

(** X7.  For a local item that is among [neverSyncedItemIds], the
    iteration of the upload loop reads nothing from the target: no [stat],
    no [get], no deserialisation. *)
Theorem never_synced_items_are_not_fetched (result : NeedSync) (local : Item)
    (w : World) r w' :
  has (id local) (neverSyncedItemIds result) = true ->
  uploadItem C result local w = Some (r, w') ->
  exists evs, trace w' = trace w ++ evs /\ forallb notRemoteRead evs = true.
Proof.
  intros N H.
  assert (K : keeps noKeep notRemoteRead (uploadItem C result local)).
  { unfold uploadItem. rewrite N.
    apply keeps_bind; [keeps_auto|]. intros cls.
    apply keeps_bind; [keeps_auto|]. intros done.
    destruct (has (systemPath C (id local)) done); [keeps_auto|].
    apply keeps_bind_ret. unfold decideUploadAction.
    destruct (sync_time local =? 0); apply keeps_bind_ret;
      (apply keeps_bind; [keeps_auto|]; intros _;
       unfold applyUploadAction, takeRemoteVersion, uploadItemMetadata, tryUploadItem,
         uploadResourceBlob, completeItemProcessing, saveFromSync,
         handleCannotSyncItem, apiCall, lockErrorStatus_, dispatch;
       keeps_auto).
  }
  apply K in H. eapply steady_trace, H.
Qed.

(** X8.  In the upload loop, for an item of a known type whose path is not
    done yet and that was synced before, whose remote exists: when the
    download of the remote content throws [rejectedByTarget], the iteration
    returns, having appended the error to the report's [errors], logged a
    warning and marked the path done, so the loop goes on with the next
    item; when it throws anything else, the iteration throws that error in
    the world the download left. *)
Theorem upload_skips_rejected_download (result : NeedSync) (local : Item)
    (cls : ModelType) (R : RemoteItem) (error : JError) (w w0 w1 : World) :
  let p := systemPath C (id local) in
  itemClass (type_ local) = Ok cls ->
  has p (donePaths (frame w)) = false ->
  has (id local) (neverSyncedItemIds result) = false ->
  apiCall C (c_api_stat p) (api_stat C p) w = Some (Ok (Some R), w0) ->
  apiCall C (c_api_get p) (api_get C p) w0 = Some (Throw error, w1) ->
  (code error = "rejectedByTarget" ->
   exists w2,
     uploadItem C result local w = Some (Ok tt, w2)
     /\ errors (progressReport_ (self w2))
        = errors (progressReport_ (self w1)) ++ [ReportError error]
     /\ donePaths (frame w2) = donePaths (frame w1) ++ [p]
     /\ trace w2
        = trace w1 ++ [EvLogger LWarn ("Rejected by target: " +:+ p +:+ ": "
                                       +:+ message error)])
  /\ (code error <> "rejectedByTarget" ->
      uploadItem C result local w = Some (Throw error, w1)).
Proof.
  intros p Hc Hd Hn Hs Hg. subst p.
  unfold uploadItem, decideUploadAction, bind, of_res, gets, attempt.
  rewrite Hc. simpl. rewrite Hd, Hn, Hs. simpl. rewrite Hg. split.
  - intros ->. simpl. eexists. split; [reflexivity|]. simpl. auto.
  - intros N. apply String.eqb_neq in N. rewrite N. reflexivity.
Qed.

(** X9.  For a note conflict that must be handled (or whose remote content
    is missing) and for a resource conflict, the first thing the iteration
    does is the call that keeps a copy of the local item; when that call
    throws, the iteration throws and the local item has been neither
    overwritten nor deleted. *)
Theorem conflict_copy_comes_first (cls : ModelType) (p : string) (local : Item)
    (remote : option RemoteItem) (remoteContent : option Item) (action : string)
    (w : World) r w' :
  (action = "noteConflict"
   /\ match remoteContent with
      | Some theirs => mustHandleConflict C local theirs = true
      | None => True
      end)
  \/ action = "resourceConflict" ->
  applyUploadAction C cls p local remote remoteContent action w = Some (r, w') ->
  exists returned rest,
    trace w' = trace w ++ EvCall (conflictCopy action local) returned :: rest
    /\ (returned = false ->
        (exists e, r = Throw e) /\ forallb notOverwrite rest = true).
Proof.
  intros [[-> Hm] | ->] H; unfold applyUploadAction in H; simpl in H;
    rewrite andb_false_r in H; inv_pure H.
  - assert (Hm' : match remoteContent with
                  | Some rc => mustHandleConflict C local rc
                  | None => true
                  end = true) by (destruct remoteContent; auto).
    simpl in H. rewrite Hm' in H.
    apply bind_inv in H as [[a [w1 [E H]]]|[e [E ->]]].
    + destruct (call_trace C noKeep anyEvent _ _ _ _ _ E) as [evs [T _]].
      assert (K : keeps noKeep anyEvent
                    ((takeRemoteVersion C cls local remote remoteContent true);;
                     completeItemProcessing p))
        by (unfold_blocks; keeps_auto).
      apply K in H. destruct (steady_trace _ _ _ _ H) as [evs2 [T2 _]].
      exists true, (evs ++ evs2). split; [|discriminate].
      rewrite T2, T. simpl. rewrite <- app_assoc. reflexivity.
    + destruct (call_trace C noKeep notOverwrite _ _ _ _ _ E) as [evs [T Hn]].
      exists false, evs. split; [exact T|]. intros _. split; [eauto|exact Hn].
  - simpl in H.
    apply bind_inv in H as [[a [w1 [E H]]]|[e [E ->]]].
    + apply bind_inv in E as [[a1 [w2 [E E2]]]|[e [E F]]].
      * destruct (call_trace C noKeep anyEvent _ _ _ _ _ E) as [evs [T _]].
        assert (K1 : keeps noKeep anyEvent
                       (match remote with
                        | Some _ => call C (c_setLocalState (id local) FETCH_STATUS_IDLE)
                                         (setLocalState C (id local) FETCH_STATUS_IDLE)
                        | None => ret tt
                        end)) by keeps_auto.
        apply K1 in E2. destruct (steady_trace _ _ _ _ E2) as [evs1 [T1 _]].
        assert (K : keeps noKeep anyEvent
                      ((takeRemoteVersion C cls local remote remoteContent true);;
                       completeItemProcessing p))
          by (unfold_blocks; keeps_auto).
        apply K in H. destruct (steady_trace _ _ _ _ H) as [evs2 [T2 _]].
        exists true, (evs ++ evs1 ++ evs2). split; [|discriminate].
        rewrite T2, T1, T. simpl. rewrite <- !app_assoc. reflexivity.
      * discriminate F.
    + apply bind_inv in E as [[a1 [w2 [E E2]]]|[e1 [E F]]].
      * destruct (call_trace C noKeep anyEvent _ _ _ _ _ E) as [evs [T _]].
        assert (K1 : keeps noKeep anyEvent
                       (match remote with
                        | Some _ => call C (c_setLocalState (id local) FETCH_STATUS_IDLE)
                                         (setLocalState C (id local) FETCH_STATUS_IDLE)
                        | None => ret tt
                        end)) by keeps_auto.
        apply K1 in E2. destruct (steady_trace _ _ _ _ E2) as [evs1 [T1 _]].
        exists true, (evs ++ evs1). split; [|discriminate].
        rewrite T1, T. simpl. rewrite <- !app_assoc. reflexivity.
      * destruct (call_trace C noKeep notOverwrite _ _ _ _ _ E) as [evs [T Hn]].
        exists false, evs. split; [exact T|]. intros _. split; [eauto|exact Hn].
Qed.

(** *** The step that deletes on the target *)

Lemma acknowledgedAfter_app required deleted a b :
  acknowledgedAfter required deleted (a ++ b)
  = acknowledgedAfter required deleted a
    && acknowledgedAfter required (fold_left deletedAfter a deleted) b.
Proof.
  revert deleted. induction a as [|ev a IH]; intros deleted; simpl; [reflexivity|].
  rewrite IH, andb_assoc. reflexivity.
Qed.

Lemma acknowledgedAfter_none required deleted evs :
  forallb notAcknowledgement evs = true ->
  acknowledgedAfter required deleted evs = true.
Proof.
  revert deleted. induction evs as [|ev evs IH]; intros deleted H; simpl; [reflexivity|].
  simpl in H. apply andb_true_iff in H as [H1 H2]. rewrite IH by exact H2.
  destruct ev as [[] ?| | | | |]; try reflexivity. discriminate.
Qed.

Lemma deleted_grows p evs deleted :
  has p deleted = true -> has p (fold_left deletedAfter evs deleted) = true.
Proof.
  revert deleted. induction evs as [|ev evs IH]; intros deleted H; simpl; [exact H|].
  apply IH. destruct ev as [[] [|]| | | | |]; try exact H.
  unfold has in *. simpl. rewrite H. apply orb_true_r.
Qed.

Lemma deleted_after_call p evs deleted :
  has p (fold_left deletedAfter (EvCall (c_api_delete p) true :: evs) deleted) = true.
Proof.
  simpl. apply deleted_grows. unfold has. simpl. rewrite String.eqb_refl. reflexivity.
Qed.

Lemma deleted_in p evs deleted :
  In (EvCall (c_api_delete p) true) evs ->
  has p (fold_left deletedAfter evs deleted) = true.
Proof.
  revert deleted. induction evs as [|ev evs IH]; intros deleted H; [destruct H|].
  destruct H as [->|H].
  - apply deleted_after_call.
  - simpl. apply IH, H.
Qed.

Lemma acknowledged_segment required deleted pre t itemId b post :
  forallb notAcknowledgement pre = true ->
  (forall p, In p (required itemId) -> In (EvCall (c_api_delete p) true) pre) ->
  (forall deleted, acknowledgedAfter required deleted post = true) ->
  acknowledgedAfter required deleted
    (pre ++ EvCall (c_remoteDeletedItem t itemId) b :: post) = true.
Proof.
  intros Hn Hr Hp. rewrite acknowledgedAfter_app, acknowledgedAfter_none by exact Hn.
  simpl. rewrite Hp, andb_true_r. apply forallb_forall. intros p I.
  apply deleted_in, Hr, I.
Qed.

Lemma deleteRemoteItems_acknowledged required items :
  (forall it p, In it items -> In p (required (item_id it)) ->
     p = systemPath C (item_id it)
     \/ (item_type it = TYPE_RESOURCE /\ p = resourceRemotePath C (item_id it))) ->
  forall (w : World) r w',
    deleteRemoteItems C items w = Some (r, w') ->
    exists evs, trace w' = trace w ++ evs
                /\ forall deleted, acknowledgedAfter required deleted evs = true.
Proof.
  induction items as [|item rest IH]; intros Hreq w r w' H; simpl in H.
  - inversion H; subst. exists []. rewrite app_nil_r. auto.
  - inv_pure H. destruct (cancelling w).
    { inversion H; subst. exists []. rewrite app_nil_r. auto. }
    inv_pure H.
    match type of H with
    | context [logSyncOperation C ?a ?l ?rm ?m ?n w] =>
        destruct (steady_trace _ _ _ _
                    (steady_logSyncOperation noKeep notAcknowledgement C a l rm m n w))
          as [e0 [T0 N0]];
        set (w0 := logSyncOperation C a l rm m n w) in *
    end.
    clearbody w0.
    assert (Kapi : forall p, keeps noKeep notAcknowledgement
                     (apiCall C (c_api_delete p) (api_delete C p)))
      by (intros; unfold_blocks; keeps_auto).
    apply bind_inv in H as [[x1 [w1 [E1 H]]]|[e [E1 ->]]].
    2:{ apply Kapi in E1. destruct (steady_trace _ _ _ _ E1) as [e1 [T1 N1]].
        exists (e0 ++ e1). rewrite T1, T0, <- app_assoc. split; [reflexivity|].
        intros deleted. apply acknowledgedAfter_none. rewrite forallb_app, N0, N1. auto. }
    apply (apiCall_ok_trace noKeep notAcknowledgement) in E1 as [e1 [T1 N1]].
    apply bind_inv in H as [[x2 [w2 [E2 H]]]|[e [E2 ->]]].
    2:{ assert (K2 : keeps noKeep notAcknowledgement
                       (if ModelType_eqb (item_type item) TYPE_RESOURCE
                        then apiCall C (c_api_delete (resourceRemotePath C (item_id item)))
                               (api_delete C (resourceRemotePath C (item_id item)))
                        else ret tt))
          by (destruct (ModelType_eqb (item_type item) TYPE_RESOURCE);
              [apply Kapi|apply keeps_ret]).
        apply K2 in E2. destruct (steady_trace _ _ _ _ E2) as [e2 [T2 N2]].
        exists (e0 ++ (EvCall (c_api_delete (systemPath C (item_id item))) true :: e1) ++ e2).
        rewrite T2, T1, T0, <- !app_assoc. split; [reflexivity|].
        intros deleted. apply acknowledgedAfter_none.
        rewrite !forallb_app, N0, N2. simpl. rewrite N1. auto. }
    assert (B : exists e2, trace w2 = trace w1 ++ e2
                /\ forallb notAcknowledgement e2 = true
                /\ (item_type item = TYPE_RESOURCE ->
                    In (EvCall (c_api_delete (resourceRemotePath C (item_id item))) true) e2)).
    { destruct (item_type item) eqn:Ty; simpl in E2;
        try (inversion E2; subst; exists []; rewrite app_nil_r;
             split; [reflexivity|]; split; [reflexivity|]; discriminate).
      apply (apiCall_ok_trace noKeep notAcknowledgement) in E2 as [e2 [T2 N2]].
      eexists. split; [exact T2|]. split; [simpl; exact N2|]. intros _. left. reflexivity. }
    destruct B as [e2 [T2 [N2 B]]].
    set (pre := e0 ++ (EvCall (c_api_delete (systemPath C (item_id item))) true :: e1) ++ e2).
    assert (Npre : forallb notAcknowledgement pre = true)
      by (unfold pre; rewrite !forallb_app, N0, N2; simpl; rewrite N1; auto).
    assert (Rpre : forall p, In p (required (item_id item)) ->
                     In (EvCall (c_api_delete p) true) pre).
    { intros p I. destruct (Hreq item p (or_introl eq_refl) I) as [->|[Ty ->]]; unfold pre.
      - apply in_or_app. right. apply in_or_app. left. left. reflexivity.
      - apply in_or_app. right. apply in_or_app. right. apply B, Ty. }
    apply bind_inv in H as [[x3 [w3 [E3 H]]]|[e [E3 ->]]].
    + apply (call_trace C noKeep notAcknowledgement) in E3 as [e3 [T3 N3]].
      destruct (IH (fun it p I => Hreq it p (or_intror I)) _ _ _ H) as [e4 [T4 A4]].
      exists (pre ++ EvCall (c_remoteDeletedItem (syncTargetId C) (item_id item)) true
                  :: e3 ++ e4).
      split.
      * rewrite T4, T3, T2, T1, T0. unfold pre. simpl.
        rewrite <- !app_assoc. simpl. rewrite <- !app_assoc. reflexivity.
      * intros deleted. apply acknowledged_segment; [exact Npre|exact Rpre|].
        intros d. rewrite acknowledgedAfter_app, acknowledgedAfter_none by exact N3.
        apply A4.
    + apply (call_trace C noKeep notAcknowledgement) in E3 as [e3 [T3 N3]].
      exists (pre ++ EvCall (c_remoteDeletedItem (syncTargetId C) (item_id item)) false
                  :: e3).
      split.
      * rewrite T3, T2, T1, T0. unfold pre. simpl.
        rewrite <- !app_assoc. simpl. rewrite <- !app_assoc. reflexivity.
      * intros deleted. apply acknowledged_segment; [exact Npre|exact Rpre|].
        intros d. apply acknowledgedAfter_none, N3.
Qed.

(** X10.  In the loop that deletes on the target the items deleted locally,
    every call to [remoteDeletedItem] for an item comes after the deletion
    of the item's file on the target has returned, and, when the items are
    all resources, after the deletion of its blob has returned too. *)
Theorem deletion_acknowledged_after_delete (items : list DeletedItem) (w : World) r w' :
  deleteRemoteItems C items w = Some (r, w') ->
  exists evs,
    trace w' = trace w ++ evs
    /\ acknowledgedAfter (fun itemId => [systemPath C itemId]) [] evs = true
    /\ ((forall item, In item items -> item_type item = TYPE_RESOURCE) ->
        acknowledgedAfter
          (fun itemId => [systemPath C itemId; resourceRemotePath C itemId]) [] evs
        = true).
Proof.
  intros H.
  destruct (deleteRemoteItems_acknowledged (fun itemId => [systemPath C itemId]) items
              ltac:(intros it p _ [<-|[]]; auto) w r w' H) as [evs [T A]].
  exists evs. split; [exact T|]. split; [apply A|]. intros R.
  destruct (deleteRemoteItems_acknowledged
              (fun itemId => [systemPath C itemId; resourceRemotePath C itemId]) items
              ltac:(intros it p I [<-|[<-|[]]]; auto) w r w' H) as [evs' [T' A']].
  rewrite T in T'. apply app_inv_head in T'. subst evs'. apply A'.
Qed.

(** *** A run that is being cancelled *)

(** X11.  Once the run is being cancelled, the three steps end (with one
    unit of fuel, whatever the collaborators answer) without any transfer:
    they only ask the store for the deleted items, renew the download
    queue and write to the log, and the run is still being cancelled after
    them. *)
Theorem cancelled_steps_transfer_nothing (options : Options)
    (lastContext : SyncContext) (steps : list string) (masterKeysBefore : Z)
    (fuel : nat) (w : World) :
  cancelling w = true ->
  exists r w' evs,
    runSteps C options lastContext steps masterKeysBefore (S fuel) w = Some (r, w')
    /\ cancelling w' = true
    /\ trace w' = trace w ++ evs /\ forallb isIdleEvent evs = true.
Proof.
  revert w. change (quiet (runSteps C options lastContext steps masterKeysBefore (S fuel))).
  unfold runSteps, uploadStep, deleteRemoteStep, deltaStep.
  apply quiet_bind.
  { destruct (has "update_remote" steps); [|apply quiet_ret].
    apply quiet_bind; [apply quiet_modify; auto|]. intros _. simpl.
    apply quiet_gets_when; [auto|apply quiet_ret]. }
  intros _. apply quiet_bind.
  { destruct (has "delete_remote" steps); [|apply quiet_ret].
    apply quiet_bind; [apply quiet_call; reflexivity|]. intros deleted.
    apply quiet_deleteRemoteItems. }
  intros _. apply quiet_gets. intros queue. apply quiet_bind.
  { destruct queue; [apply quiet_call; reflexivity|apply quiet_ret]. }
  intros _. apply quiet_bind; [apply quiet_callSync; reflexivity|]. intros _.
  apply quiet_bind; [apply quiet_modify; auto|]. intros _.
  destruct (has "delta" steps); [|apply quiet_ret].
  apply quiet_bind; [apply quiet_modify; auto|]. intros _.
  apply quiet_bind.
  { simpl. apply quiet_gets_when; [|apply quiet_ret].
    intros v H. rewrite H. reflexivity. }
  intros _. apply quiet_bind; [apply quiet_modify; auto|]. intros _.
  apply quiet_gets_when; [auto|]. apply quiet_bind; [apply quiet_ret|]. intros _.
  apply quiet_gets_when; [auto|apply quiet_ret].
Qed.

(** *** The delta step *)

(** X12.  The loop that queues the downloads of a page changes neither the
    synchronizer nor the frame; it does nothing in a run that is being
    cancelled; otherwise, when it returns, it has pushed to the queue, in
    order, exactly the remote items that are not up to date (with accurate
    timestamps, those whose local copy does not have the remote's
    [jop_updated_time]; without, all of them). *)
Theorem enqueueDownloads_queues (locals : list Item) (remotes : list RemoteItem)
    (w : World) r w' :
  enqueueDownloads C locals remotes w = Some (r, w') ->
  self w' = self w /\ frame w' = frame w
  /\ (cancelling w = true -> r = Ok tt /\ w' = w)
  /\ (cancelling w = false -> r = Ok tt ->
      trace w'
      = trace w ++ map (fun remote => EvCall (c_queue_push (path remote)) true)
                       (List.filter (fun remote => negb (upToDate C locals remote)) remotes)).
Proof.
  revert w. induction remotes as [|remote rest IH]; intros w H; simpl in H.
  - inversion H; subst. simpl. rewrite app_nil_r. auto.
  - inv_pure H. destruct (cancelling w) eqn:Hc.
    { inversion H; subst. repeat split; auto; discriminate. }
    assert (N : (if supportsAccurateTimestamp C
                 then match findById (pathToId C (path remote)) locals with
                      | Some local =>
                          match jop_updated_time remote with
                          | Some t => negb (updated_time local =? t)
                          | None => true
                          end
                      | None => true
                      end
                 else true) = negb (upToDate C locals remote)).
    { unfold upToDate. destruct (supportsAccurateTimestamp C); [|reflexivity]. simpl.
      destruct (findById (pathToId C (path remote)) locals); [|reflexivity].
      destruct (jop_updated_time remote); reflexivity. }
    rewrite N in H. simpl. destruct (negb (upToDate C locals remote)).
    + apply bind_inv in H as [[x [w1 [E H]]]|[e [E ->]]].
      * unfold callSync in E. destruct (queue_push C (path remote) (ext w)) as [r0 e0].
        inversion E; subst. clear E.
        destruct (IH _ H) as [S [F [_ T]]]. simpl in S, F, T.
        split; [exact S|]. split; [exact F|]. split; [discriminate|].
        intros _ ->. rewrite (T Hc eq_refl). simpl. rewrite <- app_assoc. reflexivity.
      * unfold callSync in E. destruct (queue_push C (path remote) (ext w)) as [r0 e0].
        inversion E; subst. repeat split; auto; discriminate.
    + apply bind_inv in H as [[x [w1 [E H]]]|[e [E ->]]]; [|discriminate E].
      inversion E; subst. destruct (IH _ H) as [S [F [_ T]]].
      split; [exact S|]. split; [exact F|]. split; [discriminate|].
      intros _ ->. exact (T Hc eq_refl).
Qed.

Lemma decideDeltaAction_not_newer remote local (w : World) d w' :
  isDeleted remote = false ->
  (forall s e theirs e',
     unserialize C s e = (Ok theirs, e') ->
     updated_time theirs <= updated_time (ItemClass_filter C (type_ local) local)) ->
  decideDeltaAction C remote (Some local) w = Some (Ok d, w') ->
  dd_action d = None.
Proof.
  intros Hd Hu H. unfold decideDeltaAction in H. rewrite Hd in H.
  apply bind_inv in H as [[cls [w1 [Ec H]]]|[e [_ F]]]; [|discriminate F].
  assert (cls = type_ local)
    by (destruct (itemClass (type_ local)) eqn:I;
        [inversion Ec; subst; apply itemClass_ok, I|discriminate Ec]).
  subst cls.
  match type of H with
  | (if ?c then _ else _) _ = _ => destruct c
  end; [inversion H; reflexivity|].
  apply bind_inv in H as [[content [w2 [E H]]]|[e [_ F]]]; [|discriminate F].
  destruct content as [theirs|]; [|inversion H; reflexivity].
  apply loadContent_origin in E as [s [e [e' E]]].
  specialize (Hu _ _ _ _ E).
  destruct (updated_time theirs >? updated_time (ItemClass_filter C (type_ local) local)) eqn:G.
  - apply Z.gtb_lt in G. lia.
  - inversion H. reflexivity.
Qed.

(** X13.  What the processing of a remote item of a page leaves alone: an
    item whose path is not a system path, an item deleted on the target
    that does not exist locally, and, with accurate timestamps, an item
    whose local copy has the remote's [jop_updated_time], are only counted
    as processed; and when no deserialised content can be more recent than
    the local copy, nothing is written locally. *)
Theorem delta_leaves_alone (masterKeysBefore : Z) (locals : list Item)
    (remote : RemoteItem) (w : World) r w' :
  let counted := logSyncOperation C "fetchingProcessed" None None
                   "Processing fetched item" 1 w in
  let found := findById (pathToId C (path remote)) locals in
  processRemote C masterKeysBefore locals remote w = Some (r, w') ->
  (isSystemPath C (path remote) = false -> r = Ok tt /\ w' = counted)
  /\ (found = None -> isDeleted remote = true -> r = Ok tt /\ w' = counted)
  /\ (forall local,
        found = Some local -> type_ local <> TYPE_UNKNOWN ->
        isDeleted remote = false -> supportsAccurateTimestamp C = true ->
        jop_updated_time remote
        = Some (updated_time (ItemClass_filter C (type_ local) local)) ->
        r = Ok tt /\ w' = counted)
  /\ (forall local,
        found = Some local -> isDeleted remote = false ->
        (forall s e theirs e',
           unserialize C s e = (Ok theirs, e') ->
           updated_time theirs <= updated_time (ItemClass_filter C (type_ local) local)) ->
        exists evs, trace w' = trace w ++ evs /\ forallb notLocalWrite evs = true).
Proof.
  intros counted found H. unfold processRemote in H. inv_pure H.
  fold counted in H. fold found in H.
  assert (T0 : exists e0, trace counted = trace w ++ e0
                          /\ forallb notLocalWrite e0 = true)
    by apply (steady_trace _ _ _ _
                (steady_logSyncOperation noKeep notLocalWrite C "fetchingProcessed"
                   None None "Processing fetched item" 1 w)).
  clearbody counted found.
  split; [|split; [|split]].
  - intros S. rewrite S in H. simpl in H. inversion H. split; reflexivity.
  - intros F D. destruct (isSystemPath C (path remote));
      [|inversion H; split; reflexivity].
    simpl in H. rewrite F in H. unfold decideDeltaAction in H. rewrite D in H.
    simpl in H. unfold bind, attempt, ret, gets in H. simpl in H.
    destruct (has "skipRevisions" (testingHooks_ (self counted)) && false);
      inversion H; split; reflexivity.
  - intros local F K0 D A J.
    assert (K : itemClass (type_ local) = Ok (type_ local))
      by (destruct (type_ local); try reflexivity; contradiction).
    destruct (isSystemPath C (path remote)); [|inversion H; split; reflexivity].
    simpl in H. rewrite F in H. unfold decideDeltaAction in H.
    rewrite K, D, A, J in H. unfold bind, attempt, ret, gets, of_res in H.
    simpl in H. rewrite Z.eqb_refl in H. simpl in H.
    destruct (has "skipRevisions" (testingHooks_ (self counted)) && false);
      inversion H; split; reflexivity.
  - intros local F D U. destruct T0 as [e0 [T0 N0]].
    destruct (isSystemPath C (path remote));
      [|inversion H; subst; exists e0; auto].
    simpl in H. rewrite F in H.
    apply bind_inv in H as [[decided [w1 [E H]]]|[e [E _]]];
      [|apply attempt_inv in E as [? [_ Q]]; discriminate Q].
    apply attempt_inv in E as [r0 [E Q]]. inversion Q; subst decided. clear Q.
    assert (K : keeps noKeep notLocalWrite (decideDeltaAction C remote (Some local)))
      by (unfold decideDeltaAction, loadContent; keeps_auto).
    destruct (steady_trace _ _ _ _ (K _ _ _ E)) as [e1 [T1 N1]].
    destruct r0 as [d|error].
    + apply (decideDeltaAction_not_newer remote local _ _ _ D U) in E.
      rewrite E in H. inv_pure H.
      match type of H with
      | match (if ?c then _ else _) with _ => _ end _ = _ => destruct c
      end; inversion H; subst; exists (e0 ++ e1);
        rewrite T1, T0, <- app_assoc, forallb_app, N0, N1; auto.
    + match type of H with
      | ?m w1 = _ => assert (K2 : keeps noKeep notLocalWrite m) by keeps_auto
      end.
      destruct (steady_trace _ _ _ _ (K2 _ _ _ H)) as [e2 [T2 N2]].
      exists (e0 ++ e1 ++ e2).
      rewrite T2, T1, T0, <- !app_assoc, !forallb_app, N0, N1, N2. auto.
Qed.

(** X14.  When the choice of the action for a remote item throws, for
    instance because its download failed: an error [rejectedByTarget] is
    appended to the report's [errors] and logged as a warning, and the
    processing of the item returns, leaving the frame as it was; any other
    error is thrown again with the path of the file in front of its message
    and with its code, type and details. *)
Theorem delta_item_errors (masterKeysBefore : Z) (locals : list Item)
    (remote : RemoteItem) (error : JError) (w w1 : World) :
  isSystemPath C (path remote) = true ->
  decideDeltaAction C remote (findById (pathToId C (path remote)) locals)
    (logSyncOperation C "fetchingProcessed" None None "Processing fetched item" 1 w)
  = Some (Throw error, w1) ->
  (code error = "rejectedByTarget" ->
   exists w2,
     processRemote C masterKeysBefore locals remote w = Some (Ok tt, w2)
     /\ errors (progressReport_ (self w2))
        = errors (progressReport_ (self w1)) ++ [ReportError error]
     /\ frame w2 = frame w1
     /\ trace w2
        = trace w1 ++ [EvLogger LWarn ("Rejected by target: " +:+ path remote +:+ ": "
                                       +:+ message error)])
  /\ (code error <> "rejectedByTarget" ->
      processRemote C masterKeysBefore locals remote w
      = Some (Throw (mkError (code error)
                       ("On file " +:+ path remote +:+ ": " +:+ message error)
                       (etype error) (details error)), w1)).
Proof.
  intros S H. unfold processRemote, bind, attempt, modify. rewrite S. simpl.
  rewrite H. split.
  - intros ->. simpl. eexists. split; [reflexivity|]. simpl. auto.
  - intros N. apply String.eqb_neq in N. rewrite N. reflexivity.
Qed.

(** X15.  When master keys existed before the run, the [try] block never
    enables the encryption: no call to [enableEncryption] or
    [loadMasterKeysFromSettings]. *)
Theorem encryption_not_enabled_when_keys_exist (options : Options)
    (lastContext : SyncContext) (steps : list string) (masterKeysBefore : Z)
    (fuel : nat) (w : World) r w' :
  masterKeysBefore <> 0 ->
  syncBody C options lastContext steps masterKeysBefore fuel w = Some (r, w') ->
  exists evs, trace w' = trace w ++ evs /\ forallb notEncryptionSetup evs = true.
Proof.
  intros N H. apply Z.eqb_neq in N.
  assert (forall locals remote,
            keeps noKeep notEncryptionSetup (processRemote C masterKeysBefore locals remote)).
  { intros. unfold processRemote, saveRemoteContent. rewrite N.
    unfold decideDeltaAction, loadContent, saveFromSync, handleCannotSyncItem, dispatch.
    repeat first
      [ assumption
      | match goal with
        | |- keeps _ _ (bind (if _ && false then _ else _) _) => rewrite andb_false_r
        end
      | keeps_step ]. }
  keeps_syncBody C (@noKeep) notEncryptionSetup masterKeysBefore.
  match goal with K : forall options lastContext steps fuel, keeps _ _ (syncBody _ _ _ _ _ _) |- _ =>
    apply K in H end.
  eapply steady_trace, H.
Qed.

Lemma folder_deltaLoop options masterKeysBefore fuel :
  keeps noKeep notFolderDeletion (deltaLoop C options masterKeysBefore fuel).
Proof.
  assert (forall locals remote,
            keeps noKeep notFolderDeletion (processRemote C masterKeysBefore locals remote)).
  { intros. unfold processRemote.
    unfold decideDeltaAction, loadContent, saveRemoteContent, saveFromSync,
      handleCannotSyncItem, dispatch.
    repeat first
      [ assumption
      | match goal with
        | |- keeps _ _ (bind (ret _) _) => apply keeps_bind_ret; cbv beta
        | |- keeps _ _ (bind (throw _) _) => apply keeps_bind_throw
        | |- keeps _ _ (if ModelType_eqb (type_ ?l) TYPE_FOLDER then _ else _) =>
            destruct (type_ l) eqn:?; cbn [ModelType_eqb itemClass of_res]
        end
      | keeps_step ]. }
  keeps_deltaLoop C (@noKeep) notFolderDeletion masterKeysBefore. auto.
Qed.

(** X16.  In the delta step the folders are deleted last: the events of
    the step are those of the loop over the pages, in which no folder is
    deleted, no note marked as a conflict and no orphan cleaned up,
    followed by those of the deletion of the collected folders, in which no
    page is fetched and no item downloaded, saved or deleted. *)
Theorem folders_are_deleted_last (options : Options) (lastContext : SyncContext)
    (masterKeysBefore : Z) (fuel : nat) (w : World) r w' :
  deltaStep C options lastContext masterKeysBefore fuel w = Some (r, w') ->
  exists pages folders,
    trace w' = trace w ++ pages ++ folders
    /\ forallb notFolderDeletion pages = true
    /\ forallb notItemProcessing folders = true.
Proof.
  intros H. unfold deltaStep in H. inv_pure H.
  apply bind_inv in H as [[[] [w1 [E H]]]|[e [E ->]]].
  - destruct (steady_trace _ _ _ _ (folder_deltaLoop _ _ _ _ _ _ E)) as [pages [T1 N1]].
    match type of H with
    | ?m w1 = _ =>
        assert (K : keeps noKeep notItemProcessing m)
    end.
    { assert (forall folders, keeps noKeep notItemProcessing (deleteLocalFolders C folders))
        by (intros folders; induction folders; simpl; keeps_auto).
      keeps_auto. }
    destruct (steady_trace _ _ _ _ (K _ _ _ H)) as [folders [T2 N2]].
    exists pages, folders. rewrite T2, T1. simpl. rewrite <- app_assoc. auto.
  - destruct (steady_trace _ _ _ _ (folder_deltaLoop _ _ _ _ _ _ E)) as [pages [T1 N1]].
    exists pages, []. rewrite T1, app_nil_r. simpl. auto.
Qed.

(** X17.  Whatever [start] gives to [saveContextHandler] has neither
    [statsCache] nor [statIdsCache]. *)
Theorem saved_contexts_have_no_caches (options : Options) (fuel : nat)
    (w : World) r w' :
  start C options fuel w = Some (r, w') ->
  exists evs,
    trace w' = trace w ++ evs
    /\ forall d, In (EvSaveContext d) evs ->
                 statsCache d = None /\ statIdsCache d = None.
Proof.
  intros H. keeps_start C (@noKeep) strippedSave.
  match goal with K : forall options fuel, keeps _ _ (start _ _ _) |- _ =>
    apply K in H end.
  destruct (steady_trace _ _ _ _ H) as [evs [T A]].
  exists evs. split; [exact T|]. intros d I.
  rewrite forallb_forall in A. specialize (A _ I). simpl in A.
  destruct (statsCache d), (statIdsCache d); try discriminate. auto.
Qed.

(** *** The ends of [start] *)

Lemma preparation_inv evs :
  forallb isPreparation evs = true ->
  forallb notLockEvent evs = true /\ existsb isSettingWrite evs = false.
Proof.
  induction evs as [|ev evs IH]; simpl; [auto|].
  intros H. apply andb_true_iff in H as [H1 H2]. destruct (IH H2) as [I1 I2].
  unfold isPreparation in H1. apply andb_true_iff in H1 as [H3 H4].
  apply negb_true_iff in H4. rewrite H3, H4, I1, I2. auto.
Qed.

(** X18.  When the target initialises and [checkCanSync] throws, the [try]
    block throws that error without a single call to the lock handler, and
    [syncLock] stays as it was; the setting [sync.upgradeState] is written
    (once, as the last thing) exactly when the code of the error is
    [outdatedSyncTarget]. *)
Theorem unfit_target_is_not_locked (options : Options) (lastContext : SyncContext)
    (steps : list string) (masterKeysBefore : Z) (fuel : nat) (error : JError)
    (w : World) :
  never_throws (api_initialize C) ->
  never_throws (api_setTempDirName C (Dirnames_Temp C)) ->
  always_throws error (checkCanSync C) ->
  never_throws (Setting_setValue C "sync.upgradeState" (SYNC_UPGRADE_STATE_SHOULD_DO C)) ->
  exists w' evs,
    syncBody C options lastContext steps masterKeysBefore fuel w = Some (Throw error, w')
    /\ trace w' = trace w ++ evs
    /\ forallb notLockEvent evs = true
    /\ syncLock (frame w') = syncLock (frame w)
    /\ if String.eqb (code error) "outdatedSyncTarget"
       then exists before,
              evs = before ++ [EvCall (c_Setting_setValue "sync.upgradeState"
                                         (SYNC_UPGRADE_STATE_SHOULD_DO C)) true]
              /\ existsb isSettingWrite before = false
       else existsb isSettingWrite evs = false.
Proof.
  intros Hi Ht Hc Hs.
  destruct (call_returns heldKeep isPreparation c_api_initialize _ w Hi eq_refl)
    as [[] [w1 [E1 S1]]].
  destruct (Ht (ext w1)) as [[] [e2 E2]].
  set (w2 := record (EvCall (c_api_setTempDirName (Dirnames_Temp C)) true) (set_ext e2 w1)).
  assert (S2 : steady heldKeep isPreparation w1 w2)
    by (eapply steady_trans; [apply steady_set_ext|apply steady_record; reflexivity]).
  destruct (call_throws heldKeep isPreparation c_checkCanSync _ error w2 Hc eq_refl)
    as [w3 [E3 S3]].
  pose proof (steady_trans _ _ _ _ _ S1 (steady_trans _ _ _ _ _ S2 S3)) as [K [evs [T P]]].
  clear S1 S2 S3.
  apply preparation_inv in P as [P1 P2].
  unfold kept, heldKeep in K. assert (K2 : syncLock (frame w3) = syncLock (frame w))
    by congruence.
  assert (Q : syncBody C options lastContext steps masterKeysBefore fuel w
              = ((if String.eqb (code error) "outdatedSyncTarget"
                  then callSync (c_Setting_setValue "sync.upgradeState"
                                   (SYNC_UPGRADE_STATE_SHOULD_DO C))
                         (Setting_setValue C "sync.upgradeState"
                            (SYNC_UPGRADE_STATE_SHOULD_DO C))
                  else ret tt);; (throw error : M unit)) w3).
  { unfold syncBody, prepareTarget.
    unfold bind at 1. unfold bind at 1. rewrite E1.
    unfold bind at 1. unfold callSync at 1. rewrite E2. cbn [isOk]. fold w2.
    unfold bind at 1. unfold attempt. unfold bind at 1. rewrite E3.
    unfold bind. destruct (String.eqb (code error) "outdatedSyncTarget"); simpl;
      [destruct (callSync _ _ w3) as [[[[]|?] ?]|]|]; reflexivity. }
  rewrite Q. destruct (String.eqb (code error) "outdatedSyncTarget").
  - destruct (Hs (ext w3)) as [[] [e4 E4]].
    eexists. exists (evs ++ [EvCall (c_Setting_setValue "sync.upgradeState"
                                     (SYNC_UPGRADE_STATE_SHOULD_DO C)) true]).
    unfold bind, callSync. rewrite E4. split; [reflexivity|]. simpl.
    rewrite T, app_assoc, forallb_app, P1. repeat split; auto. eauto.
  - exists w3, evs. repeat split; auto.
Qed.


Lemma other_syncBody options lastContext steps masterKeysBefore fuel :
  keeps otherKeep anyEvent (syncBody C options lastContext steps masterKeysBefore fuel).
Proof.
  keeps_processRemote C (@otherKeep) anyEvent masterKeysBefore.
  keeps_syncBody C (@otherKeep) anyEvent masterKeysBefore. auto.
Qed.

Lemma context_syncBody options lastContext steps masterKeysBefore fuel :
  has "delta" steps = false ->
  keeps contextKeep anyEvent (syncBody C options lastContext steps masterKeysBefore fuel).
Proof.
  intros D.
  keeps_upload C (@contextKeep) anyEvent. keeps_deleteRemote C (@contextKeep) anyEvent.
  unfold syncBody, prepareTarget, runSteps, uploadStep, deleteRemoteStep.
  rewrite D. keeps_auto.
Qed.

(** When the beginning of a run returns, it returns the caller's context,
    which is also the output context of the frame. *)
Lemma beginSync_returns options (w w0 : World) x :
  beginSync C options w = Some (Ok x, w0) ->
  (exists masterKeysBefore sid, x = (lastContextOf options, masterKeysBefore, sid))
  /\ outputContext (frame w0) = lastContextOf options.
Proof.
  intros H. unfold beginSync in H. do 5 inv_pure H.
  apply bind_inv in H as [[n [w1 [_ H]]]|[e [_ H]]]; [|discriminate H].
  do 2 inv_pure H.
  match type of H with
  | ?m ?v = _ => assert (K : keeps contextKeep anyEvent m) by keeps_auto;
                 pose proof (K _ _ _ H) as [S _]
  end.
  unfold kept, contextKeep in S. simpl in S. fold (lastContextOf options) in *.
  split; [|exact S].
  clear - H. repeat (apply bind_inv in H as [[? [? [_ H]]]|[? [_ H]]]; [|discriminate]).
  inversion H. eauto.
Qed.

(** When the end of a run returns, it returns the output context of the
    frame. *)
Lemma finishSync_returns steps sid (w w' : World) ctx :
  finishSync C steps sid w = Some (Ok ctx, w') -> ctx = outputContext (frame w).
Proof.
  intros H. unfold finishSync in H.
  apply bind_inv in H as [[u1 [w1 [E1 H]]]|[e [_ H]]]; [|discriminate H].
  apply bind_inv in H as [[u2 [w2 [E2 H]]]|[e [_ H]]]; [|discriminate H].
  assert (K1 : keeps contextKeep anyEvent (releaseSyncLock C))
    by (unfold releaseSyncLock; keeps_auto).
  assert (K2 : keeps contextKeep anyEvent (closeReport C sid))
    by (unfold closeReport, logSyncSummary; keeps_auto).
  apply K1 in E1 as [S1 _]. apply K2 in E2 as [S2 _].
  unfold kept, contextKeep in S1, S2.
  do 3 inv_pure H. simpl in H.
  destruct (errorToThrow (frame w2)); [discriminate H|].
  inversion H; subst ctx. simpl. congruence.
Qed.

(** X20.  The context that [start] returns has the properties of the
    caller's context other than [delta] as they were, and is the caller's
    context when the steps do not include [delta]. *)
Theorem start_returns_context (options : Options) (fuel : nat) (w : World)
    (ctx : SyncContext) w' :
  start C options fuel w = Some (Ok ctx, w') ->
  other ctx = other (lastContextOf options)
  /\ (has "delta" (stepsOf options) = false -> ctx = lastContextOf options).
Proof.
  intros H. unfold start in H. inv_pure H.
  destruct (negb (String.eqb (state w) "idle")); [discriminate H|].
  cbv zeta in H. fold (stepsOf options) in H.
  apply bind_inv in H as [[x [w0 [B H]]]|[e [_ H]]]; [|discriminate H].
  destruct (beginSync_returns _ _ _ _ B) as [[mk [sid ->]] Fr].
  apply bind_inv in H as [[u [w2 [E F]]]|[e [_ H]]]; [|discriminate H].
  apply finishSync_returns in F. subst ctx.
  apply bind_inv in E as [[rb [w1 [S Cc]]]|[e [S _]]];
    [|apply attempt_inv in S as [? [_ ?]]; discriminate].
  apply attempt_inv in S as [rb' [S Hrb]]. inversion Hrb; subst rb; clear Hrb.
  assert (O : outputContext (frame w2) = outputContext (frame w1)).
  { destruct rb' as [[]|error]; [inversion Cc; reflexivity|].
    apply (catch_onSyncError C) in Cc. apply catch_steady_inv in Cc.
    destruct Cc as [_ [_ [Cc _]]]. exact Cc. }
  rewrite O. split.
  - apply other_syncBody in S. destruct S as [S _]. unfold kept, otherKeep in S.
    rewrite S, Fr. reflexivity.
  - intros D. apply (context_syncBody _ _ _ _ _ D) in S. destruct S as [S _].
    unfold kept, contextKeep in S. rewrite S, Fr. reflexivity.
Qed.

(** X21.  The block that closes the report, when it returns: what it
    records last is the event [syncComplete], whose [withErrors] tells
    whether the report had errors when the block began; and it leaves the
    report empty and the progress callback dropped. *)
Theorem closeReport_announces (synchronizationId : string) (w w' : World) :
  closeReport C synchronizationId w = Some (Ok tt, w') ->
  progressReport_ (self w') = emptyReport
  /\ onProgress_ (self w') = false
  /\ exists evs,
       trace w' = trace w ++ evs
                  ++ [EvEmit "syncComplete"
                        (Some (reportHasErrors (progressReport_ (self w))))].
Proof.
  intros H. unfold closeReport in H.
  repeat match type of H with
  | bind (gets (fun w => progressReport_ (self w))) _ _ = _ => fail 1
  | bind ?m _ ?v = _ =>
      let E := fresh "E" in
      let G := fresh "G" in
      assert (G : gentle m) by (repeat gentle_step);
      apply bind_inv in H as [[? [? [E H]]]|[? [_ Q]]]; [|discriminate Q];
      apply G in E; clear G
  end.
  inv_pure H.
  match type of H with
  | bind ?m _ ?v = _ =>
      assert (G : gentle m) by (unfold logSyncSummary; repeat gentle_step);
      apply bind_inv in H as [[? [? [E' H]]]|[? [_ Q]]]; [|discriminate Q];
      apply G in E'; clear G
  end.
  inv_pure H. inv_pure H. inv_pure H. inversion H; subst w'. clear H.
  simpl. split; [reflexivity|]. split; [reflexivity|].
  repeat match goal with
  | S1 : sameErrors ?a ?b, S2 : sameErrors ?b ?c |- _ =>
      pose proof (sameErrors_trans _ _ _ S1 S2); clear S1 S2
  end.
  match goal with
  | S : sameErrors w ?v |- _ => destruct S as [Er [evs T]]; exists evs;
      unfold reportHasErrors; rewrite T, Er, <- app_assoc; reflexivity
  end.
Qed.

End FurtherProperties.

(** ** The plugin settings *)

Section Settings.

Import JsString JoplinSettings.

Lemma own_key_kept p k : (indexOf (keyPrefix p) (namespacedKey p k) =? 0) = true.
Proof. rewrite indexOf_zero. apply prefix_append. Qed.

Lemma onChange_namespaced (pluginId : string) (keys : list string) :
  onChange pluginId (map (namespacedKey pluginId) keys)
  = match keys with
    | [] => None
    | _ => Some keys
    end.
Proof.
  unfold onChange.
  assert (E : map (substr (String.length (keyPrefix pluginId)))
                (List.filter (fun k => indexOf (keyPrefix pluginId) k =? 0)
                   (map (namespacedKey pluginId) keys)) = keys).
  { induction keys as [|k keys IH]; [reflexivity|]. cbn [map List.filter].
    rewrite own_key_kept. cbn [map]. rewrite IH. unfold namespacedKey.
    rewrite substr_append. reflexivity. }
  rewrite E. reflexivity.
Qed.

(** X22.  When the keys of a [settingsChange] event are keys of the plugin,
    as [namespacedKey] makes them, the handler given to [onChange] is
    called with these keys without their prefix, in order; it is not
    called when there is none. *)
Theorem onChange_own_keys (pluginId : string) (keys : list string) :
  onChange pluginId (map (namespacedKey pluginId) keys)
  = match keys with
    | [] => None
    | _ => Some keys
    end.
Proof. apply onChange_namespaced. Qed.

Lemma foreign_key_dropped p q k :
  p <> q -> String.prefix (p +:+ ".") q = false -> String.prefix (q +:+ ".") p = false ->
  String.prefix (keyPrefix p) (namespacedKey q k) = false.
Proof.
  intros N A B. destruct (String.prefix (keyPrefix p) (namespacedKey q k)) eqn:E;
    [|reflexivity].
  unfold namespacedKey, keyPrefix in E. rewrite !append_assoc, prefix_skip in E.
  apply dotted_prefix in E as [E|[E|E]]; congruence.
Qed.

(** X23.  For two plugins with different ids, neither of which continues
    the other's id after a dot: no key of the one is a key of the other,
    and the handler of the one is not called for a change of the other's
    settings. *)
Theorem onChange_other_plugin (pluginId other : string) (keys : list string) :
  pluginId <> other ->
  String.prefix (pluginId +:+ ".") other = false ->
  String.prefix (other +:+ ".") pluginId = false ->
  onChange pluginId (map (namespacedKey other) keys) = None
  /\ forall key key', namespacedKey pluginId key <> namespacedKey other key'.
Proof.
  intros N A B. split.
  - unfold onChange.
    assert (E : List.filter (fun k => indexOf (keyPrefix pluginId) k =? 0)
                  (map (namespacedKey other) keys) = []).
    { induction keys as [|k keys IH]; [reflexivity|]. cbn [map List.filter].
      rewrite indexOf_zero, (foreign_key_dropped _ _ _ N A B). exact IH. }
    rewrite E. reflexivity.
  - intros key key' E.
    pose proof (foreign_key_dropped _ _ key' N A B) as F.
    rewrite <- E in F. unfold namespacedKey in F. rewrite prefix_append in F.
    discriminate.
Qed.

(** X24.  The namespaces of two plugins overlap when the id of one
    continues the id of the other after a dot: the key [key] of the plugin
    [pluginId.suffix] is the key [suffix.key] of the plugin [pluginId],
    whose handler is called with it. *)
Theorem onChange_overlapping_ids (pluginId suffix key : string) :
  namespacedKey (pluginId +:+ "." +:+ suffix) key
  = namespacedKey pluginId (suffix +:+ "." +:+ key)
  /\ onChange pluginId [namespacedKey (pluginId +:+ "." +:+ suffix) key]
     = Some [suffix +:+ "." +:+ key].
Proof.
  assert (E : namespacedKey (pluginId +:+ "." +:+ suffix) key
              = namespacedKey pluginId (suffix +:+ "." +:+ key)).
  { unfold namespacedKey, keyPrefix. rewrite !append_assoc. reflexivity. }
  split; [exact E|]. rewrite E.
  apply (onChange_namespaced pluginId [suffix +:+ "." +:+ key]).
Qed.

End Settings.

(** ** The build script of the server image *)

Section Build.

Import JsString BuildServerDocker.

(** X25.  For a version without a dash: the tag [server-v] followed by
    the version is not a pre-release and gives the version back; followed
    by the version and [-beta] it is a pre-release and gives the version
    with [-beta]. *)
Theorem version_of_release_tag (version : string) :
  occurs "-" version = false ->
  getIsPreRelease ("server-v" +:+ version) = false
  /\ getVersionFromTag ("server-v" +:+ version) false = Ok version
  /\ getIsPreRelease ("server-v" +:+ version +:+ "-beta") = true
  /\ getVersionFromTag ("server-v" +:+ version +:+ "-beta") true
     = Ok (version +:+ "-beta").
Proof.
  intros H. split; [|split; [|split]].
  - unfold getIsPreRelease.
    change ("server-v" +:+ version)
      with (String "s" (String "e" (String "r" (String "v" (String "e" (String "r"
              (String "-" (String "v" version)))))))).
    rewrite !indexOf_skip by reflexivity. rewrite (indexOf_absent _ _ _ H). reflexivity.
  - unfold getVersionFromTag.
    change ("server-v" +:+ version) with ("server-" +:+ ("v" +:+ version)) at 1.
    rewrite indexOf_zero, prefix_append. cbn [negb].
    change ("server-v" +:+ version) with ("server" +:+ String "-" (String "v" version)).
    rewrite split_append by reflexivity.
    rewrite split_occurs_not by (simpl; exact H).
    cbn [nth_error substr]. rewrite append_empty_r. reflexivity.
  - unfold getIsPreRelease. apply Z.ltb_lt.
    change ("server-v" +:+ version +:+ "-beta")
      with (String "s" (("erver-v" +:+ version) +:+ "-beta")).
    apply indexOf_after. reflexivity.
  - unfold getVersionFromTag.
    change ("server-v" +:+ version +:+ "-beta")
      with ("server-" +:+ ("v" +:+ version +:+ "-beta")) at 1.
    rewrite indexOf_zero, prefix_append. cbn [negb].
    change ("server-v" +:+ version +:+ "-beta")
      with ("server" +:+ String "-" (String "v" version +:+ String "-" "beta")).
    rewrite split_append by reflexivity.
    rewrite split_append by (simpl; exact H).
    cbn [nth_error substr]. reflexivity.
Qed.

(** X26.  [getVersionFromTag] throws [Invalid tag] exactly for a tag that
    does not begin with [server-]; for any other tag it returns a version,
    which ends with [-beta] for a pre-release. *)
Theorem getVersionFromTag_checks_the_prefix (tagName : string) (isPreRelease : bool) :
  (String.prefix "server-" tagName = false ->
   getVersionFromTag tagName isPreRelease = Throw (Error ("Invalid tag: " +:+ tagName)))
  /\ (String.prefix "server-" tagName = true ->
      exists part,
        getVersionFromTag tagName isPreRelease
        = Ok (part +:+ (if isPreRelease then "-beta" else ""))).
Proof.
  unfold getVersionFromTag. rewrite indexOf_zero. split; intros H; rewrite H; cbn [negb].
  - reflexivity.
  - apply prefix_spec in H as [rest ->].
    change ("server-" +:+ rest) with ("server" +:+ String "-" rest).
    rewrite split_append by reflexivity.
    destruct (split_nonempty "-" rest) as [first [others ->]].
    cbn [nth_error]. eauto.
Qed.

(** X27.  For an image version [major.minor.patch] (with [-beta] at its
    end for a pre-release), the tags pushed are [latest] (or [beta]), the
    major version, the major and minor versions, and the version itself,
    the first three with [-beta] for a pre-release. *)
Theorem dockerTags_of_version (major minor patch : string) (isPreRelease : bool) :
  occurs "." major = false -> occurs "." minor = false ->
  let suffix := if isPreRelease then "-beta" else "" in
  dockerTags (major +:+ "." +:+ minor +:+ "." +:+ patch +:+ suffix) isPreRelease
  = [ if isPreRelease then "beta" else "latest";
      major +:+ suffix;
      major +:+ "." +:+ minor +:+ suffix;
      major +:+ "." +:+ minor +:+ "." +:+ patch +:+ suffix ].
Proof.
  intros H1 H2 suffix. unfold dockerTags.
  change (major +:+ "." +:+ minor +:+ "." +:+ patch +:+ suffix)
    with (major +:+ String "." (minor +:+ String "." (patch +:+ suffix))) at 1 2 3.
  rewrite !(split_append _ major) by exact H1.
  rewrite !(split_append _ minor) by exact H2.
  cbn [nth_error]. reflexivity.
Qed.

End Build.

(** * Runs of the further cases *)

Module CaseWitnesses.

Import Scenario Cases.
Import JoplinSettings BuildServerDocker.

Lemma steady_never_throws {A} (a : A) : never_throws (steady_ext (Ok a)).
Proof.
  intros e. eexists. eexists. reflexivity.
Qed.

Lemma cancel_shows_cancelling_witness :
  cancelling (cancel (collab calm) fetching) = true
  /\ counted "cancelling" (progressReport_ (self (cancel (collab calm) fetching))) = 1
  /\ hasLine "Cancelling..."
       (reportLines (fun _ => "12:00") message
          (progressReport_ (self (cancel (collab calm) fetching)))) = true.
Proof.
  destruct (cancel_shows_cancelling (collab calm) (fun _ => "12:00") message fetching
              ltac:(vm_compute; discriminate) eq_refl) as [H1 [H2 [_ H3]]].
  split; [exact H1|]. split; [exact H2|].
  apply H3; [vm_compute; discriminate | reflexivity].
Defined.

Lemma apiCall_passes_through_witness :
  (exists w1,
     apiCall (collab calm) (c_api_stat "n1.md") (api_stat (collab calm) "n1.md") running
     = Some (Ok None, w1))
  /\ (exists w2,
        apiCall lockless (c_api_stat "n1.md") (api_stat lockless "n1.md") running
        = Some (Throw (JoplinError "Cannot list locks" "ECONNREFUSED"), w2)).
Proof.
  split.
  - eexists.
    apply (proj1 (apiCall_passes_through (collab calm) (c_api_stat "n1.md")
                    (api_stat (collab calm) "n1.md") running eq_refl)).
    vm_compute. reflexivity.
  - eexists.
    eapply (proj2 (apiCall_passes_through lockless (c_api_stat "n1.md")
                     (api_stat lockless "n1.md") running eq_refl));
      vm_compute; reflexivity.
Defined.

Lemma never_synced_items_are_not_fetched_witness :
  exists r w',
    uploadItem (collab calm) (mkNeedSync [fresh] false ["n0"]) fresh running
    = Some (r, w')
    /\ exists evs, trace w' = trace running ++ evs
                   /\ forallb notRemoteRead evs = true.
Proof.
  eexists. eexists. split; [vm_compute; reflexivity|].
  eapply (never_synced_items_are_not_fetched (collab calm)
            (mkNeedSync [fresh] false ["n0"]) fresh running _ _ eq_refl).
  vm_compute. reflexivity.
Defined.

Lemma upload_skips_rejected_download_witness :
  (exists w2,
     uploadItem (collab refusing) (mkNeedSync [note1] false []) note1 running
     = Some (Ok tt, w2)
     /\ errors (progressReport_ (self w2)) = [ReportError tooLarge]
     /\ donePaths (frame w2) = ["n1.md"])
  /\ (exists w1,
        uploadItem (collab dropping) (mkNeedSync [note1] false []) note1 running
        = Some (Throw unreachable, w1)).
Proof.
  split.
  - destruct (proj1 (upload_skips_rejected_download (collab refusing)
                       (mkNeedSync [note1] false []) note1 TYPE_NOTE remote1 tooLarge
                       running _ _ eq_refl eq_refl eq_refl
                       ltac:(vm_compute; reflexivity) ltac:(vm_compute; reflexivity))
                eq_refl) as [w2 [E [Er [D _]]]].
    exists w2. split; [exact E|]. split; [exact Er|exact D].
  - eexists.
    apply (proj2 (upload_skips_rejected_download (collab dropping)
                    (mkNeedSync [note1] false []) note1 TYPE_NOTE remote1 unreachable
                    running _ _ eq_refl eq_refl eq_refl
                    ltac:(vm_compute; reflexivity) ltac:(vm_compute; reflexivity))).
    vm_compute. discriminate.
Defined.

Lemma conflict_copy_comes_first_witness :
  exists r w' returned rest,
    applyUploadAction (collab calm) TYPE_NOTE "n1.md" note1 None None
                      "noteConflict" running = Some (r, w')
    /\ trace w' = trace running
                  ++ EvCall (conflictCopy "noteConflict" note1) returned :: rest.
Proof.
  assert (E : exists r w',
             applyUploadAction (collab calm) TYPE_NOTE "n1.md" note1 None None
                               "noteConflict" running = Some (r, w'))
    by (eexists; eexists; vm_compute; reflexivity).
  destruct E as [r [w' E]].
  destruct (conflict_copy_comes_first (collab calm) TYPE_NOTE "n1.md" note1 None None
              "noteConflict" running r w' (or_introl (conj eq_refl I)) E)
    as [returned [rest [T _]]].
  exists r, w', returned, rest. split; [exact E|exact T].
Defined.

Lemma deletion_acknowledged_after_delete_witness :
  exists r w',
    deleteRemoteItems (collab calm) removed running = Some (r, w')
    /\ exists evs,
         trace w' = trace running ++ evs
         /\ acknowledgedAfter
              (fun itemId => [systemPath (collab calm) itemId;
                              resourceRemotePath (collab calm) itemId]) [] evs = true.
Proof.
  eexists. eexists. split; [vm_compute; reflexivity|].
  destruct (deletion_acknowledged_after_delete (collab calm) removed running _ _
              ltac:(vm_compute; reflexivity)) as [evs [T [_ H]]].
  exists evs. split; [exact T|]. apply H.
  intros item [<-|[<-|[]]]; reflexivity.
Defined.

Lemma cancelled_steps_transfer_nothing_witness :
  exists r w' evs,
    runSteps (collab calm) opts previous defaultSyncSteps 0 3 cancelled = Some (r, w')
    /\ cancelling w' = true
    /\ trace w' = trace cancelled ++ evs /\ forallb isIdleEvent evs = true.
Proof.
  exact (cancelled_steps_transfer_nothing (collab calm) opts previous defaultSyncSteps
           0 2 cancelled eq_refl).
Defined.

Lemma enqueueDownloads_queues_witness :
  exists w',
    enqueueDownloads (collab calm) [newer] [remote1; remoteA] fetching = Some (Ok tt, w')
    /\ trace w' = [EvCall (c_queue_push "a.md") true].
Proof.
  eexists. split; [vm_compute; reflexivity|].
  exact (proj2 (proj2 (proj2 (enqueueDownloads_queues (collab calm) [newer]
                                [remote1; remoteA] fetching (Ok tt) _
                                ltac:(vm_compute; reflexivity))))
           eq_refl eq_refl).
Defined.

Lemma delta_leaves_alone_witness :
  processRemote (collab calm) 0 [newer] remote1 fetching
  = Some (Ok tt, logSyncOperation (collab calm) "fetchingProcessed" None None
                   "Processing fetched item" 1 fetching)
  /\ exists r w',
       processRemote (collab calm) 0 [note1] remote1 fetching = Some (r, w')
       /\ exists evs, trace w' = trace fetching ++ evs
                      /\ forallb notLocalWrite evs = true.
Proof.
  split.
  - assert (E : exists r w',
               processRemote (collab calm) 0 [newer] remote1 fetching = Some (r, w'))
      by (eexists; eexists; vm_compute; reflexivity).
    destruct E as [r [w' E]].
    destruct (proj1 (proj2 (proj2 (delta_leaves_alone (collab calm) 0 [newer] remote1
                                     fetching r w' E)))
                newer eq_refl ltac:(discriminate) eq_refl eq_refl eq_refl) as [-> ->].
    exact E.
  - eexists. eexists. split; [vm_compute; reflexivity|].
    apply (proj2 (proj2 (proj2 (delta_leaves_alone (collab calm) 0 [note1] remote1
                                  fetching _ _ ltac:(vm_compute; reflexivity))))
             note1 eq_refl eq_refl).
    intros s e theirs e' H. injection H as <- _. vm_compute. discriminate.
Defined.

Lemma delta_item_errors_witness :
  (exists w2,
     processRemote (collab refusing) 0 [note1] remote1 fetching = Some (Ok tt, w2)
     /\ errors (progressReport_ (self w2)) = [ReportError tooLarge])
  /\ (exists w1,
        processRemote (collab dropping) 0 [note1] remote1 fetching
        = Some (Throw (JoplinError "On file n1.md: Connection reset" "ECONNRESET"), w1)).
Proof.
  split.
  - destruct (proj1 (delta_item_errors (collab refusing) 0 [note1] remote1 tooLarge
                       fetching _ eq_refl ltac:(vm_compute; reflexivity)) eq_refl)
      as [w2 [E [Er _]]].
    exists w2. split; [exact E|exact Er].
  - eexists.
    apply (proj2 (delta_item_errors (collab dropping) 0 [note1] remote1 unreachable
                    fetching _ eq_refl ltac:(vm_compute; reflexivity))).
    vm_compute. discriminate.
Defined.

Lemma encryption_not_enabled_when_keys_exist_witness :
  (exists r w',
     syncBody (collab keyed) opts previous defaultSyncSteps 1 4 encrypting = Some (r, w')
     /\ exists evs, trace w' = trace encrypting ++ evs
                    /\ forallb notEncryptionSetup evs = true)
  /\ (exists r w',
        syncBody (collab keyed) opts previous defaultSyncSteps 0 4 encrypting = Some (r, w')
        /\ In (EvCall (c_enableEncryption key1) true) (trace w')).
Proof.
  split.
  - eexists. eexists. split; [vm_compute; reflexivity|].
    eapply (encryption_not_enabled_when_keys_exist (collab keyed) opts previous
              defaultSyncSteps 1 4 encrypting _ _ ltac:(discriminate)).
    vm_compute. reflexivity.
  - eexists. eexists. split; [vm_compute; reflexivity|].
    vm_compute. repeat first [left; reflexivity | right].
Defined.

Lemma folders_are_deleted_last_witness :
  exists r w' pages folders,
    deltaStep shelved opts previous 0 3 emptying = Some (r, w')
    /\ trace w' = trace emptying ++ pages ++ folders
    /\ forallb notFolderDeletion pages = true
    /\ forallb notItemProcessing folders = true
    /\ In (EvCall (c_queue_waitForResult "a.md") true) pages
    /\ In (EvCall (c_markNotesAsConflict "f1") true) folders
    /\ In (EvCall (c_Folder_delete "f1") true) folders.
Proof.
  eexists. eexists.
  destruct (folders_are_deleted_last shelved opts previous 0 3 emptying _ _
              ltac:(vm_compute; reflexivity)) as [pages [folders [T [P F]]]].
  exists pages, folders. split; [vm_compute; reflexivity|].
  split; [exact T|]. split; [exact P|]. split; [exact F|].
  change (trace emptying) with (@nil Event) in T. rewrite app_nil_l in T.
  assert (Side : forall ev,
            In ev (pages ++ folders) ->
            (notFolderDeletion ev = false -> In ev folders)
            /\ (notItemProcessing ev = false -> In ev pages)).
  { intros ev I. apply in_app_or in I as [I|I]; split; intros N; try exact I.
    - rewrite forallb_forall in P. rewrite (P _ I) in N. discriminate N.
    - rewrite forallb_forall in F. rewrite (F _ I) in N. discriminate N. }
  rewrite <- T in Side.
  split; [apply (Side (EvCall (c_queue_waitForResult "a.md") true)); [|reflexivity]|
          split; [apply (Side (EvCall (c_markNotesAsConflict "f1") true)); [|reflexivity]|
                  apply (Side (EvCall (c_Folder_delete "f1") true)); [|reflexivity]]];
    vm_compute; repeat first [left; reflexivity | right].
Defined.

Lemma saved_contexts_have_no_caches_witness :
  exists r w' evs,
    start (collab calm) opts 4 paged = Some (r, w')
    /\ trace w' = trace paged ++ evs
    /\ In (EvSaveContext (mkDeltaContext "page-1" None None)) evs
    /\ forall d, In (EvSaveContext d) evs ->
                 statsCache d = None /\ statIdsCache d = None.
Proof.
  eexists. eexists.
  destruct (saved_contexts_have_no_caches (collab calm) opts 4 paged _ _
              ltac:(vm_compute; reflexivity)) as [evs [T H]].
  exists evs. split; [vm_compute; reflexivity|]. split; [exact T|]. split; [|exact H].
  change (trace paged) with (@nil Event) in T. rewrite app_nil_l in T.
  rewrite <- T. vm_compute. repeat first [left; reflexivity | right].
Defined.

Lemma unfit_target_is_not_locked_witness :
  (exists w' evs,
     syncBody unfit opts previous defaultSyncSteps 0 4 running
     = Some (Throw outdated, w')
     /\ trace w' = trace running ++ evs
     /\ forallb notLockEvent evs = true
     /\ syncLock (frame w') = syncLock (frame running)
     /\ exists before,
          evs = before ++ [EvCall (c_Setting_setValue "sync.upgradeState" "should_do")
                             true]
          /\ existsb isSettingWrite before = false)
  /\ (exists w' evs,
        syncBody tooRecent opts previous defaultSyncSteps 0 4 running
        = Some (Throw unsupported, w')
        /\ trace w' = trace running ++ evs
        /\ forallb notLockEvent evs = true
        /\ syncLock (frame w') = syncLock (frame running)
        /\ existsb isSettingWrite evs = false).
Proof.
  split.
  - exact (unfit_target_is_not_locked unfit opts previous defaultSyncSteps 0 4 outdated
             running (steady_never_throws tt) (steady_never_throws tt)
             (fun e => ex_intro _ e eq_refl) (steady_never_throws tt)).
  - exact (unfit_target_is_not_locked tooRecent opts previous defaultSyncSteps 0 4
             unsupported running (steady_never_throws tt) (steady_never_throws tt)
             (fun e => ex_intro _ e eq_refl) (steady_never_throws tt)).
Defined.


Lemma start_returns_context_witness :
  (exists w', start (collab calm) taggedUpload 4 pending = Some (Ok tagged, w'))
  /\ (exists ctx w',
        start (collab calm) taggedFull 4 paged = Some (Ok ctx, w')
        /\ delta ctx <> delta tagged
        /\ other ctx = [("timestamp", "1667390000000")]).
Proof.
  split.
  - assert (E : exists ctx w',
               start (collab calm) taggedUpload 4 pending = Some (Ok ctx, w'))
      by (eexists; eexists; vm_compute; reflexivity).
    destruct E as [ctx [w' E]].
    destruct (start_returns_context (collab calm) taggedUpload 4 pending ctx w' E)
      as [_ H].
    exists w'. change tagged with (lastContextOf taggedUpload).
    rewrite <- (H eq_refl). exact E.
  - eexists. eexists. split; [vm_compute; reflexivity|].
    split; [vm_compute; discriminate|].
    refine (proj1 (start_returns_context (collab calm) taggedFull 4 paged _ _ _)).
    vm_compute. reflexivity.
Defined.

Lemma closeReport_announces_witness :
  exists w',
    closeReport (collab calm) "sync-1" running = Some (Ok tt, w')
    /\ progressReport_ (self w') = emptyReport
    /\ exists evs,
         trace w' = trace running ++ evs ++ [EvEmit "syncComplete" (Some false)].
Proof.
  eexists. split; [vm_compute; reflexivity|].
  destruct (closeReport_announces (collab calm) "sync-1" running _
              ltac:(vm_compute; reflexivity)) as [R [_ T]].
  split; [exact R|exact T].
Defined.

Lemma onChange_other_plugin_witness :
  onChange "org.joplin.a" [namespacedKey "org.joplin.b" "fontSize"] = None.
Proof.
  exact (proj1 (onChange_other_plugin "org.joplin.a" "org.joplin.b" ["fontSize"]
                  ltac:(discriminate) eq_refl eq_refl)).
Defined.

Lemma version_of_release_tag_witness :
  getVersionFromTag "server-v2.1.0" false = Ok "2.1.0"
  /\ getVersionFromTag "server-v2.1.0-beta" true = Ok "2.1.0-beta".
Proof.
  destruct (version_of_release_tag "2.1.0" eq_refl) as [_ [A [_ B]]].
  split; [exact A|exact B].
Defined.

Lemma dockerTags_of_version_witness :
  dockerTags "2.1.0-beta" true = ["beta"; "2-beta"; "2.1-beta"; "2.1.0-beta"].
Proof.
  exact (dockerTags_of_version "2" "1" "0" true eq_refl eq_refl).
Defined.

End CaseWitnesses.
